(** * File-Structure-Sync: a shallow embedding of [run.py]

    The development follows the layout of the program:
    - byte strings, Python [str] values and the MD5 digest of [hashlib];
    - [get_fast_md5], the sampling fingerprint;
    - Python dictionaries (insertion ordered) and the [json] document
      written by [scan_source] and read back by [sync_target];
    - a directory tree with [os.walk], [os.makedirs], [shutil.move],
      [os.listdir] and [os.rmdir];
    - [scan_source], [sync_target] and [main].

    Definitions come first, the statements about them afterwards. *)

From Stdlib Require Import ZArith List String Ascii Bool Lia DecimalString.
Import ListNotations.
Open Scope Z_scope.

(* ================================================================= *)
(** * Part I: the program *)
(* ================================================================= *)

(** ** Bytes and text *)

(** A byte is an integer in [0, 255]; a [bytes] value is a list of them. *)
Definition byte := Z.
Definition bytes := list byte.

(** A Python [str] is a sequence of code points.  Python allows every
    code point below [0x110000] in a [str], lone surrogates included
    (file names that are not valid UTF-8 reach the program that way). *)
Definition char := Z.
Definition str := list char.

Definition lit (s : string) : str :=
  map (fun a => Z.of_N (N_of_ascii a)) (list_ascii_of_string s).

Definition char_eqb : char -> char -> bool := Z.eqb.

Fixpoint str_eqb (a b : str) : bool :=
  match a, b with
  | [], [] => true
  | x :: a', y :: b' => char_eqb x y && str_eqb a' b'
  | _, _ => false
  end.

(** [str(n)] for an integer: its decimal numeral. *)
Definition py_str_int (n : Z) : str := lit (NilZero.string_of_int (Z.to_int n)).

(** [s.encode()] for text made of ASCII characters, as [str(file_size)] is. *)
Definition ascii_encode (s : str) : bytes := s.

(** ** MD5 (the digest behind [hashlib.md5]) *)

Module MD5.

Definition w32 := 4294967296.

Definition add32 (a b : Z) : Z := (a + b) mod w32.
Definition not32 (a : Z) : Z := Z.lxor a (w32 - 1).
Definition rotl32 (x c : Z) : Z :=
  Z.lor (Z.shiftl x c mod w32) (Z.shiftr x (32 - c)).

Definition shifts : list Z :=
  [7; 12; 17; 22; 7; 12; 17; 22; 7; 12; 17; 22; 7; 12; 17; 22;
   5; 9; 14; 20; 5; 9; 14; 20; 5; 9; 14; 20; 5; 9; 14; 20;
   4; 11; 16; 23; 4; 11; 16; 23; 4; 11; 16; 23; 4; 11; 16; 23;
   6; 10; 15; 21; 6; 10; 15; 21; 6; 10; 15; 21; 6; 10; 15; 21].

(** [K i = floor (2^32 * |sin (i + 1)|)]. *)
Definition K : list Z :=
  [3614090360; 3905402710; 606105819; 3250441966;
   4118548399; 1200080426; 2821735955; 4249261313;
   1770035416; 2336552879; 4294925233; 2304563134;
   1804603682; 4254626195; 2792965006; 1236535329;
   4129170786; 3225465664; 643717713; 3921069994;
   3593408605; 38016083; 3634488961; 3889429448;
   568446438; 3275163606; 4107603335; 1163531501;
   2850285829; 4243563512; 1735328473; 2368359562;
   4294588738; 2272392833; 1839030562; 4259657740;
   2763975236; 1272893353; 4139469664; 3200236656;
   681279174; 3936430074; 3572445317; 76029189;
   3654602809; 3873151461; 530742520; 3299628645;
   4096336452; 1126891415; 2878612391; 4237533241;
   1700485571; 2399980690; 4293915773; 2240044497;
   1873313359; 4264355552; 2734768916; 1309151649;
   4149444226; 3174756917; 718787259; 3951481745].

Record regs := Regs { rA : Z; rB : Z; rC : Z; rD : Z }.

Definition init : regs := Regs 1732584193 4023233417 2562383102 271733878.

Definition nthZ (l : list Z) (i : Z) : Z := nth (Z.to_nat i) l 0.

(** One of the 64 operations of a block, on the 16 words [M]. *)
Definition step (M : list Z) (r : regs) (i : Z) : regs :=
  let '(Regs a b c d) := r in
  let '(f, g) :=
    if i <? 16 then (Z.lor (Z.land b c) (Z.land (not32 b) d), i)
    else if i <? 32 then
      (Z.lor (Z.land d b) (Z.land (not32 d) c), (5 * i + 1) mod 16)
    else if i <? 48 then (Z.lxor b (Z.lxor c d), (3 * i + 5) mod 16)
    else (Z.lxor c (Z.lor b (not32 d)), (7 * i) mod 16) in
  let f' := add32 (add32 (add32 f a) (nthZ K i)) (nthZ M g) in
  Regs d (add32 b (rotl32 f' (nthZ shifts i))) b c.

Definition word_le (b0 b1 b2 b3 : Z) : Z :=
  b0 + 256 * b1 + 65536 * b2 + 16777216 * b3.

Fixpoint words (l : bytes) : list Z :=
  match l with
  | b0 :: b1 :: b2 :: b3 :: l' => word_le b0 b1 b2 b3 :: words l'
  | _ => []
  end.

Definition block (r : regs) (blk : bytes) : regs :=
  let r' := fold_left (step (words blk)) (map Z.of_nat (seq 0 64)) r in
  Regs (add32 (rA r) (rA r')) (add32 (rB r) (rB r'))
       (add32 (rC r) (rC r')) (add32 (rD r) (rD r')).

Fixpoint le_bytes (n : nat) (x : Z) : bytes :=
  match n with
  | O => []
  | S n' => x mod 256 :: le_bytes n' (x / 256)
  end.

Definition pad (msg : bytes) : bytes :=
  let len := Z.of_nat (List.length msg) in
  let zeros := (55 - len) mod 64 in
  msg ++ [128] ++ repeat 0 (Z.to_nat zeros)
      ++ le_bytes 8 ((8 * len) mod 18446744073709551616).

Fixpoint blocks (fuel : nat) (r : regs) (l : bytes) : regs :=
  match fuel, l with
  | _, [] => r
  | O, _ => r
  | S fuel', _ => blocks fuel' (block r (firstn 64 l)) (skipn 64 l)
  end.

Definition digest (msg : bytes) : bytes :=
  let p := pad msg in
  let r := blocks (List.length p) init p in
  le_bytes 4 (rA r) ++ le_bytes 4 (rB r)
    ++ le_bytes 4 (rC r) ++ le_bytes 4 (rD r).

Definition hex_digit (d : Z) : char :=
  if d <? 10 then 48 + d else 87 + d.

Definition hex (l : bytes) : str :=
  flat_map (fun b => [hex_digit (b / 16); hex_digit (b mod 16)]) l.

(** The [hashlib] object: [update] appends to the message seen so far
    and [hexdigest] is the digest of that message. *)
Definition hasher := bytes.
Definition new : hasher := [].
Definition update (h : hasher) (data : bytes) : hasher := h ++ data.
Definition hexdigest (h : hasher) : str := hex (digest h).

End MD5.

(** ** [get_fast_md5] *)

(** What [get_fast_md5] can observe of a path that names a regular file:
    whether it may be opened for reading, and its content. *)
Record file := mkFile { f_readable : bool; f_data : bytes }.

Definition getsize (f : file) : Z := Z.of_nat (List.length (f_data f)).

(** The body of the [with open(...)] block threads two objects: the file
    object (content and position) and the [hashlib] object. *)
Record io := mkIo { io_data : bytes; io_pos : Z; io_md : MD5.hasher }.

Definition IO (A : Type) : Type := io -> A * io.

Definition ret {A} (a : A) : IO A := fun s => (a, s).
Definition bind {A B} (m : IO A) (k : A -> IO B) : IO B :=
  fun s => let '(a, s') := m s in k a s'.

Notation "x <- m ;; k" := (bind m (fun x => k))
  (at level 61, m at next level, right associativity).
Notation "m ;;; k" := (bind m (fun _ => k))
  (at level 61, right associativity).

Definition slice (data : bytes) (pos n : Z) : bytes :=
  firstn (Z.to_nat n) (skipn (Z.to_nat pos) data).

(** [f.read()]: everything from the position to the end. *)
Definition f_read_all : IO bytes := fun s =>
  (skipn (Z.to_nat (io_pos s)) (io_data s),
   mkIo (io_data s) (Z.max (io_pos s) (Z.of_nat (List.length (io_data s))))
        (io_md s)).

(** [f.read(n)]: at most [n] bytes from the position. *)
Definition f_read (n : Z) : IO bytes := fun s =>
  let got := slice (io_data s) (io_pos s) n in
  (got, mkIo (io_data s) (io_pos s + Z.of_nat (List.length got)) (io_md s)).

(** [f.seek(p)]. *)
Definition f_seek (p : Z) : IO unit := fun s =>
  (tt, mkIo (io_data s) p (io_md s)).

(** [hash_md.update(b)]. *)
Definition md_update (b : bytes) : IO unit := fun s =>
  (tt, mkIo (io_data s) (io_pos s) (MD5.update (io_md s) b)).

Section Sampling.

Variable sample_size : Z.

Definition hash_body (file_size : Z) : IO unit :=
  if file_size <=? sample_size * 3 then
    b <- f_read_all ;; md_update b
  else
    b <- f_read sample_size ;; md_update b ;;;
    f_seek (file_size / 2) ;;;
    b <- f_read sample_size ;; md_update b ;;;
    f_seek (file_size - sample_size) ;;;
    b <- f_read sample_size ;; md_update b ;;;
    md_update (ascii_encode (py_str_int file_size)).

(** [None] is the [except Exception] branch: the file could not be
    opened. *)
Definition sampled_md5 (f : file) : option str :=
  let file_size := getsize f in
  if f_readable f then
    let '(_, s) := hash_body file_size (mkIo (f_data f) 0 MD5.new) in
    Some (MD5.hexdigest (io_md s))
  else None.

End Sampling.

Definition sample_size : Z := 1024 * 1024.

Definition get_fast_md5 (f : file) : option str := sampled_md5 sample_size f.

(** ** Python dictionaries

    A [dict] keeps its keys in insertion order; assigning to a key that
    is present replaces the value where the key stands. *)

Definition dict (V : Type) : Type := list (str * V).

Fixpoint dict_get {V} (d : dict V) (k : str) : option V :=
  match d with
  | [] => None
  | (k', v) :: d' => if str_eqb k' k then Some v else dict_get d' k
  end.

Fixpoint dict_set {V} (d : dict V) (k : str) (v : V) : dict V :=
  match d with
  | [] => [(k, v)]
  | (k', v') :: d' =>
      if str_eqb k' k then (k', v) :: d' else (k', v') :: dict_set d' k v
  end.

Definition dict_mem {V} (d : dict V) (k : str) : bool :=
  match dict_get d k with Some _ => true | None => false end.

Definition keys {V} (d : dict V) : list str := map fst d.

(** ** Text files opened with [encoding='utf-8'] *)

Module Utf8.

Definition is_surrogate (c : char) : bool := (55296 <=? c) && (c <=? 57343).

(** The strict encoder: lone surrogates raise [UnicodeEncodeError]. *)
Definition encode_char (c : char) : option bytes :=
  if c <? 0 then None
  else if c <? 128 then Some [c]
  else if c <? 2048 then Some [192 + c / 64; 128 + c mod 64]
  else if c <? 65536 then
    if is_surrogate c then None
    else Some [224 + c / 4096; 128 + (c / 64) mod 64; 128 + c mod 64]
  else if c <? 1114112 then
    Some [240 + c / 262144; 128 + (c / 4096) mod 64;
          128 + (c / 64) mod 64; 128 + c mod 64]
  else None.

Fixpoint encode (s : str) : option bytes :=
  match s with
  | [] => Some []
  | c :: s' =>
      match encode_char c, encode s' with
      | Some b, Some bs => Some (b ++ bs)
      | _, _ => None
      end
  end.

Definition is_cont (b : byte) : bool := (128 <=? b) && (b <=? 191).

Definition cons_opt (c : char) (r : option str) : option str :=
  match r with Some s => Some (c :: s) | None => None end.

(** The strict decoder: ill-formed sequences, overlong forms, surrogates
    and values above [0x10FFFF] raise [UnicodeDecodeError]. *)
Fixpoint decode (l : bytes) : option str :=
  match l with
  | [] => Some []
  | b0 :: l1 =>
      if (0 <=? b0) && (b0 <? 128) then cons_opt b0 (decode l1)
      else if (192 <=? b0) && (b0 <? 224) then
        match l1 with
        | b1 :: l2 =>
            let c := (b0 - 192) * 64 + (b1 - 128) in
            if is_cont b1 && (128 <=? c) then cons_opt c (decode l2)
            else None
        | _ => None
        end
      else if (224 <=? b0) && (b0 <? 240) then
        match l1 with
        | b1 :: b2 :: l3 =>
            let c := (b0 - 224) * 4096 + (b1 - 128) * 64 + (b2 - 128) in
            if is_cont b1 && is_cont b2 && (2048 <=? c)
               && negb (is_surrogate c)
            then cons_opt c (decode l3)
            else None
        | _ => None
        end
      else if (240 <=? b0) && (b0 <? 248) then
        match l1 with
        | b1 :: b2 :: b3 :: l4 =>
            let c := (b0 - 240) * 262144 + (b1 - 128) * 4096
                     + (b2 - 128) * 64 + (b3 - 128) in
            if is_cont b1 && is_cont b2 && is_cont b3
               && (65536 <=? c) && (c <? 1114112)
            then cons_opt c (decode l4)
            else None
        | _ => None
        end
      else None
  end.

(** Reading in text mode with the default [newline=None]: the line
    endings [\r\n] and [\r] are handed to the program as [\n]. *)
Fixpoint universal_newlines (s : str) : str :=
  match s with
  | [] => []
  | c :: s1 =>
      if c =? 13 then
        match s1 with
        | d :: s2 =>
            if d =? 10 then 10 :: universal_newlines s2
            else 10 :: universal_newlines s1
        | [] => [10]
        end
      else c :: universal_newlines s1
  end.

(** [f.read()] on a file opened with [open(path, 'r', encoding='utf-8')]. *)
Definition read_text (b : bytes) : option str :=
  match decode b with
  | Some s => Some (universal_newlines s)
  | None => None
  end.

(** [f.write(chunk)] for each chunk in turn on a file opened with
    [open(path, 'w', encoding='utf-8')] (on POSIX, where [\n] is written
    as it is).  The result is what the file holds once it is closed, and
    whether every chunk could be written; the first chunk that cannot be
    encoded raises. *)
Fixpoint write_chunks (chunks : list str) (written : bytes) : bytes * bool :=
  match chunks with
  | [] => (written, true)
  | ch :: rest =>
      match encode ch with
      | Some b => write_chunks rest (written ++ b)
      | None => (written, false)
      end
  end.

End Utf8.

(** ** [json.dump] and [json.load] on a mapping of strings *)

Module Json.

(** [ESCAPE_DCT] of [json.encoder], used when [ensure_ascii=False]. *)
Definition escape (c : char) : str :=
  if c =? 34 then [92; 34]
  else if c =? 92 then [92; 92]
  else if c =? 10 then [92; 110]
  else if c =? 13 then [92; 114]
  else if c =? 9 then [92; 116]
  else if c =? 8 then [92; 98]
  else if c =? 12 then [92; 102]
  else if (0 <=? c) && (c <? 32) then
    [92; 117; 48; 48; MD5.hex_digit (c / 16); MD5.hex_digit (c mod 16)]
  else [c].

(** [encode_basestring]. *)
Definition encode_basestring (s : str) : str :=
  [34] ++ flat_map escape s ++ [34].

Definition newline_indent : str := 10 :: lit "    ".
Definition item_separator : str := 44 :: newline_indent.
Definition key_separator : str := lit ": ".

Fixpoint item_chunks (first : bool) (items : dict str) : list str :=
  match items with
  | [] => []
  | (k, v) :: rest =>
      (if first then [] else [item_separator])
        ++ [encode_basestring k; key_separator; encode_basestring v]
        ++ item_chunks false rest
  end.

(** The chunks [json.dump(mapping, f, ensure_ascii=False, indent=4)]
    hands to [f.write], in order. *)
Definition iterencode (m : dict str) : list str :=
  match m with
  | [] => [lit "{}"]
  | _ => [lit "{"; newline_indent] ++ item_chunks true m ++ [[10]; lit "}"]
  end.

Definition dumps (m : dict str) : str := List.concat (iterencode m).

Definition is_ws (c : char) : bool :=
  (c =? 32) || (c =? 9) || (c =? 10) || (c =? 13).

Fixpoint skip_ws (s : str) : str :=
  match s with
  | c :: s' => if is_ws c then skip_ws s' else s
  | [] => []
  end.

Definition hex_val (c : char) : option Z :=
  if (48 <=? c) && (c <=? 57) then Some (c - 48)
  else if (97 <=? c) && (c <=? 102) then Some (c - 87)
  else if (65 <=? c) && (c <=? 70) then Some (c - 55)
  else None.

Definition hex4 (a b c d : char) : option Z :=
  match hex_val a, hex_val b, hex_val c, hex_val d with
  | Some x, Some y, Some z, Some w => Some (((x * 16 + y) * 16 + z) * 16 + w)
  | _, _, _, _ => None
  end.

(** The [BACKSLASH] table of [json.decoder]. *)
Definition backslash (e : char) : option char :=
  if e =? 34 then Some 34
  else if e =? 92 then Some 92
  else if e =? 47 then Some 47
  else if e =? 98 then Some 8
  else if e =? 102 then Some 12
  else if e =? 110 then Some 10
  else if e =? 114 then Some 13
  else if e =? 116 then Some 9
  else None.

Definition cons_res (c : char) (r : option (str * str)) : option (str * str) :=
  match r with Some (s, rest) => Some (c :: s, rest) | None => None end.

Definition is_high (u : Z) : bool := (55296 <=? u) && (u <=? 56319).
Definition is_low (u : Z) : bool := (56320 <=? u) && (u <=? 57343).

(** [scanstring] with [strict=True], from just after the opening quote:
    the string and what follows its closing quote. *)
Fixpoint scanstring (s : str) : option (str * str) :=
  match s with
  | [] => None
  | c :: s1 =>
      if c =? 34 then Some ([], s1)
      else if c =? 92 then
        match s1 with
        | [] => None
        | e :: s2 =>
            if e =? 117 then
              match s2 with
              | a :: b :: c' :: d :: s3 =>
                  match hex4 a b c' d with
                  | None => None
                  | Some uni =>
                      match s3 with
                      | bs :: u :: s4 =>
                          if is_high uni && (bs =? 92) && (u =? 117) then
                            match s4 with
                            | a2 :: b2 :: c2 :: d2 :: s5 =>
                                match hex4 a2 b2 c2 d2 with
                                | None => None
                                | Some uni2 =>
                                    if is_low uni2 then
                                      cons_res
                                        (65536 + ((uni - 55296) * 1024
                                                  + (uni2 - 56320)))
                                        (scanstring s5)
                                    else cons_res uni (scanstring s3)
                                end
                            | _ => None
                            end
                          else cons_res uni (scanstring s3)
                      | _ => cons_res uni (scanstring s3)
                      end
                  end
              | _ => None
              end
            else
              match backslash e with
              | Some ch => cons_res ch (scanstring s2)
              | None => None
              end
        end
      else if (0 <=? c) && (c <? 32) then None
      else cons_res c (scanstring s1)
  end.

(** The loop of [JSONObject], from just after the opening quote of a
    key.  The values of a mapping file are strings; a document with any
    other value is not a mapping of this program and is given up like a
    malformed one. *)
Fixpoint parse_members (fuel : nat) (s : str) (acc : dict str)
  : option (dict str * str) :=
  match fuel with
  | O => None
  | S fuel' =>
      match scanstring s with
      | None => None
      | Some (key, s1) =>
          match skip_ws s1 with
          | c :: s2 =>
              if c =? 58 then
                match skip_ws s2 with
                | q :: s3 =>
                    if q =? 34 then
                      match scanstring s3 with
                      | None => None
                      | Some (value, s4) =>
                          let acc' := dict_set acc key value in
                          match skip_ws s4 with
                          | e :: s5 =>
                              if e =? 125 then Some (acc', s5)
                              else if e =? 44 then
                                match skip_ws s5 with
                                | q2 :: s6 =>
                                    if q2 =? 34
                                    then parse_members fuel' s6 acc'
                                    else None
                                | [] => None
                                end
                              else None
                          | [] => None
                          end
                      end
                    else None
                | [] => None
                end
              else None
          | [] => None
          end
      end
  end.

(** [JSONObject], from just after the opening brace. *)
Definition parse_object (s : str) : option (dict str * str) :=
  match skip_ws s with
  | c :: s1 =>
      if c =? 125 then Some ([], s1)
      else if c =? 34 then parse_members (List.length s) s1 []
      else None
  | [] => None
  end.

(** [json.loads]: one object, surrounded by white space only. *)
Definition loads (s : str) : option (dict str) :=
  match s with
  | 65279 :: _ => None
  | _ =>
      match skip_ws s with
      | c :: s1 =>
          if c =? 123 then
            match parse_object s1 with
            | Some (d, rest) =>
                match skip_ws rest with
                | [] => Some d
                | _ :: _ => None
                end
            | None => None
            end
          else None
      | [] => None
      end
  end.

End Json.

(** [with open(output_json, 'w', encoding='utf-8') as f: json.dump(...)]:
    the bytes left in the file and whether the statement completed. *)
Definition save_mapping (m : dict str) : bytes * bool :=
  Utf8.write_chunks (Json.iterencode m) [].

(** [with open(mapping_json, 'r', encoding='utf-8') as f: json.load(f)];
    [None] when it raises.  The model reads the documents [json.dump]
    writes for a mapping: one object whose values are strings.  For any
    other document it gives [None] too, also where [json.load] would
    return a value; the statements that use a loaded mapping assume
    [load_mapping] gave one. *)
Definition load_mapping (b : bytes) : option (dict str) :=
  match Utf8.read_text b with
  | Some s => Json.loads s
  | None => None
  end.

(** ** Paths

    A location is the list of the names that lead to it from the root of
    the modelled tree, which stands for the directory the process runs
    in.  [resolve] is what the operating system makes of a path string:
    the names between the separators, empty names and [.] skipped.  The
    model covers paths without [..] components and without a leading
    separator ([plain] paths); on those [os.path.abspath] changes nothing
    that [resolve] keeps, and [os.path.join a b] resolves to the names of
    [a] followed by the names of [b].  Two kinds of path strings are
    outside the model: the empty string, which names nothing for
    [os.walk], [os.path.exists] and [open] and which [resolve] takes to
    the root, and a string that ends in a separator, which names a
    directory only and from which [resolve] drops the separator.  The
    statements about moves and walks are made for paths in normal form
    ([normal], among the specification-level definitions). *)

Definition path := list str.

Definition sep : char := 47.

Fixpoint path_eqb (p q : path) : bool :=
  match p, q with
  | [], [] => true
  | a :: p', b :: q' => str_eqb a b && path_eqb p' q'
  | _, _ => false
  end.

Fixpoint split_sep (s : str) : list str :=
  match s with
  | [] => [[]]
  | c :: s' =>
      if c =? sep then [] :: split_sep s'
      else match split_sep s' with
           | h :: t => (c :: h) :: t
           | [] => [[c]]
           end
  end.

Definition skipped_name (n : str) : bool :=
  match n with
  | [] => true
  | [46] => true
  | _ => false
  end.

Definition resolve (s : str) : path :=
  filter (fun n => negb (skipped_name n)) (split_sep s).

Definition plain (s : str) : bool :=
  match s with
  | 47 :: _ => false
  | _ => forallb (fun n => negb (str_eqb n (lit ".."))) (split_sep s)
  end.

(** [os.path.dirname] and [os.path.basename] of a location. *)
Definition dirname (p : path) : path := removelast p.
Definition basename (p : path) : str := last p [].

(** [os.path.relpath(full_path, source_dir)] for a file below
    [source_dir]: the names below [source_dir], joined by the separator. *)
Fixpoint join_names (p : path) : str :=
  match p with
  | [] => []
  | [n] => n
  | n :: p' => n ++ sep :: join_names p'
  end.

(** ** The directory tree *)

(** Regular files and directories; the entries of a directory are kept in
    the order in which [os.scandir] lists them. *)
#[warnings="-register-all"]
Inductive node :=
| File (f : file)
| Dir (ents : list (str * node)).

Definition entries := dict node.

(** A directory associates names with nodes the way a dictionary
    associates keys with values: [assoc] finds the entry called [n], and
    [ents_put] replaces it, or adds it after the others. *)
Definition assoc (ents : entries) (n : str) : option node := dict_get ents n.

Definition ents_put (ents : entries) (n : str) (x : node) : entries :=
  dict_set ents n x.

Fixpoint ents_del (ents : entries) (n : str) : entries :=
  match ents with
  | [] => []
  | (m, c) :: ents' =>
      if str_eqb m n then ents' else (m, c) :: ents_del ents' n
  end.

Fixpoint ents_alter (ents : entries) (n : str) (g : node -> node) : entries :=
  match ents with
  | [] => []
  | (m, c) :: ents' =>
      if str_eqb m n then (m, g c) :: ents' else (m, c) :: ents_alter ents' n g
  end.

Definition dir_names (ents : entries) : list str :=
  flat_map (fun e => match snd e with Dir _ => [fst e] | File _ => [] end) ents.

Definition file_ents (ents : entries) : list (str * file) :=
  flat_map (fun e => match snd e with File f => [(fst e, f)] | Dir _ => [] end)
           ents.

Fixpoint lookup (t : node) (p : path) : option node :=
  match p with
  | [] => Some t
  | n :: p' =>
      match t with
      | Dir ents =>
          match assoc ents n with
          | Some c => lookup c p'
          | None => None
          end
      | File _ => None
      end
  end.

(** Take the entry at [p] out of its directory. *)
Fixpoint remove_at (t : node) (p : path) : node :=
  match t, p with
  | Dir ents, [n] => Dir (ents_del ents n)
  | Dir ents, n :: p' => Dir (ents_alter ents n (fun c => remove_at c p'))
  | _, _ => t
  end.

(** Make [x] the entry at [p] of its directory. *)
Fixpoint put_at (t : node) (p : path) (x : node) : node :=
  match t, p with
  | Dir ents, [n] => Dir (ents_put ents n x)
  | Dir ents, n :: p' => Dir (ents_alter ents n (fun c => put_at c p' x))
  | _, _ => t
  end.

(** [os.makedirs(p, exist_ok=True)]: the directories of [p] that are
    missing are created; a regular file on the way raises. *)
Fixpoint makedirs (t : node) (p : path) : option node :=
  match t with
  | File _ => None
  | Dir ents =>
      match p with
      | [] => Some t
      | n :: p' =>
          match assoc ents n with
          | Some c =>
              match makedirs c p' with
              | Some c' => Some (Dir (ents_put ents n c'))
              | None => None
              end
          | None =>
              match makedirs (Dir []) p' with
              | Some c' => Some (Dir (ents_put ents n c'))
              | None => None
              end
          end
      end
  end.

(** [os.rename(src, dst)] for a regular file [src]: [dst] is created in
    its directory, or replaced when it is a regular file.  A missing
    [src], or a [dst] whose directory does not exist, raises (and so does
    the copy [shutil.move] falls back on). *)
Definition os_rename (t : node) (src dst : path) : option node :=
  match lookup t src with
  | Some (File f) =>
      match dst, lookup t (dirname dst) with
      | _ :: _, Some (Dir _) => Some (put_at (remove_at t src) dst (File f))
      | _, _ => None
      end
  | _ => None
  end.

(** [shutil.move(src, dst)]: a [dst] that is a directory receives the
    file under its own name, and it is an error if that name is taken. *)
Definition shutil_move (t : node) (src dst : path) : option node :=
  match lookup t dst with
  | Some (Dir _) =>
      let real_dst := dst ++ [basename src] in
      match lookup t real_dst with
      | Some _ => None
      | None => os_rename t src real_dst
      end
  | _ => os_rename t src dst
  end.

(** [os.listdir]. *)
Definition listdir (t : node) (p : path) : option (list str) :=
  match lookup t p with
  | Some (Dir ents) => Some (map fst ents)
  | _ => None
  end.

(** [os.rmdir]: only an empty directory can be removed. *)
Definition rmdir (t : node) (p : path) : option node :=
  match lookup t p with
  | Some (Dir []) => Some (remove_at t p)
  | _ => None
  end.

(** [os.walk(top)]: for every directory, its location, the names of its
    sub-directories and its regular files; a directory comes before the
    directories below it.  A [top] that is no directory yields nothing. *)
Fixpoint walk (root : path) (t : node) : list (path * list str * list (str * file)) :=
  match t with
  | File _ => []
  | Dir ents =>
      (root, dir_names ents, file_ents ents)
        :: (fix below (l : entries) :=
              match l with
              | [] => []
              | (n, c) :: l' => walk (root ++ [n]) c ++ below l'
              end) ents
  end.

(** [os.walk(top, topdown=False)]: a directory comes after the
    directories below it; its listing is the one taken on the way down. *)
Fixpoint walk_up (root : path) (t : node) : list (path * list str) :=
  match t with
  | File _ => []
  | Dir ents =>
      (fix below (l : entries) :=
         match l with
         | [] => []
         | (n, c) :: l' => walk_up (root ++ [n]) c ++ below l'
         end) ents
        ++ [(root, dir_names ents)]
  end.

Definition walk_from (fs : node) (top : path) : list (path * list str * list (str * file)) :=
  match lookup fs top with
  | Some t => walk top t
  | None => []
  end.

Definition walk_up_from (fs : node) (top : path) : list (path * list str) :=
  match lookup fs top with
  | Some t => walk_up top t
  | None => []
  end.

(** Every directory lists a name once. *)
Fixpoint names_unique (l : list str) : bool :=
  match l with
  | [] => true
  | n :: l' => negb (existsb (str_eqb n) l') && names_unique l'
  end.

Fixpoint wf (t : node) : bool :=
  match t with
  | File _ => true
  | Dir ents =>
      names_unique (map fst ents)
      && (fix all (l : entries) :=
            match l with
            | [] => true
            | (_, c) :: l' => wf c && all l'
            end) ents
  end.

(** ** Messages and results *)

(** One constructor for each message handed to [log_fn]. *)
Inductive event :=
| EvScanning (source_dir : str)
| EvProgress (count : Z)
| EvScanDone (count : Z)
| EvSaved (output_json : str)
| EvMissingMap (mapping_json : str)
| EvIndexing (target_dir : str)
| EvMatching
| EvPreviewNotice
| EvMove (preview : bool) (name : str) (rel_path : str)
| EvCleaning
| EvSyncDone (moved_count : Z).

(** A call either returns or ends in an exception nobody catches. *)
Inductive status := Returned | Raised.

Record outcome := mkOutcome {
  o_status : status;
  o_fs : node;
  o_log : list event
}.

(** ** [scan_source] *)

Definition startswith_dot (name : str) : bool :=
  match name with
  | 46 :: _ => true
  | _ => false
  end.

(** [str.lower].  Of the Unicode table the model keeps what can produce
    an ASCII letter: the letters [A]-[Z], the Kelvin sign and the dotted
    capital I; other code points are left as they are, and none of them
    lowers to an ASCII character. *)
Definition lower_char (c : char) : str :=
  if (65 <=? c) && (c <=? 90) then [c + 32]
  else if c =? 8490 then [107]
  else if c =? 304 then [105; 775]
  else [c].

Definition py_lower (s : str) : str := flat_map lower_char s.

Definition excluded (name : str) : bool :=
  startswith_dot name || str_eqb (py_lower name) (lit "thumbs.db").

Record scan_state := mkScan {
  sc_mapping : dict str;
  sc_count : Z;
  sc_log : list event
}.

(** The body of [for file in files]. *)
Definition scan_file (progress_every : Z) (root : path) (st : scan_state)
           (e : str * file) : scan_state :=
  let '(name, f) := e in
  if excluded name then st
  else
    let rel_path := join_names (root ++ [name]) in
    match get_fast_md5 f with
    | Some f_hash =>
        let count := sc_count st + 1 in
        mkScan (dict_set (sc_mapping st) f_hash rel_path) count
               (if negb (progress_every =? 0)
                   && (count mod progress_every =? 0)
                then sc_log st ++ [EvProgress count] else sc_log st)
    | None => st
    end.

(** The two loops over [os.walk(source_dir)]; locations are taken below
    [source_dir], as [os.path.relpath] returns them. *)
Definition scan_loop (progress_every : Z) (src : option node) (st : scan_state)
  : scan_state :=
  fold_left
    (fun st item =>
       let '(root, _, files) := item in
       fold_left (scan_file progress_every root) files st)
    (match src with Some t => walk [] t | None => [] end)
    st.

(** [open(output_json, 'w')] needs the directory of the file, and no
    directory in the place of the file. *)
Definition can_create (fs : node) (p : path) : bool :=
  match p, lookup fs (dirname p), lookup fs p with
  | _ :: _, Some (Dir _), Some (Dir _) => false
  | _ :: _, Some (Dir _), _ => true
  | _, _, _ => false
  end.

Definition scan_source (fs : node) (source_dir output_json : str)
           (progress_every : Z) : outcome :=
  let st0 := mkScan [] 0 [EvScanning source_dir] in
  let st := scan_loop progress_every (lookup fs (resolve source_dir)) st0 in
  let out := resolve output_json in
  if can_create fs out then
    let '(content, ok) := save_mapping (sc_mapping st) in
    let fs' := put_at fs out (File (mkFile true content)) in
    if ok then
      mkOutcome Returned fs'
                (sc_log st ++ [EvScanDone (sc_count st); EvSaved output_json])
    else mkOutcome Raised fs' (sc_log st)
  else mkOutcome Raised fs (sc_log st).

(** ** [sync_target] *)

(** The body of [for file in files] of the indexing loop. *)
Definition index_file (root : path) (idx : dict path) (e : str * file)
  : dict path :=
  let '(name, f) := e in
  let full_path := root ++ [name] in
  match get_fast_md5 f with
  | Some f_hash => dict_set idx f_hash full_path
  | None => idx
  end.

Definition build_index (fs : node) (target : path) : dict path :=
  fold_left
    (fun idx item =>
       let '(root, _, files) := item in
       fold_left (index_file root) files idx)
    (walk_from fs target)
    [].

(** The loop over [mapping.items()]: the state of the tree when it ends,
    the messages in order and [moved_count].  [new_path] and its
    directory are taken as lists of names, which is what
    [os.path.join] and [os.path.dirname] give for a target and a
    [rel_path] in normal form ([normal]); a [rel_path] that ends in a
    separator, is absolute or holds [..] is outside the model. *)
Fixpoint move_loop (dry_run : bool) (target : path) (idx : dict path)
         (items : dict str) (fs : node) : status * node * list event * Z :=
  match items with
  | [] => (Returned, fs, [], 0)
  | (f_hash, rel_path) :: rest =>
      match dict_get idx f_hash with
      | None => move_loop dry_run target idx rest fs
      | Some old_path =>
          let new_path := target ++ resolve rel_path in
          if path_eqb old_path new_path then
            move_loop dry_run target idx rest fs
          else
            let ev := EvMove dry_run (basename old_path) rel_path in
            if dry_run then
              let '(st, fs', evs, n) := move_loop dry_run target idx rest fs in
              (st, fs', ev :: evs, 1 + n)
            else
              match makedirs fs (dirname new_path) with
              | None => (Raised, fs, [], 0)
              | Some fs1 =>
                  match shutil_move fs1 old_path new_path with
                  | None => (Raised, fs1, [], 0)
                  | Some fs2 =>
                      let '(st, fs', evs, n) :=
                        move_loop dry_run target idx rest fs2 in
                      (st, fs', ev :: evs, 1 + n)
                  end
              end
      end
  end.

(** The body of [for d in dirs] of the clean-up. *)
Definition cleanup_dir (root : path) (st : option node) (d : str) : option node :=
  match st with
  | None => None
  | Some fs =>
      let dir_path := root ++ [d] in
      match listdir fs dir_path with
      | None => None
      | Some [] => rmdir fs dir_path
      | Some (_ :: _) => Some fs
      end
  end.

(** The clean-up loops.  The walk lists a directory before anything
    below it is touched, so its items are those of the tree the loop
    starts from. *)
Definition cleanup (fs : node) (target : path) : option node :=
  fold_left
    (fun st item => let '(root, dirs) := item in fold_left (cleanup_dir root) dirs st)
    (walk_up_from fs target)
    (Some fs).

(** What [sync_target] does once the mapping is loaded. *)
Definition reconcile (fs : node) (target_dir : str) (mapping : dict str)
           (dry_run : bool) : outcome :=
  let target := resolve target_dir in
  let head :=
    [EvIndexing target_dir; EvMatching]
      ++ (if dry_run then [EvPreviewNotice] else []) in
  let target_index := build_index fs target in
  let '(st, fs1, moves, moved_count) :=
    move_loop dry_run target target_index mapping fs in
  match st with
  | Raised => mkOutcome Raised fs1 (head ++ moves)
  | Returned =>
      if dry_run then
        mkOutcome Returned fs1 (head ++ moves ++ [EvSyncDone moved_count])
      else
        match cleanup fs1 target with
        | None => mkOutcome Raised fs1 (head ++ moves ++ [EvCleaning])
        | Some fs2 =>
            mkOutcome Returned fs2
              (head ++ moves ++ [EvCleaning; EvSyncDone moved_count])
        end
  end.

Definition sync_target (fs : node) (target_dir mapping_json : str)
           (dry_run : bool) : outcome :=
  match lookup fs (resolve mapping_json) with
  | None => mkOutcome Returned fs [EvMissingMap mapping_json]
  | Some (Dir _) => mkOutcome Raised fs []
  | Some (File mf) =>
      match (if f_readable mf then load_mapping (f_data mf) else None) with
      | None => mkOutcome Raised fs []
      | Some mapping => reconcile fs target_dir mapping dry_run
      end
  end.

(** ** [main] *)

Inductive mode := Scan | Sync.








(** ** Specification-level definitions

    These follow the wording of the specification; Part II compares them
    with the program. *)

Definition MiB : Z := 1048576.

(** The message whose digest is the fingerprint: the whole content up to
    [3 MiB]; above, the first [MiB], the [MiB] read at offset [size / 2],
    the [MiB] read at offset [size - MiB], and the decimal numeral of the
    size. *)
Definition fingerprint_message (data : bytes) : bytes :=
  let size := Z.of_nat (List.length data) in
  if size <=? 3 * MiB then data
  else slice data 0 MiB ++ slice data (size / 2) MiB
         ++ slice data (size - MiB) MiB ++ ascii_encode (py_str_int size).

(** Text that UTF-8 can carry: code points in range that are no
    surrogates. *)
Definition scalar (c : char) : bool :=
  (0 <=? c) && (c <? 1114112) && negb (Utf8.is_surrogate c).

Definition text_ok (s : str) : bool := forallb scalar s.

Definition mapping_ok (m : dict str) : bool :=
  forallb (fun e => text_ok (fst e) && text_ok (snd e)) m.

(** The invariant of a dictionary: a key stands once. *)
Definition dict_ok {V} (d : dict V) : bool := names_unique (keys d).

(** The regular files [os.walk] comes across, each with its location,
    in the order of the walk. *)
Definition walk_files (root : path) (t : node) : list (path * file) :=
  flat_map (fun item =>
              map (fun e => (fst (fst item) ++ [fst e], snd e)) (snd item))
           (walk root t).

(** The tree without the regular files whose name [scan_source] skips. *)
Fixpoint strip_excluded (t : node) : node :=
  match t with
  | File f => File f
  | Dir ents =>
      Dir ((fix strip (l : entries) : entries :=
              match l with
              | [] => []
              | (n, c) :: l' =>
                  match c with
                  | File _ =>
                      if excluded n then strip l' else (n, c) :: strip l'
                  | Dir _ => (n, strip_excluded c) :: strip l'
                  end
              end) ents)
  end.

(** The mapping [scan_source] builds for the tree [t]. *)
Definition scan_mapping (t : node) : dict str :=
  sc_mapping (scan_loop 10 (Some t) (mkScan [] 0 [])).

(** The moves a run reports: for each, the name of the file and the
    path of the mapping it goes to. *)
Definition moves (log : list event) : list (str * str) :=
  flat_map (fun ev =>
              match ev with
              | EvMove _ name rel_path => [(name, rel_path)]
              | _ => []
              end) log.

(** The regular file a path leads to, if it leads to one. *)
Definition lookup_file (t : node) (p : path) : option file :=
  match lookup t p with
  | Some (File f) => Some f
  | _ => None
  end.

(** What stands at a path: nothing, a directory, or a regular file with
    its content. *)
Definition view (o : option node) : option (option file) :=
  match o with
  | None => None
  | Some (Dir _) => Some None
  | Some (File f) => Some (Some f)
  end.

(** A node with nothing below it: a regular file or an empty directory. *)
Definition leaf (x : node) : bool :=
  match x with
  | File _ => true
  | Dir [] => true
  | Dir (_ :: _) => false
  end.

(** [q] lies below the directory [top]. *)
Definition under (top q : path) : Prop := exists r, r <> [] /\ q = top ++ r.

(** The same, as a test. *)
Fixpoint below (top q : path) : bool :=
  match top, q with
  | [], _ :: _ => true
  | a :: top', b :: q' => str_eqb a b && below top' q'
  | _, _ => false
  end.

(** The fingerprints of the files [os.walk(top)] meets, in its order. *)
Definition fingerprints (fs : node) (top : path) : list str :=
  flat_map (fun e => match get_fast_md5 (snd e) with
                     | Some h => [h]
                     | None => []
                     end)
           (match lookup fs top with
            | Some t => walk_files top t
            | None => []
            end).

(** No two files below [top] have the same fingerprint. *)
Definition distinct_fingerprints (fs : node) (top : path) : bool :=
  names_unique (fingerprints fs top).

(** The same, said of the paths: two files below [top] with the same
    fingerprint are one file. *)
Definition distinct_below (fs : node) (top : path) : Prop :=
  forall q1 q2 f1 f2 h,
    under top q1 -> under top q2 ->
    lookup_file fs q1 = Some f1 -> lookup_file fs q2 = Some f2 ->
    get_fast_md5 f1 = Some h -> get_fast_md5 f2 = Some h ->
    q1 = q2.

(** The tree with the sub-tree at [p] replaced by [x]. *)
Fixpoint graft (t : node) (p : path) (x : node) : node :=
  match p with
  | [] => x
  | n :: p' =>
      match t with
      | Dir ents => Dir (ents_alter ents n (fun c => graft c p' x))
      | File _ => t
      end
  end.

(** Removing the empty directories deepest first: a directory goes when,
    once the directories below it are done, nothing is left in it. *)
Fixpoint prune (t : node) : node :=
  match t with
  | File f => File f
  | Dir ents =>
      Dir ((fix go (l : entries) : entries :=
              match l with
              | [] => []
              | (n, c) :: l' =>
                  match prune c with
                  | Dir [] => go l'
                  | c' => (n, c') :: go l'
                  end
              end) ents)
  end.

(** Every move of a run that changes the tree finds nothing at its
    destination: no file to replace, no directory to move into. *)
Fixpoint unobstructed (target : path) (idx : dict path) (items : dict str)
         (fs : node) : bool :=
  match items with
  | [] => true
  | (f_hash, rel_path) :: rest =>
      match dict_get idx f_hash with
      | None => unobstructed target idx rest fs
      | Some old_path =>
          let new_path := target ++ resolve rel_path in
          if path_eqb old_path new_path then unobstructed target idx rest fs
          else
            match makedirs fs (dirname new_path) with
            | None => true
            | Some fs1 =>
                match lookup fs1 new_path with
                | Some _ => false
                | None =>
                    match shutil_move fs1 old_path new_path with
                    | None => true
                    | Some fs2 => unobstructed target idx rest fs2
                    end
                end
            end
      end
  end.

(** ** [gui.py]

    The window of [gui.py] as the values its methods read and write: the
    texts of the fields, the check box, and for every widget whether it
    is enabled.  The worker runs in a thread of its own; its signals
    reach the window in the order in which they were emitted, and the
    model delivers them in that order. *)

(** [str.isspace] on one character: the characters [str.strip()] takes
    off both ends of a string. *)
Definition isspace (c : char) : bool :=
  ((9 <=? c) && (c <=? 13)) || ((28 <=? c) && (c <=? 32))
  || (c =? 133) || (c =? 160) || (c =? 5760)
  || ((8192 <=? c) && (c <=? 8202))
  || (c =? 8232) || (c =? 8233) || (c =? 8239) || (c =? 8287)
  || (c =? 12288).

Fixpoint lstrip (s : str) : str :=
  match s with
  | [] => []
  | c :: s' => if isspace c then lstrip s' else s
  end.

Definition strip (s : str) : str := rev (lstrip (rev (lstrip s))).

(** [not s] for a string. *)
Definition is_empty (s : str) : bool :=
  match s with
  | [] => true
  | _ :: _ => false
  end.

(** [os.path.isdir] and [os.path.isfile]; the empty path names
    nothing. *)
Definition isdir (fs : node) (s : str) : bool :=
  match s with
  | [] => false
  | _ :: _ =>
      match lookup fs (resolve s) with
      | Some (Dir _) => true
      | _ => false
      end
  end.

Definition isfile (fs : node) (s : str) : bool :=
  match s with
  | [] => false
  | _ :: _ =>
      match lookup fs (resolve s) with
      | Some (File _) => true
      | _ => false
      end
  end.

(** The two texts of the start button. *)
Inductive caption := CapStart | CapRunning.

Record window := mkWindow {
  w_mode : str;
  w_src : str;
  w_dst : str;
  w_map : str;
  w_dry_run : bool;
  en_run : bool;
  en_mode : bool;
  en_src_edit : bool;
  en_src_btn : bool;
  en_dst_edit : bool;
  en_dst_btn : bool;
  en_map_edit : bool;
  en_map_btn : bool;
  en_dry_run : bool;
  run_caption : caption
}.

(** [MainWindow._on_mode_changed]. *)
Definition on_mode_changed (mode : str) (w : window) : window :=
  let is_scan := str_eqb mode (lit "scan") in
  mkWindow (w_mode w) (w_src w) (w_dst w)
           (if is_scan && is_empty (strip (w_map w))
            then lit "file_map.json" else w_map w)
           (w_dry_run w)
           (en_run w) (en_mode w)
           is_scan is_scan
           (negb is_scan) (negb is_scan)
           (en_map_edit w) (en_map_btn w)
           (negb is_scan)
           (run_caption w).

(** Choosing an item of the combo box: the signal [currentTextChanged]
    calls [_on_mode_changed] with the new text. *)
Definition select_mode (mode : str) (w : window) : window :=
  on_mode_changed mode
    (mkWindow mode (w_src w) (w_dst w) (w_map w) (w_dry_run w)
              (en_run w) (en_mode w) (en_src_edit w) (en_src_btn w)
              (en_dst_edit w) (en_dst_btn w) (en_map_edit w) (en_map_btn w)
              (en_dry_run w) (run_caption w)).

(** The window when [MainWindow.__init__] returns. *)
Definition new_window : window :=
  on_mode_changed (lit "scan")
    (mkWindow (lit "scan") [] [] (lit "file_map.json") false
              true true true true true true true true true CapStart).

(** [MainWindow._set_running]. *)
Definition set_running (running : bool) (w : window) : window :=
  let scan := str_eqb (w_mode w) (lit "scan") in
  let sync := str_eqb (w_mode w) (lit "sync") in
  mkWindow (w_mode w) (w_src w) (w_dst w) (w_map w) (w_dry_run w)
           (negb running) (negb running)
           (negb running && scan) (negb running && scan)
           (negb running && sync) (negb running && sync)
           (negb running) (negb running)
           (negb running && sync)
           (if running then CapRunning else CapStart).

(** The warnings of [MainWindow._validate_inputs], one constructor for
    each message. *)
Inductive warning :=
| NoMapPath | NoSrcDir | SrcDirMissing | NoDstDir | DstDirMissing | MapFileMissing.

(** [MainWindow._validate_inputs]: a warning, or the mode and the three
    paths. *)
Definition validate_inputs (w : window) (fs : node)
  : warning + (str * str * str * str) :=
  let mode := w_mode w in
  let src_dir := strip (w_src w) in
  let dst_dir := strip (w_dst w) in
  let map_path := strip (w_map w) in
  if is_empty map_path then inl NoMapPath
  else if str_eqb mode (lit "scan") then
    if is_empty src_dir then inl NoSrcDir
    else if negb (isdir fs src_dir) then inl SrcDirMissing
    else inr (mode, src_dir, dst_dir, map_path)
  else
    if is_empty dst_dir then inl NoDstDir
    else if negb (isdir fs dst_dir) then inl DstDirMissing
    else if negb (isfile fs map_path) then inl MapFileMissing
    else inr (mode, src_dir, dst_dir, map_path).

(** What the log view shows: the messages of the operation, and the
    line [Worker.run] adds for an exception. *)
Inductive line := Line (e : event) | ErrorLine.

(** [Worker.run]: the tree it leaves, the lines it emits through [log]
    and the value it emits through [finished]. *)
Definition worker_run (mode src_dir dst_dir map_path : str) (dry_run : bool)
           (fs : node) : node * list line * bool :=
  let o :=
    if str_eqb mode (lit "scan") then scan_source fs src_dir map_path 10
    else sync_target fs dst_dir map_path dry_run in
  match o_status o with
  | Returned => (o_fs o, map Line (o_log o), true)
  | Raised => (o_fs o, map Line (o_log o) ++ [ErrorLine], false)
  end.

(** The message boxes. *)
Inductive box := Warn (w : warning) | Done | NotDone.

Record session := mkSession {
  s_window : window;
  s_fs : node;
  s_log : list line;
  s_boxes : list box
}.

(** [MainWindow._start], up to the moment [_on_finished] has returned:
    [shown] is what the log view holds when the button is pressed. *)
Definition start (w : window) (fs : node) (shown : list line) : session :=
  match validate_inputs w fs with
  | inl warn => mkSession w fs shown [Warn warn]
  | inr (mode, src_dir, dst_dir, map_path) =>
      let '(fs', lines, ok) :=
        worker_run mode src_dir dst_dir map_path (w_dry_run w) fs in
      mkSession (set_running false (set_running true w)) fs' lines
                [if ok then Done else NotDone]
  end.

(** ** Further specification-level definitions *)

(** A lower-case hexadecimal digit. *)
Definition is_hex (c : char) : bool :=
  ((48 <=? c) && (c <=? 57)) || ((97 <=? c) && (c <=? 102)).

Definition has_fingerprint (f : file) : bool :=
  match get_fast_md5 f with
  | Some _ => true
  | None => false
  end.

(** The files [scan_source] counts, in the order of the walk: those
    whose name is not skipped and whose fingerprint can be computed. *)
Definition counted (t : node) : list (path * file) :=
  filter (fun e => negb (excluded (basename (fst e))) && has_fingerprint (snd e))
         (walk_files [] t).

(** The counts from [1] to [n] at which [scan_source] reports its
    progress. *)
Definition progress_counts (progress_every : Z) (n : nat) : list Z :=
  if progress_every =? 0 then []
  else filter (fun k => k mod progress_every =? 0) (map Z.of_nat (seq 1 n)).

(** A name a directory can hold: not empty, not [.], no separator. *)
Definition valid_name (n : str) : bool :=
  negb (skipped_name n) && forallb (fun c => negb (c =? sep)) n.

(** A name that can stand in a path: a valid name other than [..]. *)
Definition proper_name (n : str) : bool :=
  valid_name n && negb (str_eqb n (lit "..")).

(** A relative path in normal form, as [os.path.relpath] returns it and
    as [os.walk] builds it below such a top: names other than [.] and
    [..] with one separator between two of them and none at either end.
    The empty string is no such path.  On these paths [resolve] is what
    the operating system does, and [os.path.join], [os.path.dirname] and
    [os.path.abspath] are the operations on lists of names that
    [move_loop] uses. *)
Definition normal (s : str) : bool := forallb proper_name (split_sep s).

Definition normal_mapping (m : dict str) : bool :=
  forallb (fun e => normal (snd e)) m.

(** Every name in the tree is text that UTF-8 can carry. *)
Fixpoint names_ok (t : node) : bool :=
  match t with
  | File _ => true
  | Dir ents =>
      (fix all (l : entries) : bool :=
         match l with
         | [] => true
         | (n, c) :: l' => text_ok n && names_ok c && all l'
         end) ents
  end.

(** The number of move messages in a log. *)
Definition move_messages (log : list event) : Z :=
  Z.of_nat (List.length (moves log)).

(* ================================================================= *)
(** * Part II: properties *)
(* ================================================================= *)

Example md5_empty :
  MD5.hexdigest [] = lit "d41d8cd98f00b204e9800998ecf8427e".
Proof. vm_compute. reflexivity. Qed.

Example md5_abc :
  MD5.hexdigest (lit "abc") = lit "900150983cd24fb0d6963f7d28e17f72".
Proof. vm_compute. reflexivity. Qed.

Example md5_56 :
  MD5.hexdigest (repeat 120 56) = lit "668a72d5ba17f08e62dabcafad6db14b".
Proof. vm_compute. reflexivity. Qed.

Example md5_64 :
  MD5.hexdigest (repeat 121 64) = lit "b0c4864f4e28d2d76929c38d87db7ed5".
Proof. vm_compute. reflexivity. Qed.

Example load_two :
  load_mapping (fst (save_mapping [(lit "ab", [233; 10; 34; 1; 128512]); (lit "cd", lit "b/y.txt")]))
  = Some [(lit "ab", [233; 10; 34; 1; 128512]); (lit "cd", lit "b/y.txt")].
Proof. vm_compute. reflexivity. Qed.

(** ** The fingerprint *)

Section SamplingFacts.

Variable S : Z.

Lemma hash_body_small (data : bytes) (size : Z) :
  (size <=? S * 3) = true ->
  io_md (snd (hash_body S size (mkIo data 0 MD5.new))) = data.
Proof.
  intros Hle. unfold hash_body. rewrite Hle.
  reflexivity.
Qed.

Lemma hash_body_large (data : bytes) (size : Z) :
  (size <=? S * 3) = false ->
  io_md (snd (hash_body S size (mkIo data 0 MD5.new)))
  = slice data 0 S ++ slice data (size / 2) S
      ++ slice data (size - S) S ++ ascii_encode (py_str_int size).
Proof.
  intros Hgt. unfold hash_body. rewrite Hgt.
  unfold bind, f_read, f_seek, md_update, MD5.update, MD5.new. cbn [io_md io_data io_pos snd app].
  now rewrite <- !app_assoc.
Qed.

Lemma sampled_md5_readable (f : file) :
  f_readable f = true ->
  sampled_md5 S f
  = Some (MD5.hexdigest
            (io_md (snd (hash_body S (getsize f) (mkIo (f_data f) 0 MD5.new))))).
Proof.
  intros Hr. unfold sampled_md5. rewrite Hr.
  destruct (hash_body S (getsize f) _) as [u s]. reflexivity.
Qed.

End SamplingFacts.

Lemma slice_length (data : bytes) (pos n : Z) :
  0 <= pos -> 0 <= n -> pos + n <= Z.of_nat (List.length data) ->
  Z.of_nat (List.length (slice data pos n)) = n.
Proof.
  intros Hp Hn Hb. unfold slice.
  rewrite length_firstn, length_skipn. lia.
Qed.

(** The three windows of a file above [3 MiB] are full: each holds
    exactly [MiB] bytes. *)
Lemma windows_full (data : bytes) :
  let size := Z.of_nat (List.length data) in
  3 * MiB < size ->
  Z.of_nat (List.length (slice data 0 MiB)) = MiB
  /\ Z.of_nat (List.length (slice data (size / 2) MiB)) = MiB
  /\ Z.of_nat (List.length (slice data (size - MiB) MiB)) = MiB.
Proof.
  intros size Hs. unfold MiB in *.
  assert (0 <= size / 2 /\ size / 2 + 1048576 <= size).
  { pose proof (Z.div_mod size 2 ltac:(lia)).
    pose proof (Z.mod_pos_bound size 2 ltac:(lia)). lia. }
  repeat split; apply slice_length; subst size; lia.
Qed.

(** C1: for a file that can be read, [get_fast_md5] returns the digest of
    the whole content when the size is at most [3 MiB], and otherwise the
    digest of the first [MiB], the [MiB] at offset [size / 2], the [MiB]
    at offset [size - MiB] and the decimal numeral of the size, in that
    order. *)
Theorem get_fast_md5_spec (f : file) :
  f_readable f = true ->
  get_fast_md5 f = Some (MD5.hexdigest (fingerprint_message (f_data f))).
Proof.
  intros Hr. unfold get_fast_md5. rewrite (sampled_md5_readable _ _ Hr).
  f_equal. f_equal. unfold fingerprint_message, getsize.
  change sample_size with MiB.
  set (size := Z.of_nat (List.length (f_data f))).
  destruct (size <=? 3 * MiB) eqn:Hle.
  - apply hash_body_small. rewrite Z.mul_comm. exact Hle.
  - apply hash_body_large. rewrite Z.mul_comm. exact Hle.
Qed.

Lemma get_fast_md5_spec_witness :
  f_readable (mkFile true (lit "hello")) = true
  /\ get_fast_md5 (mkFile true (lit "hello"))
     = Some (lit "5d41402abc4b2a76b9719d911017c592").
Proof.
  split; [reflexivity|].
  rewrite (get_fast_md5_spec (mkFile true (lit "hello")) eq_refl).
  vm_compute. reflexivity.
Defined.

(** The sampling branch at a small scale: with windows of four bytes a
    file of thirteen bytes is read at offsets 0, 6 and 9. *)
Example sampled_md5_windows :
  sampled_md5 4 (mkFile true (lit "abcdefghijklm"))
  = Some (MD5.hexdigest (lit "abcdghijjklm13")).
Proof. vm_compute. reflexivity. Qed.

(** A file that cannot be opened has no fingerprint. *)
Lemma get_fast_md5_unreadable (f : file) :
  f_readable f = false -> get_fast_md5 f = None.
Proof. intros Hr. unfold get_fast_md5, sampled_md5. now rewrite Hr. Qed.

(** A fingerprint is never the empty string, so [if f_hash:] only tells
    a fingerprint from [None]. *)
Lemma get_fast_md5_nonempty (f : file) (h : str) :
  get_fast_md5 f = Some h -> h <> [].
Proof.
  unfold get_fast_md5, sampled_md5. destruct (f_readable f); [|discriminate].
  destruct (hash_body _ _ _) as [u s]. intros [= <-].
  unfold MD5.hexdigest, MD5.digest. cbn [MD5.le_bytes app MD5.hex flat_map].
  discriminate.
Qed.

(** C8, as the program has it: the fingerprint of a zero-byte file is the
    digest of the empty message; nothing is appended to it, and the call
    returns. *)
Theorem zero_byte_fingerprint :
  get_fast_md5 (mkFile true [])
  = Some (lit "d41d8cd98f00b204e9800998ecf8427e")
  /\ MD5.hexdigest [] = lit "d41d8cd98f00b204e9800998ecf8427e".
Proof. split; vm_compute; reflexivity. Qed.

(** C8 as stated fails: the digest of the empty content followed by the
    numeral of the size is another string. *)
Lemma zero_byte_no_size_suffix :
  get_fast_md5 (mkFile true [])
  <> Some (MD5.hexdigest ([] ++ ascii_encode (py_str_int 0))).
Proof. vm_compute. discriminate. Qed.

(** ** A missing mapping file *)



(** ** Exit codes *)






(** ** Strings *)

Lemma str_eqb_eq (a b : str) : str_eqb a b = true <-> a = b.
Proof.
  revert b. induction a as [|x a IH]; intros [|y b]; cbn; split;
    try discriminate; try reflexivity.
  - intros H. apply andb_true_iff in H as [Hx Ha].
    apply Z.eqb_eq in Hx. apply IH in Ha. now subst.
  - intros [= -> ->]. apply andb_true_iff. split.
    + apply Z.eqb_refl.
    + now apply IH.
Qed.

Lemma str_eqb_refl (a : str) : str_eqb a a = true.
Proof. now apply str_eqb_eq. Qed.

Lemma str_eqb_neq (a b : str) : str_eqb a b = false <-> a <> b.
Proof.
  split.
  - intros H E. apply str_eqb_eq in E. congruence.
  - intros H. destruct (str_eqb a b) eqn:E; [|reflexivity].
    apply str_eqb_eq in E. contradiction.
Qed.

Lemma str_eqb_sym (a b : str) : str_eqb a b = str_eqb b a.
Proof.
  destruct (str_eqb a b) eqn:E.
  - apply str_eqb_eq in E. subst. symmetry. apply str_eqb_refl.
  - symmetry. apply str_eqb_neq. apply str_eqb_neq in E. congruence.
Qed.

Lemma path_eqb_eq (p q : path) : path_eqb p q = true <-> p = q.
Proof.
  revert q. induction p as [|a p IH]; intros [|b q]; cbn; split;
    try discriminate; try reflexivity.
  - intros H. apply andb_true_iff in H as [Ha Hp].
    apply str_eqb_eq in Ha. apply IH in Hp. now subst.
  - intros [= -> ->]. apply andb_true_iff. split.
    + apply str_eqb_refl.
    + now apply IH.
Qed.

Lemma path_eqb_refl (p : path) : path_eqb p p = true.
Proof. now apply path_eqb_eq. Qed.

(** ** UTF-8 *)

Ltac zdec :=
  match goal with
  | |- context [?a <=? ?b] =>
      first [ rewrite (proj2 (Z.leb_le a b)) by lia
            | rewrite (proj2 (Z.leb_gt a b)) by lia ]
  | |- context [?a <? ?b] =>
      first [ rewrite (proj2 (Z.ltb_lt a b)) by lia
            | rewrite (proj2 (Z.ltb_ge a b)) by lia ]
  | |- context [?a =? ?b] =>
      first [ rewrite (proj2 (Z.eqb_eq a b)) by lia
            | rewrite (proj2 (Z.eqb_neq a b)) by lia ]
  end; cbn [andb negb orb].

Lemma decode1 (b0 : byte) (l : bytes) :
  0 <= b0 < 128 -> Utf8.decode (b0 :: l) = Utf8.cons_opt b0 (Utf8.decode l).
Proof. intros H. cbn [Utf8.decode]. repeat zdec. reflexivity. Qed.

Lemma decode2 (q r : Z) (l : bytes) :
  0 <= q < 32 -> 0 <= r < 64 -> 128 <= 64 * q + r ->
  Utf8.decode (192 + q :: 128 + r :: l)
  = Utf8.cons_opt (64 * q + r) (Utf8.decode l).
Proof.
  intros Hq Hr Hc. cbn [Utf8.decode]. unfold Utf8.is_cont.
  replace ((192 + q - 192) * 64 + (128 + r - 128)) with (64 * q + r) by lia.
  repeat zdec. reflexivity.
Qed.

Lemma decode3 (q r1 r0 : Z) (l : bytes) :
  0 <= q < 16 -> 0 <= r1 < 64 -> 0 <= r0 < 64 ->
  2048 <= 4096 * q + 64 * r1 + r0 ->
  Utf8.is_surrogate (4096 * q + 64 * r1 + r0) = false ->
  Utf8.decode (224 + q :: 128 + r1 :: 128 + r0 :: l)
  = Utf8.cons_opt (4096 * q + 64 * r1 + r0) (Utf8.decode l).
Proof.
  intros Hq H1 H0 Hc Hs. cbn [Utf8.decode]. unfold Utf8.is_cont.
  replace ((224 + q - 224) * 4096 + (128 + r1 - 128) * 64 + (128 + r0 - 128))
    with (4096 * q + 64 * r1 + r0) by lia.
  rewrite Hs.
  repeat zdec. reflexivity.
Qed.

Lemma decode4 (q r2 r1 r0 : Z) (l : bytes) :
  0 <= q < 8 -> 0 <= r2 < 64 -> 0 <= r1 < 64 -> 0 <= r0 < 64 ->
  65536 <= 262144 * q + 4096 * r2 + 64 * r1 + r0 < 1114112 ->
  Utf8.decode (240 + q :: 128 + r2 :: 128 + r1 :: 128 + r0 :: l)
  = Utf8.cons_opt (262144 * q + 4096 * r2 + 64 * r1 + r0) (Utf8.decode l).
Proof.
  intros Hq H2 H1 H0 Hc. cbn [Utf8.decode]. unfold Utf8.is_cont.
  replace ((240 + q - 240) * 262144 + (128 + r2 - 128) * 4096
           + (128 + r1 - 128) * 64 + (128 + r0 - 128))
    with (262144 * q + 4096 * r2 + 64 * r1 + r0) by lia.
  repeat zdec. reflexivity.
Qed.

Lemma div64 (c : Z) :
  exists q r, c / 64 = q /\ c mod 64 = r /\ c = 64 * q + r /\ 0 <= r < 64.
Proof.
  exists (c / 64), (c mod 64). repeat split.
  - apply Z.div_mod. lia.
  - apply Z.mod_pos_bound. lia.
  - apply Z.mod_pos_bound. lia.
Qed.

Lemma Some_inj {A} (a b : A) : Some a = Some b -> a = b.
Proof. congruence. Qed.

Lemma decode_encode_char (c : char) (b rest : bytes) :
  Utf8.encode_char c = Some b ->
  Utf8.decode (b ++ rest) = Utf8.cons_opt c (Utf8.decode rest).
Proof.
  unfold Utf8.encode_char.
  replace (c / 262144) with (c / 64 / 64 / 64)
    by (rewrite !Z.div_div by lia; reflexivity).
  replace (c / 4096) with (c / 64 / 64)
    by (rewrite !Z.div_div by lia; reflexivity).
  destruct (div64 c) as (q1 & r0 & -> & -> & Ec & B0).
  destruct (div64 q1) as (q2 & r1 & -> & -> & E1 & B1).
  destruct (div64 q2) as (q3 & r2 & -> & -> & E2 & B2).
  destruct (Z.ltb_spec c 0); [discriminate|].
  destruct (Z.ltb_spec c 128).
  { intros Hb. apply Some_inj in Hb. subst b. apply decode1. lia. }
  destruct (Z.ltb_spec c 2048).
  { intros Hb. apply Some_inj in Hb. subst b. cbn [app].
    rewrite decode2 by lia. now rewrite <- Ec. }
  destruct (Z.ltb_spec c 65536).
  { destruct (Utf8.is_surrogate c) eqn:Hs; [discriminate|].
    intros Hb. apply Some_inj in Hb. subst b. cbn [app].
    replace c with (4096 * q2 + 64 * r1 + r0) in * by lia.
    rewrite decode3; try lia; [reflexivity|exact Hs]. }
  destruct (Z.ltb_spec c 1114112); [|discriminate].
  intros Hb. apply Some_inj in Hb. subst b. cbn [app].
  replace c with (262144 * q3 + 4096 * r2 + 64 * r1 + r0) in * by lia.
  rewrite decode4; try lia. reflexivity.
Qed.

Lemma decode_encode (s : str) (b : bytes) :
  Utf8.encode s = Some b -> Utf8.decode b = Some s.
Proof.
  revert b. induction s as [|c s IH]; intros b; cbn [Utf8.encode].
  - intros [= <-]. reflexivity.
  - destruct (Utf8.encode_char c) as [bc|] eqn:Hc; [|discriminate].
    destruct (Utf8.encode s) as [bs|]; [|discriminate].
    intros [= <-]. rewrite (decode_encode_char _ _ _ Hc), (IH bs eq_refl).
    reflexivity.
Qed.

Lemma encode_char_scalar (c : char) :
  scalar c = true -> exists b, Utf8.encode_char c = Some b.
Proof.
  unfold scalar, Utf8.encode_char. intros H.
  apply andb_true_iff in H as [H Hs]. apply andb_true_iff in H as [H0 H1].
  apply Z.leb_le in H0. apply negb_true_iff in Hs. rewrite Hs, H1.
  destruct (Z.ltb_spec c 0); [lia|].
  destruct (c <? 128); [eauto|]. destruct (c <? 2048); [eauto|].
  destruct (c <? 65536); eauto.
Qed.

Lemma encode_char_some_scalar (c : char) (b : bytes) :
  Utf8.encode_char c = Some b -> scalar c = true.
Proof.
  unfold scalar, Utf8.encode_char.
  destruct (Z.ltb_spec c 0); [discriminate|].
  rewrite (proj2 (Z.leb_le 0 c)) by lia. cbn [andb].
  destruct (Z.ltb_spec c 128).
  { intros _. unfold Utf8.is_surrogate. repeat zdec. reflexivity. }
  destruct (Z.ltb_spec c 2048).
  { intros _. unfold Utf8.is_surrogate. repeat zdec. reflexivity. }
  destruct (Z.ltb_spec c 65536).
  { destruct (Utf8.is_surrogate c); [discriminate|].
    intros _. repeat zdec. reflexivity. }
  destruct (Z.ltb_spec c 1114112); [|discriminate].
  intros _. unfold Utf8.is_surrogate. repeat zdec. reflexivity.
Qed.

Lemma encode_text_ok (s : str) :
  text_ok s = true <-> exists b, Utf8.encode s = Some b.
Proof.
  induction s as [|c s IH]; cbn [text_ok forallb Utf8.encode].
  - split; eauto.
  - rewrite andb_true_iff. fold (text_ok s). split.
    + intros [Hc Hs]. apply encode_char_scalar in Hc as [bc ->].
      apply IH in Hs as [bs ->]. eauto.
    + intros [b Hb]. destruct (Utf8.encode_char c) eqn:Hc; [|discriminate].
      destruct (Utf8.encode s) eqn:Hs; [|discriminate].
      split; [eapply encode_char_some_scalar; eauto|].
      apply IH. eauto.
Qed.

Lemma encode_app (s1 s2 : str) (b1 b2 : bytes) :
  Utf8.encode s1 = Some b1 -> Utf8.encode s2 = Some b2 ->
  Utf8.encode (s1 ++ s2) = Some (b1 ++ b2).
Proof.
  revert b1. induction s1 as [|c s1 IH]; intros b1; cbn [Utf8.encode app].
  - intros [= <-] H. exact H.
  - destruct (Utf8.encode_char c); [|discriminate].
    destruct (Utf8.encode s1) as [bs|]; [|discriminate].
    intros [= <-] H2. rewrite (IH bs eq_refl H2). now rewrite app_assoc.
Qed.

Lemma write_chunks_ok (chunks : list str) (written : bytes) :
  forallb text_ok chunks = true ->
  exists b, Utf8.encode (List.concat chunks) = Some b
            /\ Utf8.write_chunks chunks written = (written ++ b, true).
Proof.
  revert written. induction chunks as [|ch chunks IH]; intros written; cbn.
  - intros _. exists []. now rewrite app_nil_r.
  - intros H. apply andb_true_iff in H as [Hc Hr].
    apply encode_text_ok in Hc as [bc Hc].
    destruct (IH (written ++ bc) Hr) as [b [Hb Hw]].
    exists (bc ++ b). rewrite Hc, Hw, (encode_app _ _ _ _ Hc Hb).
    now rewrite app_assoc.
Qed.

Lemma universal_newlines_id (s : str) :
  Forall (fun c => c <> 13) s -> Utf8.universal_newlines s = s.
Proof.
  induction 1 as [|c s Hc Hs IH]; cbn [Utf8.universal_newlines]; [reflexivity|].
  destruct (Z.eqb_spec c 13); [contradiction|]. now rewrite IH.
Qed.

(** ** JSON strings *)

Lemma hex_val_digit (d : Z) :
  0 <= d < 16 -> Json.hex_val (MD5.hex_digit d) = Some d.
Proof.
  intros Hd. unfold Json.hex_val, MD5.hex_digit.
  destruct (Z.ltb_spec d 10); repeat zdec; f_equal; lia.
Qed.

Lemma scan_plain (c : char) (l : str) :
  c <> 34 -> c <> 92 -> ~ 0 <= c < 32 ->
  Json.scanstring (c :: l) = Json.cons_res c (Json.scanstring l).
Proof.
  intros H1 H2 H3. cbn [Json.scanstring].
  do 2 zdec. destruct (Z.leb_spec 0 c); cbn [andb]; [|reflexivity].
  zdec. reflexivity.
Qed.

Lemma scan_backslash (e ch : char) (l : str) :
  e <> 117 -> Json.backslash e = Some ch ->
  Json.scanstring (92 :: e :: l) = Json.cons_res ch (Json.scanstring l).
Proof.
  intros He Hb. cbn [Json.scanstring]. cbn [Z.eqb Pos.eqb].
  zdec. now rewrite Hb.
Qed.

Lemma scan_u00 (x y : char) (u : Z) (l : str) :
  Json.hex4 48 48 x y = Some u -> Json.is_high u = false ->
  Json.scanstring (92 :: 117 :: 48 :: 48 :: x :: y :: l)
  = Json.cons_res u (Json.scanstring l).
Proof.
  intros Hx Hh. cbn [Json.scanstring]. cbn [Z.eqb Pos.eqb].
  rewrite Hx. destruct l as [|a [|b l]]; try reflexivity.
  rewrite Hh. reflexivity.
Qed.

Lemma scanstring_escape (c : char) (l : str) :
  Json.scanstring (Json.escape c ++ l) = Json.cons_res c (Json.scanstring l).
Proof.
  unfold Json.escape.
  destruct (Z.eqb_spec c 34) as [->|]; [reflexivity|].
  destruct (Z.eqb_spec c 92) as [->|]; [reflexivity|].
  destruct (Z.eqb_spec c 10) as [->|]; [reflexivity|].
  destruct (Z.eqb_spec c 13) as [->|]; [reflexivity|].
  destruct (Z.eqb_spec c 9) as [->|]; [reflexivity|].
  destruct (Z.eqb_spec c 8) as [->|]; [reflexivity|].
  destruct (Z.eqb_spec c 12) as [->|]; [reflexivity|].
  destruct (Z.leb_spec 0 c); cbn [andb].
  - destruct (Z.ltb_spec c 32).
    + cbn [app]. apply scan_u00.
      * unfold Json.hex4.
        assert (Hq : 0 <= c / 16 < 16) by (Z.div_mod_to_equations; lia).
        assert (Hr : 0 <= c mod 16 < 16) by (Z.div_mod_to_equations; lia).
        rewrite (hex_val_digit _ Hq), (hex_val_digit _ Hr).
        cbn [Json.hex_val]. change (Json.hex_val 48) with (Some 0).
        cbn beta iota. f_equal. Z.div_mod_to_equations. lia.
      * unfold Json.is_high. zdec. reflexivity.
    + cbn [app]. apply scan_plain; lia.
  - cbn [app]. apply scan_plain; lia.
Qed.

Lemma scanstring_body (s rest : str) :
  Json.scanstring (flat_map Json.escape s ++ 34 :: rest) = Some (s, rest).
Proof.
  induction s as [|c s IH]; cbn [flat_map app]; [reflexivity|].
  rewrite <- app_assoc, scanstring_escape, IH. reflexivity.
Qed.

Lemma escape_no_cr (c : char) : Forall (fun x => x <> 13) (Json.escape c).
Proof.
  unfold Json.escape.
  repeat match goal with
         | |- context [if ?a =? ?b then _ else _] =>
             destruct (Z.eqb_spec a b); [repeat constructor; lia|]
         end.
  destruct (Z.leb_spec 0 c); cbn [andb]; [destruct (Z.ltb_spec c 32)|].
  - repeat constructor; try lia; unfold MD5.hex_digit;
      match goal with |- context [?a <? ?b] => destruct (Z.ltb_spec a b) end;
      Z.div_mod_to_equations; lia.
  - repeat constructor; lia.
  - repeat constructor; lia.
Qed.

Lemma escape_scalar (c : char) :
  scalar c = true -> text_ok (Json.escape c) = true.
Proof.
  intros Hc. unfold Json.escape.
  repeat match goal with
         | |- context [if ?a =? ?b then _ else _] =>
             destruct (Z.eqb_spec a b); [reflexivity|]
         end.
  destruct (Z.leb_spec 0 c); cbn [andb]; [destruct (Z.ltb_spec c 32)|].
  - assert (Hq : 0 <= c / 16 < 2) by (Z.div_mod_to_equations; lia).
    assert (Hr : 0 <= c mod 16 < 16) by (Z.div_mod_to_equations; lia).
    unfold MD5.hex_digit. cbn [text_ok forallb]. unfold scalar, Utf8.is_surrogate.
    destruct (Z.ltb_spec (c / 16) 10); destruct (Z.ltb_spec (c mod 16) 10);
      try lia; repeat zdec; reflexivity.
  - cbn. now rewrite Hc.
  - cbn. now rewrite Hc.
Qed.

(** ** Dictionaries *)

Lemma dict_get_set_same {V} (d : dict V) (k : str) (v : V) :
  dict_get (dict_set d k v) k = Some v.
Proof.
  induction d as [|[k' v'] d IH]; cbn.
  - now rewrite str_eqb_refl.
  - destruct (str_eqb k' k) eqn:E; cbn; rewrite E; auto.
Qed.

Lemma dict_get_set_other {V} (d : dict V) (k k' : str) (v : V) :
  k <> k' -> dict_get (dict_set d k v) k' = dict_get d k'.
Proof.
  intros Hk. induction d as [|[k0 v0] d IH]; cbn.
  - apply str_eqb_neq in Hk. now rewrite Hk.
  - destruct (str_eqb k0 k) eqn:E; cbn.
    + apply str_eqb_eq in E. subst k0.
      apply str_eqb_neq in Hk. now rewrite Hk.
    + destruct (str_eqb k0 k'); auto.
Qed.

Lemma existsb_str_eqb (k : str) (l : list str) :
  existsb (str_eqb k) l = true <-> In k l.
Proof.
  rewrite existsb_exists. split.
  - intros [x [Hx E]]. apply str_eqb_eq in E. now subst.
  - intros H. exists k. split; [exact H|apply str_eqb_refl].
Qed.

Lemma names_unique_NoDup (l : list str) : names_unique l = true <-> NoDup l.
Proof.
  induction l as [|n l IH]; cbn.
  - split; [constructor|reflexivity].
  - rewrite andb_true_iff, negb_true_iff, IH. split.
    + intros [Hn Hl]. constructor; [|exact Hl].
      intros Hin. apply existsb_str_eqb in Hin. congruence.
    + intros H. inversion H as [|? ? Hn Hl]; subst. split; [|exact Hl].
      destruct (existsb (str_eqb n) l) eqn:E; [|reflexivity].
      apply existsb_str_eqb in E. contradiction.
Qed.

Lemma dict_get_none {V} (d : dict V) (k : str) :
  dict_get d k = None <-> ~ In k (keys d).
Proof.
  induction d as [|[k' v] d IH]; cbn.
  - tauto.
  - destruct (str_eqb k' k) eqn:E.
    + apply str_eqb_eq in E. split; [discriminate|]. intros H. exfalso. auto.
    + apply str_eqb_neq in E. rewrite IH. tauto.
Qed.

Lemma dict_get_in {V} (d : dict V) (k : str) (v : V) :
  dict_get d k = Some v -> In (k, v) d.
Proof.
  induction d as [|[k' v'] d IH]; cbn; [discriminate|].
  destruct (str_eqb k' k) eqn:E.
  - apply str_eqb_eq in E. intros [= ->]. left. now subst.
  - intros H. right. auto.
Qed.

Lemma dict_in_get {V} (d : dict V) (k : str) (v : V) :
  dict_ok d = true -> In (k, v) d -> dict_get d k = Some v.
Proof.
  unfold dict_ok. rewrite names_unique_NoDup.
  induction d as [|[k' v'] d IH]; cbn; [tauto|].
  intros Hnd. inversion Hnd as [|? ? Hk Hd]; subst.
  intros [[= -> ->]|Hin].
  - now rewrite str_eqb_refl.
  - destruct (str_eqb k' k) eqn:E.
    + apply str_eqb_eq in E. subst k'. exfalso. apply Hk.
      change k with (fst (k, v)). now apply in_map.
    + auto.
Qed.

Lemma dict_set_fresh {V} (d : dict V) (k : str) (v : V) :
  ~ In k (keys d) -> dict_set d k v = d ++ [(k, v)].
Proof.
  induction d as [|[k' v'] d IH]; cbn; [reflexivity|].
  intros H. destruct (str_eqb k' k) eqn:E.
  - apply str_eqb_eq in E. exfalso. auto.
  - rewrite IH; auto.
Qed.

Lemma keys_dict_set {V} (d : dict V) (k : str) (v : V) :
  keys (dict_set d k v) = if dict_mem d k then keys d else keys d ++ [k].
Proof.
  unfold dict_mem, keys. induction d as [|[k' v'] d IH]; cbn; [reflexivity|].
  destruct (str_eqb k' k) eqn:E; cbn; [reflexivity|].
  rewrite IH. destruct (dict_get d k); reflexivity.
Qed.

Lemma dict_set_ok {V} (d : dict V) (k : str) (v : V) :
  dict_ok d = true -> dict_ok (dict_set d k v) = true.
Proof.
  unfold dict_ok. rewrite !names_unique_NoDup, keys_dict_set. unfold dict_mem.
  destruct (dict_get d k) eqn:E; [auto|].
  intros H. apply dict_get_none in E.
  apply NoDup_app; [exact H|repeat constructor; auto|].
  intros x Hx [<-|[]]. contradiction.
Qed.

(** Putting the items of a dictionary one after the other into an empty
    dictionary gives the dictionary back. *)
Lemma fold_dict_set_fresh (items acc : dict str) :
  NoDup (keys (acc ++ items)) ->
  fold_left (fun d e => dict_set d (fst e) (snd e)) items acc = acc ++ items.
Proof.
  revert acc. induction items as [|[k v] items IH]; intros acc H; cbn.
  - now rewrite app_nil_r.
  - assert (Hk : ~ In k (keys acc)).
    { unfold keys in *. rewrite map_app in H. cbn in H.
      apply NoDup_remove_2 in H. intros Hin. apply H. apply in_or_app. auto. }
    rewrite (dict_set_fresh _ _ _ Hk), IH.
    + now rewrite <- app_assoc.
    + now rewrite <- app_assoc.
Qed.

(** ** The JSON document of a mapping *)

(** The text of the items that follow the first one. *)
Lemma item_text_next (k v : str) (items : dict str) :
  List.concat (Json.item_chunks false ((k, v) :: items))
  = 44 :: 10 :: 32 :: 32 :: 32 :: 32 :: 34
       :: flat_map Json.escape k
       ++ 34 :: 58 :: 32 :: 34
       :: flat_map Json.escape v
       ++ 34 :: List.concat (Json.item_chunks false items).
Proof.
  cbn [Json.item_chunks List.concat app]. unfold Json.encode_basestring.
  cbn. repeat (rewrite <- app_assoc; cbn [app]). reflexivity.
Qed.

Lemma item_text_first (k v : str) (items : dict str) :
  List.concat (Json.item_chunks true ((k, v) :: items))
  = 34 :: flat_map Json.escape k
       ++ 34 :: 58 :: 32 :: 34
       :: flat_map Json.escape v
       ++ 34 :: List.concat (Json.item_chunks false items).
Proof.
  cbn [Json.item_chunks List.concat app]. unfold Json.encode_basestring.
  cbn. repeat (rewrite <- app_assoc; cbn [app]). reflexivity.
Qed.

Lemma parse_members_items (items : dict str) :
  forall (k v : str) (acc : dict str) (rest : str) (fuel : nat),
    (List.length items < fuel)%nat ->
    Json.parse_members fuel
      (flat_map Json.escape k
         ++ 34 :: 58 :: 32 :: 34
         :: flat_map Json.escape v
         ++ 34 :: List.concat (Json.item_chunks false items) ++ 10 :: 125 :: rest)
      acc
    = Some (fold_left (fun d e => dict_set d (fst e) (snd e))
                      ((k, v) :: items) acc, rest).
Proof.
  induction items as [|[k2 v2] items IH]; intros k v acc rest fuel Hfuel;
    (destruct fuel as [|fuel]; [cbn in Hfuel; lia|]);
    cbn [Json.parse_members]; rewrite scanstring_body;
    cbn [Json.skip_ws Json.is_ws Z.eqb Pos.eqb orb]; rewrite scanstring_body.
  - reflexivity.
  - rewrite item_text_next. cbn [app Json.skip_ws Json.is_ws Z.eqb Pos.eqb orb].
    rewrite <- app_assoc. cbn [app]. rewrite <- app_assoc. cbn [app].
    rewrite IH by (cbn in Hfuel; lia). reflexivity.
Qed.

Lemma item_chunks_length (b : bool) (items : dict str) :
  (List.length items <= List.length (List.concat (Json.item_chunks b items)))%nat.
Proof.
  revert b. induction items as [|[k v] items IH]; intros b; [cbn; lia|].
  specialize (IH false).
  destruct b; [rewrite item_text_first|rewrite item_text_next];
    cbn [List.length]; rewrite !length_app; cbn [List.length];
    rewrite !length_app; cbn [List.length]; lia.
Qed.

Lemma dumps_cons (k v : str) (items : dict str) :
  Json.dumps ((k, v) :: items)
  = 123 :: 10 :: 32 :: 32 :: 32 :: 32 :: 34
        :: flat_map Json.escape k
        ++ 34 :: 58 :: 32 :: 34
        :: flat_map Json.escape v
        ++ 34 :: List.concat (Json.item_chunks false items) ++ [10; 125].
Proof.
  unfold Json.dumps, Json.iterencode. cbn [List.concat app].
  rewrite concat_app, item_text_first.
  change (Json.newline_indent) with [10; 32; 32; 32; 32].
  change (lit "{") with [123]. change (lit "}") with [125].
  cbn [List.concat app]. repeat (rewrite <- app_assoc; cbn [app]).
  reflexivity.
Qed.

Lemma loads_dumps (m : dict str) :
  dict_ok m = true -> Json.loads (Json.dumps m) = Some m.
Proof.
  intros Hm. destruct m as [|[k v] items]; [reflexivity|].
  rewrite dumps_cons.
  cbn [Json.loads Json.skip_ws Json.is_ws Z.eqb Pos.eqb orb Json.parse_object].
  rewrite parse_members_items.
  - cbn [Json.skip_ws]. f_equal.
    rewrite (fold_dict_set_fresh ((k, v) :: items) []); [reflexivity|].
    apply names_unique_NoDup. exact Hm.
  - pose proof (item_chunks_length false items).
    repeat (cbn [List.length]; rewrite ?length_app). lia.
Qed.

Lemma concat_chunks_no_cr (b : bool) (m : dict str) :
  Forall (fun c => c <> 13) (List.concat (Json.item_chunks b m)).
Proof.
  assert (Hbody : forall s, Forall (fun c => c <> 13) (flat_map Json.escape s)).
  { induction s as [|c s IH]; cbn; [constructor|].
    apply Forall_app. split; [apply escape_no_cr|exact IH]. }
  revert b. induction m as [|[k v] items IH]; intros b; [constructor|].
  destruct b; [rewrite item_text_first|rewrite item_text_next];
    repeat first [ apply Forall_cons; [lia|]
                 | apply Forall_app; split; [apply Hbody|]
                 | apply IH ].
Qed.

Lemma dumps_no_cr (m : dict str) : Forall (fun c => c <> 13) (Json.dumps m).
Proof.
  destruct m as [|[k v] items].
  - cbn. repeat constructor; lia.
  - rewrite dumps_cons.
    assert (Hbody : forall s, Forall (fun c => c <> 13) (flat_map Json.escape s)).
    { induction s as [|c s IH]; cbn; [constructor|].
      apply Forall_app. split; [apply escape_no_cr|exact IH]. }
    repeat first [ apply Forall_cons; [lia|]
                 | apply Forall_app; split; [apply Hbody|]
                 | apply Forall_app; split; [apply concat_chunks_no_cr|]
                 | apply Forall_nil ].
Qed.

Lemma flat_map_escape_ok (s : str) :
  text_ok s = true -> text_ok (flat_map Json.escape s) = true.
Proof.
  unfold text_ok. induction s as [|c s IH]; cbn [forallb flat_map]; [reflexivity|].
  rewrite andb_true_iff. intros [Hc Hs].
  rewrite forallb_app. apply andb_true_iff. split.
  - now apply escape_scalar.
  - auto.
Qed.

Lemma encode_basestring_ok (s : str) :
  text_ok s = true -> text_ok (Json.encode_basestring s) = true.
Proof.
  intros Hs. unfold Json.encode_basestring, text_ok.
  rewrite !forallb_app. fold (text_ok (flat_map Json.escape s)).
  rewrite (flat_map_escape_ok _ Hs). reflexivity.
Qed.

Lemma item_chunks_ok (b : bool) (m : dict str) :
  mapping_ok m = true -> forallb text_ok (Json.item_chunks b m) = true.
Proof.
  revert b. unfold mapping_ok.
  induction m as [|[k v] items IH]; intros b; [reflexivity|].
  cbn [forallb fst snd]. rewrite !andb_true_iff. intros [[Hk Hv] Hi].
  cbn [Json.item_chunks]. rewrite !forallb_app. cbn [forallb].
  rewrite (encode_basestring_ok _ Hk), (encode_basestring_ok _ Hv), (IH false Hi).
  destruct b; reflexivity.
Qed.

Lemma iterencode_ok (m : dict str) :
  mapping_ok m = true -> forallb text_ok (Json.iterencode m) = true.
Proof.
  intros Hm. unfold Json.iterencode. destruct m as [|e items]; [reflexivity|].
  cbn [app forallb]. rewrite forallb_app, (item_chunks_ok true _ Hm).
  reflexivity.
Qed.

(** ** Saving and loading a mapping *)

(** C2, as the program has it: a mapping whose keys and paths are text
    that UTF-8 can carry (no lone surrogate) is written in full, and
    loading the file gives the same mapping back, key for key and in the
    same order. *)
Theorem save_load_roundtrip (m : dict str) :
  dict_ok m = true ->
  mapping_ok m = true ->
  exists content,
    save_mapping m = (content, true) /\ load_mapping content = Some m.
Proof.
  intros Hd Hm. unfold save_mapping.
  destruct (write_chunks_ok (Json.iterencode m) [] (iterencode_ok m Hm))
    as [b [Hb Hw]].
  exists b. split; [exact Hw|].
  unfold load_mapping, Utf8.read_text.
  rewrite (decode_encode _ _ Hb). fold (Json.dumps m).
  rewrite (universal_newlines_id _ (dumps_no_cr m)).
  now apply loads_dumps.
Qed.

Lemma save_load_roundtrip_witness :
  exists content,
    save_mapping [(lit "5d41402abc4b2a76b9719d911017c592", lit "a/x.txt");
                  (lit "7d793037a0760186574b0282f2f435e7", [98; 47; 233; 128512; 10; 34])]
    = (content, true)
    /\ load_mapping content
       = Some [(lit "5d41402abc4b2a76b9719d911017c592", lit "a/x.txt");
               (lit "7d793037a0760186574b0282f2f435e7", [98; 47; 233; 128512; 10; 34])].
Proof.
  apply (save_load_roundtrip
           [(lit "5d41402abc4b2a76b9719d911017c592", lit "a/x.txt");
            (lit "7d793037a0760186574b0282f2f435e7", [98; 47; 233; 128512; 10; 34])]);
    reflexivity.
Defined.

(** C2 as stated fails.  A file name that is not valid UTF-8 reaches the
    program as a string with a lone surrogate ([caf\udce9.txt] below);
    the scan puts it into the mapping, writing the mapping stops at that
    string, [scan_source] ends in the exception, and what is left in the
    file does not load. *)
Lemma save_fails_on_surrogate :
  let name := lit "caf" ++ [56553] ++ lit ".txt" in
  let fs := Dir [(lit "src", Dir [(name, File (mkFile true []))])] in
  let m := [(lit "d41d8cd98f00b204e9800998ecf8427e", name)] in
  sc_mapping (scan_loop 10 (lookup fs (resolve (lit "src"))) (mkScan [] 0 [])) = m
  /\ snd (save_mapping m) = false
  /\ load_mapping (fst (save_mapping m)) = None
  /\ o_status (scan_source fs (lit "src") (lit "file_map.json") 10) = Raised.
Proof. vm_compute. repeat split; reflexivity. Qed.

(** ** Trees and walks *)

Lemma node_induction (P : node -> Prop) :
  (forall f, P (File f)) ->
  (forall ents, Forall (fun e => P (snd e)) ents -> P (Dir ents)) ->
  forall t, P t.
Proof.
  intros HF HD.
  refine (fix IH (t : node) : P t :=
            match t with
            | File f => HF f
            | Dir ents =>
                HD ents
                   ((fix go (l : entries) : Forall (fun e => P (snd e)) l :=
                       match l with
                       | [] => Forall_nil _
                       | e :: l' => Forall_cons e (IH (snd e)) (go l')
                       end) ents)
            end).
Qed.

Lemma walk_dir (root : path) (ents : entries) :
  walk root (Dir ents)
  = (root, dir_names ents, file_ents ents)
      :: flat_map (fun e => walk (root ++ [fst e]) (snd e)) ents.
Proof.
  cbn [walk]. f_equal.
  induction ents as [|[n c] ents IH]; [reflexivity|].
  cbn [flat_map fst snd]. now rewrite <- IH.
Qed.

Lemma walk_up_dir (root : path) (ents : entries) :
  walk_up root (Dir ents)
  = flat_map (fun e => walk_up (root ++ [fst e]) (snd e)) ents
      ++ [(root, dir_names ents)].
Proof.
  cbn [walk_up]. f_equal.
  induction ents as [|[n c] ents IH]; [reflexivity|].
  cbn [flat_map fst snd]. now rewrite <- IH.
Qed.

Lemma wf_dir (ents : entries) :
  wf (Dir ents)
  = names_unique (map fst ents) && forallb (fun e => wf (snd e)) ents.
Proof.
  cbn [wf]. f_equal.
  induction ents as [|[n c] ents IH]; [reflexivity|].
  cbn [forallb snd]. now rewrite <- IH.
Qed.

Lemma strip_excluded_dir (ents : entries) :
  strip_excluded (Dir ents)
  = Dir (flat_map
           (fun e =>
              match snd e with
              | File _ => if excluded (fst e) then [] else [e]
              | Dir _ => [(fst e, strip_excluded (snd e))]
              end) ents).
Proof.
  cbn [strip_excluded]. f_equal.
  induction ents as [|[n [f|sub]] ents IH]; [reflexivity| |].
  - cbn [flat_map fst snd]. rewrite <- IH. destruct (excluded n); reflexivity.
  - cbn [flat_map fst snd app]. now rewrite <- IH.
Qed.

Lemma flat_map_flat_map {A B C} (f : B -> list C) (g : A -> list B) (l : list A) :
  flat_map f (flat_map g l) = flat_map (fun x => flat_map f (g x)) l.
Proof.
  induction l as [|a l IH]; [reflexivity|].
  cbn [flat_map]. now rewrite flat_map_app, IH.
Qed.

Lemma fold_left_flat_map {A B C} (f : A -> C -> A) (g : B -> list C)
      (l : list B) (a : A) :
  fold_left f (flat_map g l) a
  = fold_left (fun a x => fold_left f (g x) a) l a.
Proof.
  revert a. induction l as [|b l IH]; intros a; [reflexivity|].
  cbn [flat_map fold_left]. now rewrite fold_left_app, IH.
Qed.

Lemma fold_left_map {A B C} (f : A -> C -> A) (g : B -> C) (l : list B) (a : A) :
  fold_left f (map g l) a = fold_left (fun a x => f a (g x)) l a.
Proof.
  revert a. induction l as [|b l IH]; intros a; [reflexivity|].
  cbn [map fold_left]. now rewrite IH.
Qed.

Lemma fold_left_ext_in {A B} (f g : A -> B -> A) (l : list B) (a : A) :
  (forall a x, In x l -> f a x = g a x) -> fold_left f l a = fold_left g l a.
Proof.
  revert a. induction l as [|b l IH]; intros a H; [reflexivity|].
  cbn [fold_left]. rewrite H by (left; reflexivity).
  apply IH. intros a' x Hx. apply H. now right.
Qed.

Lemma walk_files_file (root : path) (f : file) : walk_files root (File f) = [].
Proof. reflexivity. Qed.

Lemma walk_files_dir (root : path) (ents : entries) :
  walk_files root (Dir ents)
  = map (fun e => (root ++ [fst e], snd e)) (file_ents ents)
      ++ flat_map (fun e => walk_files (root ++ [fst e]) (snd e)) ents.
Proof.
  unfold walk_files. rewrite walk_dir. cbn [flat_map fst snd].
  f_equal. now rewrite flat_map_flat_map.
Qed.

Lemma in_file_ents (ents : entries) (n : str) (f : file) :
  In (n, f) (file_ents ents) <-> In (n, File f) ents.
Proof.
  unfold file_ents. rewrite in_flat_map. split.
  - intros [[m c] [Hin Hc]]. cbn in Hc. destruct c as [g|sub]; [|contradiction].
    destruct Hc as [[= -> ->]|[]]. exact Hin.
  - intros Hin. exists (n, File f). split; [exact Hin|now left].
Qed.

Lemma in_dir_names (ents : entries) (n : str) :
  In n (dir_names ents) <-> exists sub, In (n, Dir sub) ents.
Proof.
  unfold dir_names. rewrite in_flat_map. split.
  - intros [[m c] [Hin Hc]]. cbn in Hc. destruct c as [g|sub]; [contradiction|].
    destruct Hc as [->|[]]. eauto.
  - intros [sub Hin]. exists (n, Dir sub). split; [exact Hin|now left].
Qed.

Lemma assoc_in (ents : entries) (n : str) (c : node) :
  assoc ents n = Some c -> In (n, c) ents.
Proof. apply dict_get_in. Qed.

Lemma in_assoc (ents : entries) (n : str) (c : node) :
  names_unique (map fst ents) = true -> In (n, c) ents -> assoc ents n = Some c.
Proof. apply dict_in_get. Qed.

Lemma dirname_snoc (p : path) (n : str) : dirname (p ++ [n]) = p.
Proof. apply removelast_last. Qed.

Lemma basename_snoc (p : path) (n : str) : basename (p ++ [n]) = n.
Proof. apply last_last. Qed.

Lemma basename_cons (n : str) (p : path) :
  p <> [] -> basename (n :: p) = basename p.
Proof. destruct p; [congruence|reflexivity]. Qed.

(** A regular file below the top of the walk is met by the walk. *)
Lemma lookup_in_walk_files (p : path) :
  forall (t : node) (root : path) (f : file),
    p <> [] -> lookup t p = Some (File f) ->
    In (root ++ p, f) (walk_files root t).
Proof.
  induction p as [|n p IH]; intros t root f Hp Hl; [congruence|].
  destruct t as [g|ents]; [discriminate|]. cbn [lookup] in Hl.
  destruct (assoc ents n) as [c|] eqn:Hc; [|discriminate].
  apply assoc_in in Hc. rewrite walk_files_dir. apply in_or_app.
  destruct p as [|m p].
  - left. cbn in Hl. injection Hl as ->.
    apply in_file_ents in Hc.
    apply (in_map (fun e => (root ++ [fst e], snd e))) in Hc. exact Hc.
  - right. apply in_flat_map. exists (n, c). split; [exact Hc|].
    cbn [fst snd]. change (n :: m :: p) with ([n] ++ m :: p).
    rewrite app_assoc. apply IH; [discriminate|exact Hl].
Qed.

(** In a tree whose directories list every name once, what the walk meets
    is what the path leads to. *)
Lemma walk_files_lookup (t : node) :
  forall (root q : path) (f : file),
    wf t = true -> In (q, f) (walk_files root t) ->
    exists p, q = root ++ p /\ p <> [] /\ lookup t p = Some (File f).
Proof.
  induction t as [g|ents IH] using node_induction; intros root q f Hwf Hin.
  - contradiction.
  - rewrite wf_dir in Hwf. apply andb_true_iff in Hwf as [Hu Hc].
    rewrite walk_files_dir in Hin. apply in_app_or in Hin as [Hin|Hin].
    + apply in_map_iff in Hin as [[n g] [[= <- <-] Hin]].
      apply in_file_ents in Hin. exists [n]. repeat split; [discriminate|].
      cbn [lookup]. now rewrite (in_assoc _ _ _ Hu Hin).
    + apply in_flat_map in Hin as [[n c] [Hnc Hin]]. cbn [fst snd] in Hin.
      rewrite Forall_forall in IH. rewrite forallb_forall in Hc.
      destruct (IH _ Hnc _ _ _ (Hc _ Hnc) Hin) as [p [-> [Hp Hl]]].
      exists (n :: p). repeat split.
      * now rewrite <- app_assoc.
      * discriminate.
      * cbn [lookup]. now rewrite (in_assoc _ _ _ Hu Hnc).
Qed.

Lemma walk_strip (t : node) :
  forall root,
    walk root (strip_excluded t)
    = map (fun it =>
             (fst (fst it), snd (fst it),
              filter (fun e => negb (excluded (fst e))) (snd it)))
          (walk root t).
Proof.
  induction t as [g|ents IH] using node_induction; intros root; [reflexivity|].
  rewrite strip_excluded_dir, !walk_dir. cbn [map fst snd]. f_equal.
  - f_equal; [f_equal|].
    + unfold dir_names. rewrite flat_map_flat_map. apply flat_map_ext.
      intros [n [g|sub]]; cbn; [destruct (excluded n)|]; reflexivity.
    + unfold file_ents. rewrite flat_map_flat_map.
      clear IH. induction ents as [|[n [g|sub]] ents IHe]; [reflexivity| |].
      * cbn [flat_map fst snd app filter]. rewrite IHe.
        destruct (excluded n); reflexivity.
      * cbn [flat_map fst snd app]. rewrite app_nil_r. exact IHe.
  - rewrite flat_map_flat_map.
    induction ents as [|[n [g|sub]] ents IHe]; [reflexivity| |].
    + inversion IH; subst. cbn [flat_map fst snd walk app].
      rewrite <- IHe by assumption.
      destruct (excluded n); reflexivity.
    + inversion IH as [|? ? Hc Hr]; subst. cbn [flat_map fst snd].
      rewrite app_nil_r, map_app, <- IHe by assumption. f_equal.
      apply Hc.
Qed.

(** ** The scan *)

Lemma dict_mem_set {V} (d : dict V) (k h : str) (v : V) :
  dict_mem (dict_set d k v) h = str_eqb k h || dict_mem d h.
Proof.
  unfold dict_mem. destruct (str_eqb k h) eqn:E.
  - apply str_eqb_eq in E. subst. now rewrite dict_get_set_same.
  - apply str_eqb_neq in E. now rewrite dict_get_set_other.
Qed.

Lemma scan_file_excluded (pe : Z) (root : path) (st : scan_state)
      (n : str) (f : file) :
  excluded n = true -> scan_file pe root st (n, f) = st.
Proof. intros H. unfold scan_file. now rewrite H. Qed.

Lemma scan_files_filter (pe : Z) (root : path) (files : list (str * file)) :
  forall st,
    fold_left (scan_file pe root)
              (filter (fun e => negb (excluded (fst e))) files) st
    = fold_left (scan_file pe root) files st.
Proof.
  induction files as [|[n f] files IH]; intros st; [reflexivity|].
  cbn [filter fst]. destruct (excluded n) eqn:E; cbn [negb fold_left].
  - now rewrite (scan_file_excluded _ _ _ _ _ E).
  - apply IH.
Qed.

(** The files the scan skips have no part in its result: the mapping,
    the count and the messages are those of the tree without them. *)
Lemma scan_loop_strip (pe : Z) (t : node) (st : scan_state) :
  scan_loop pe (Some (strip_excluded t)) st = scan_loop pe (Some t) st.
Proof.
  unfold scan_loop. rewrite walk_strip, fold_left_map.
  apply fold_left_ext_in. intros a [[r d] fs] _. cbn [fst snd].
  apply scan_files_filter.
Qed.

Lemma scan_loop_files (pe : Z) (t : node) (st : scan_state) :
  scan_loop pe (Some t) st
  = fold_left (fun st e =>
                 scan_file pe (dirname (fst e)) st (basename (fst e), snd e))
              (walk_files [] t) st.
Proof.
  unfold scan_loop, walk_files. rewrite fold_left_flat_map.
  apply fold_left_ext_in. intros a [[r d] fs] _. cbn [fst snd].
  rewrite fold_left_map. apply fold_left_ext_in. intros a' [n f] _.
  cbn [fst snd]. now rewrite dirname_snoc, basename_snoc.
Qed.

Lemma scan_file_keeps (pe : Z) (root : path) (st : scan_state)
      (e : str * file) (h : str) :
  dict_mem (sc_mapping st) h = true ->
  dict_mem (sc_mapping (scan_file pe root st e)) h = true.
Proof.
  intros H. unfold scan_file. destruct e as [n f].
  destruct (excluded n); [exact H|].
  destruct (get_fast_md5 f); [|exact H].
  cbn [sc_mapping]. rewrite dict_mem_set, H. apply orb_true_r.
Qed.

Lemma scan_fold_mem (pe : Z) (l : list (path * file)) :
  forall (st : scan_state) (p : path) (f : file) (h : str),
    (In (p, f) l /\ excluded (basename p) = false /\ get_fast_md5 f = Some h
     \/ dict_mem (sc_mapping st) h = true) ->
    dict_mem
      (sc_mapping
         (fold_left (fun st e =>
                       scan_file pe (dirname (fst e)) st (basename (fst e), snd e))
                    l st)) h = true.
Proof.
  induction l as [|[q g] l IH]; intros st p f h H; cbn [fold_left].
  - destruct H as [[[] _]|H]. exact H.
  - apply (IH _ p f). destruct H as [[[Heq|Hin] [Hx Hh]]|H].
    + injection Heq as -> ->. right. cbn [fst snd]. unfold scan_file.
      rewrite Hx, Hh. cbn [sc_mapping].
      now rewrite dict_mem_set, str_eqb_refl.
    + left. auto.
    + right. now apply scan_file_keeps.
Qed.

Lemma scan_fold_origin (pe : Z) (l : list (path * file)) :
  forall (st : scan_state) (h rel : str),
    dict_get
      (sc_mapping
         (fold_left (fun st e =>
                       scan_file pe (dirname (fst e)) st (basename (fst e), snd e))
                    l st)) h = Some rel ->
    dict_get (sc_mapping st) h = Some rel
    \/ exists p f,
        In (p, f) l /\ excluded (basename p) = false
        /\ get_fast_md5 f = Some h
        /\ rel = join_names (dirname p ++ [basename p]).
Proof.
  induction l as [|[q g] l IH]; intros st h rel H; cbn [fold_left] in H.
  - now left.
  - apply IH in H as [H|(p & f & Hin & Hx & Hh & Hr)].
    + cbn [fst snd] in H. unfold scan_file in H.
      destruct (excluded (basename q)) eqn:Hx; [now left|].
      destruct (get_fast_md5 g) as [h'|] eqn:Hh; [|now left].
      cbn [sc_mapping] in H.
      destruct (str_eqb h' h) eqn:E.
      * apply str_eqb_eq in E. subst h'. rewrite dict_get_set_same in H.
        injection H as <-. right. exists q, g. repeat split; auto. now left.
      * apply str_eqb_neq in E. rewrite dict_get_set_other in H by exact E.
        now left.
    + right. exists p, f. repeat split; auto. now right.
Qed.

Lemma scan_file_mapping (pe pe' : Z) (root : path) (st st' : scan_state)
      (e : str * file) :
  sc_mapping st = sc_mapping st' ->
  sc_mapping (scan_file pe root st e) = sc_mapping (scan_file pe' root st' e).
Proof.
  intros H. unfold scan_file. destruct e as [n f].
  destruct (excluded n); [exact H|].
  destruct (get_fast_md5 f); [|exact H]. cbn [sc_mapping]. now rewrite H.
Qed.

(** The mapping does not depend on the progress messages. *)
Lemma scan_loop_mapping (pe : Z) (t : node) (log : list event) :
  sc_mapping (scan_loop pe (Some t) (mkScan [] 0 log)) = scan_mapping t.
Proof.
  unfold scan_mapping, scan_loop.
  assert (G : forall (items : list (path * list str * list (str * file))) st st',
             sc_mapping st = sc_mapping st' ->
             sc_mapping
               (fold_left (fun st item =>
                             let '(root, _, files) := item in
                             fold_left (scan_file pe root) files st) items st)
             = sc_mapping
                 (fold_left (fun st item =>
                               let '(root, _, files) := item in
                               fold_left (scan_file 10 root) files st) items st')).
  { induction items as [|[[r d] fs] items IH]; intros st st' H; [exact H|].
    cbn [fold_left]. apply IH. clear IH. revert st st' H.
    induction fs as [|e fs IHf]; intros st st' H; [exact H|].
    cbn [fold_left]. apply IHf. now apply scan_file_mapping. }
  apply G. reflexivity.
Qed.

Lemma scan_file_dict_ok (pe : Z) (root : path) (st : scan_state) (e : str * file) :
  dict_ok (sc_mapping st) = true ->
  dict_ok (sc_mapping (scan_file pe root st e)) = true.
Proof.
  intros H. unfold scan_file. destruct e as [n f].
  destruct (excluded n); [exact H|].
  destruct (get_fast_md5 f); [|exact H]. cbn [sc_mapping].
  now apply dict_set_ok.
Qed.

(** The mapping of a scan is a dictionary: every fingerprint stands in
    it once. *)
Lemma scan_mapping_dict_ok (t : node) : dict_ok (scan_mapping t) = true.
Proof.
  unfold scan_mapping. rewrite scan_loop_files.
  generalize (mkScan [] 0 []) (eq_refl : dict_ok (sc_mapping (mkScan [] 0 [])) = true).
  induction (walk_files [] t) as [|e l IH]; intros st H; [exact H|].
  cbn [fold_left]. apply IH. now apply scan_file_dict_ok.
Qed.

Lemma path_snoc (p : path) : p <> [] -> dirname p ++ [basename p] = p.
Proof. intros H. symmetry. now apply app_removelast_last. Qed.

(** Every entry of the mapping was made for a file whose name is not
    excluded. *)
Lemma scan_mapping_origin (t : node) (h rel : str) :
  wf t = true ->
  dict_get (scan_mapping t) h = Some rel ->
  exists p f,
    lookup t p = Some (File f) /\ p <> []
    /\ excluded (basename p) = false
    /\ get_fast_md5 f = Some h /\ rel = join_names p.
Proof.
  intros Hwf H. unfold scan_mapping in H. rewrite scan_loop_files in H.
  apply scan_fold_origin in H as [H|(p & f & Hin & Hx & Hh & Hr)];
    [discriminate|].
  destruct (walk_files_lookup _ _ _ _ Hwf Hin) as [p' [Hp [Hne Hl]]].
  cbn [app] in Hp. subst p'. exists p, f. repeat split; auto.
  subst rel. now rewrite (path_snoc p Hne).
Qed.

(** A file whose name is not excluded and whose fingerprint could be
    computed has its fingerprint as a key. *)
Lemma scan_mapping_mem (t : node) (p : path) (f : file) (h : str) :
  p <> [] -> lookup t p = Some (File f) ->
  excluded (basename p) = false -> get_fast_md5 f = Some h ->
  dict_mem (scan_mapping t) h = true.
Proof.
  intros Hne Hl Hx Hh. unfold scan_mapping. rewrite scan_loop_files.
  apply (scan_fold_mem _ _ _ p f). left. repeat split; auto.
  apply (lookup_in_walk_files p t [] f Hne Hl).
Qed.

(** C6, as the program has it: the files whose name begins with a dot or
    is [thumbs.db] in any letter case have no part in the mapping,
    whatever they contain (the mapping is that of the tree without
    them, and every entry was made for a file that is not one of them);
    every other file whose fingerprint could be computed has its
    fingerprint as a key. *)
Theorem scan_filter (t : node) :
  wf t = true ->
  scan_mapping (strip_excluded t) = scan_mapping t
  /\ (forall h rel,
         dict_get (scan_mapping t) h = Some rel ->
         exists p f,
           lookup t p = Some (File f) /\ p <> []
           /\ excluded (basename p) = false
           /\ get_fast_md5 f = Some h /\ rel = join_names p)
  /\ (forall p f h,
         p <> [] -> lookup t p = Some (File f) ->
         excluded (basename p) = false -> get_fast_md5 f = Some h ->
         dict_mem (scan_mapping t) h = true).
Proof.
  intros Hwf. split; [|split].
  - unfold scan_mapping. now rewrite scan_loop_strip.
  - intros h rel. now apply scan_mapping_origin.
  - intros p f h. apply scan_mapping_mem.
Qed.

Lemma scan_filter_witness :
  dict_get
    (scan_mapping
       (Dir [(lit "a", Dir [(lit "x.txt", File (mkFile true (lit "hello")));
                            (lit ".DS_Store", File (mkFile true (lit "junk")))]);
             (lit "Thumbs.db", File (mkFile true (lit "cache")))]))
    (lit "5d41402abc4b2a76b9719d911017c592")
  = Some (lit "a/x.txt")
  /\ scan_mapping
       (Dir [(lit "a", Dir [(lit "x.txt", File (mkFile true (lit "hello")));
                            (lit ".DS_Store", File (mkFile true (lit "junk")))]);
             (lit "Thumbs.db", File (mkFile true (lit "cache")))])
     = scan_mapping
         (Dir [(lit "a", Dir [(lit "x.txt", File (mkFile true (lit "hello")))])]).
Proof.
  split; [vm_compute; reflexivity|].
  symmetry.
  exact (proj1 (scan_filter
                  (Dir [(lit "a", Dir [(lit "x.txt", File (mkFile true (lit "hello")));
                                       (lit ".DS_Store", File (mkFile true (lit "junk")))]);
                        (lit "Thumbs.db", File (mkFile true (lit "cache")))])
                  eq_refl)).
Defined.

(** C6 as stated fails on its second half: a file that cannot be read is
    not excluded by its name, and it is not inserted. *)
Lemma unreadable_file_not_inserted :
  excluded (lit "x.txt") = false
  /\ get_fast_md5 (mkFile false (lit "hello")) = None
  /\ scan_mapping (Dir [(lit "x.txt", File (mkFile false (lit "hello")))]) = [].
Proof. vm_compute. repeat split; reflexivity. Qed.

(** C10: nothing is asked of the directories above a file.  Whatever
    their names, hidden ones included, a file whose own name is not
    excluded and whose fingerprint could be computed has its fingerprint
    in the mapping, and when no other file of the tree has that
    fingerprint the entry holds the path of the file. *)
Theorem scan_descends_hidden (t : node) (dirs : path) (name : str)
        (f : file) (h : str) :
  wf t = true ->
  lookup t (dirs ++ [name]) = Some (File f) ->
  excluded name = false ->
  get_fast_md5 f = Some h ->
  dict_mem (scan_mapping t) h = true
  /\ ((forall p' f',
          lookup t p' = Some (File f') -> get_fast_md5 f' = Some h ->
          p' = dirs ++ [name]) ->
      dict_get (scan_mapping t) h = Some (join_names (dirs ++ [name]))).
Proof.
  intros Hwf Hl Hx Hh.
  assert (Hne : dirs ++ [name] <> []) by (destruct dirs; discriminate).
  assert (Hmem : dict_mem (scan_mapping t) h = true).
  { apply (scan_mapping_mem t (dirs ++ [name]) f h); auto.
    now rewrite basename_snoc. }
  split; [exact Hmem|]. intros Huniq.
  unfold dict_mem in Hmem.
  destruct (dict_get (scan_mapping t) h) as [rel|] eqn:Hg; [|discriminate].
  destruct (scan_mapping_origin t h rel Hwf Hg)
    as (p & g & Hp & _ & _ & Hg' & ->).
  now rewrite (Huniq p g Hp Hg').
Qed.

Lemma scan_descends_hidden_witness :
  dict_get
    (scan_mapping
       (Dir [(lit ".git", Dir [(lit "config", File (mkFile true (lit "hello")))])]))
    (lit "5d41402abc4b2a76b9719d911017c592")
  = Some (lit ".git/config").
Proof.
  refine (proj2 (scan_descends_hidden
                   (Dir [(lit ".git", Dir [(lit "config", File (mkFile true (lit "hello")))])])
                   [lit ".git"] (lit "config") (mkFile true (lit "hello"))
                   (lit "5d41402abc4b2a76b9719d911017c592")
                   eq_refl eq_refl eq_refl _) _).
  - vm_compute. reflexivity.
  - intros p' f' Hl _. destruct p' as [|a p']; [discriminate|].
    pose proof (lookup_in_walk_files (a :: p') _ [] f' ltac:(discriminate) Hl)
      as Hin.
    vm_compute in Hin. destruct Hin as [Hin|[]].
    injection Hin as <- <- <-. reflexivity.
Defined.

(** ** The preview mode *)

Lemma moves_app (l1 l2 : list event) : moves (l1 ++ l2) = moves l1 ++ moves l2.
Proof. apply flat_map_app. Qed.

(** A preview returns, and hands back the tree it was given. *)
Lemma move_loop_dry (target : path) (idx : dict path) (items : dict str)
      (fs : node) :
  fst (fst (fst (move_loop true target idx items fs))) = Returned
  /\ snd (fst (fst (move_loop true target idx items fs))) = fs.
Proof.
  induction items as [|[h rel] items IH]; cbn [move_loop]; [now split|].
  destruct (dict_get idx h) as [old|]; [|exact IH].
  destruct (path_eqb old (target ++ resolve rel)); [exact IH|].
  destruct (move_loop true target idx items fs) as [[[st fs'] evs] n].
  exact IH.
Qed.

(** The moves of a run that changes the tree are the first moves of the
    preview, and all of them when the run returns. *)
Lemma move_loop_dry_real (target : path) (idx : dict path) (items : dict str) :
  forall fs1 fs2 : node,
  exists rest,
    moves (snd (fst (move_loop true target idx items fs1)))
    = moves (snd (fst (move_loop false target idx items fs2))) ++ rest
    /\ (fst (fst (fst (move_loop false target idx items fs2))) = Returned ->
        rest = []
        /\ snd (move_loop true target idx items fs1)
           = snd (move_loop false target idx items fs2)).
Proof.
  induction items as [|[h rel] items IH]; intros fs1 fs2; cbn [move_loop].
  - exists []. now repeat split.
  - destruct (dict_get idx h) as [old|]; [|apply IH].
    destruct (path_eqb old (target ++ resolve rel)); [apply IH|].
    destruct (makedirs fs2 (dirname (target ++ resolve rel))) as [fs3|].
    + destruct (shutil_move fs3 old (target ++ resolve rel)) as [fs4|].
      * destruct (IH fs1 fs4) as [rest [Hm Hr]].
        destruct (move_loop true target idx items fs1) as [[[st1 t1] e1] n1].
        destruct (move_loop false target idx items fs4) as [[[st2 t2] e2] n2].
        cbn [fst snd] in *. exists rest. split.
        -- unfold moves in *. cbn [flat_map app]. now rewrite Hm.
        -- intros Hs. destruct (Hr Hs) as [-> ->]. now split.
      * destruct (move_loop true target idx items fs1) as [[[st1 t1] e1] n1].
        cbn [fst snd]. eexists. split; [reflexivity|]. discriminate.
    + destruct (move_loop true target idx items fs1) as [[[st1 t1] e1] n1].
      cbn [fst snd]. eexists. split; [reflexivity|]. discriminate.
Qed.

Lemma reconcile_dry (fs : node) (target_dir : str) (mapping : dict str) :
  o_status (reconcile fs target_dir mapping true) = Returned
  /\ o_fs (reconcile fs target_dir mapping true) = fs
  /\ moves (o_log (reconcile fs target_dir mapping true))
     = moves (snd (fst (move_loop true (resolve target_dir)
                                  (build_index fs (resolve target_dir))
                                  mapping fs))).
Proof.
  unfold reconcile.
  pose proof (move_loop_dry (resolve target_dir)
                (build_index fs (resolve target_dir)) mapping fs) as [Hs Hf].
  destruct (move_loop true _ _ mapping fs) as [[[st fs'] evs] n].
  cbn [fst snd] in *. subst st fs'. cbn [o_status o_fs o_log].
  repeat split. rewrite !moves_app. cbn. now rewrite app_nil_r.
Qed.

Lemma reconcile_real_moves (fs : node) (target_dir : str) (mapping : dict str) :
  moves (o_log (reconcile fs target_dir mapping false))
  = moves (snd (fst (move_loop false (resolve target_dir)
                               (build_index fs (resolve target_dir))
                               mapping fs)))
  /\ (o_status (reconcile fs target_dir mapping false) = Returned ->
      fst (fst (fst (move_loop false (resolve target_dir)
                               (build_index fs (resolve target_dir))
                               mapping fs))) = Returned).
Proof.
  unfold reconcile.
  destruct (move_loop false _ _ mapping fs) as [[[st fs'] evs] n].
  cbn [fst snd]. destruct st.
  - destruct (cleanup fs' (resolve target_dir)); cbn [o_log o_status];
      rewrite !moves_app; cbn; rewrite app_nil_r; now split.
  - cbn [o_log o_status]. rewrite !moves_app. cbn. split; [reflexivity|].
    discriminate.
Qed.

Lemma reconcile_preview (fs : node) (target_dir : str) (mapping : dict str) :
  o_status (reconcile fs target_dir mapping true) = Returned
  /\ o_fs (reconcile fs target_dir mapping true) = fs
  /\ (o_status (reconcile fs target_dir mapping false) = Returned ->
      moves (o_log (reconcile fs target_dir mapping false))
      = moves (o_log (reconcile fs target_dir mapping true)))
  /\ (exists rest,
         moves (o_log (reconcile fs target_dir mapping true))
         = moves (o_log (reconcile fs target_dir mapping false)) ++ rest).
Proof.
  destruct (reconcile_dry fs target_dir mapping) as [Hs [Hf Hm]].
  destruct (reconcile_real_moves fs target_dir mapping) as [Hr Hret].
  destruct (move_loop_dry_real (resolve target_dir)
              (build_index fs (resolve target_dir)) mapping fs fs)
    as [rest [Hpre Hall]].
  repeat split; auto.
  - intros Hok. destruct (Hall (Hret Hok)) as [-> _].
    rewrite Hm, Hr, Hpre. now rewrite app_nil_r.
  - exists rest. now rewrite Hm, Hr.
Qed.

(** C3, as the program has it: a preview leaves the tree as it is, and
    the moves it reports are those of a run that changes the tree
    whenever that run returns; a run that an error stops has made the
    first of them. *)
Theorem dry_run_plan (fs : node) (target_dir mapping_json : str) :
  o_fs (sync_target fs target_dir mapping_json true) = fs
  /\ (o_status (sync_target fs target_dir mapping_json false) = Returned ->
      moves (o_log (sync_target fs target_dir mapping_json false))
      = moves (o_log (sync_target fs target_dir mapping_json true)))
  /\ (exists rest,
         moves (o_log (sync_target fs target_dir mapping_json true))
         = moves (o_log (sync_target fs target_dir mapping_json false)) ++ rest).
Proof.
  unfold sync_target.
  destruct (lookup fs (resolve mapping_json)) as [[mf|sub]|].
  - destruct (if f_readable mf then load_mapping (f_data mf) else None)
      as [mapping|].
    + destruct (reconcile_preview fs target_dir mapping) as [_ [Hf [Hm Hp]]].
      auto.
    + repeat split. now exists [].
  - repeat split. now exists [].
  - repeat split. now exists [].
Qed.

(** C3 as stated fails when the run that changes the tree is stopped by
    an error: here a regular file [a] stands where the directory [a] is
    needed, the preview reports the move and the run makes none. *)
Lemma preview_promises_more :
  let m := [(lit "5d41402abc4b2a76b9719d911017c592", lit "a/x.txt")] in
  let fs :=
    Dir [(lit "backup",
          Dir [(lit "x.txt", File (mkFile true (lit "hello")));
               (lit "a", File (mkFile true (lit "other")))]);
         (lit "file_map.json", File (mkFile true (fst (save_mapping m))))] in
  moves (o_log (sync_target fs (lit "backup") (lit "file_map.json") true))
  = [(lit "x.txt", lit "a/x.txt")]
  /\ o_status (sync_target fs (lit "backup") (lit "file_map.json") false) = Raised
  /\ moves (o_log (sync_target fs (lit "backup") (lit "file_map.json") false)) = [].
Proof. vm_compute. repeat split; reflexivity. Qed.

(** ** Entries of a directory *)

Lemma assoc_put_same (E : entries) (n : str) (x : node) :
  assoc (ents_put E n x) n = Some x.
Proof. apply dict_get_set_same. Qed.

Lemma assoc_put_other (E : entries) (n m : str) (x : node) :
  n <> m -> assoc (ents_put E n x) m = assoc E m.
Proof. apply dict_get_set_other. Qed.

Lemma assoc_del_other (E : entries) (n m : str) :
  n <> m -> assoc (ents_del E n) m = assoc E m.
Proof.
  intros Hnm. unfold assoc.
  induction E as [|[k c] E IH]; [reflexivity|]. cbn [ents_del].
  destruct (str_eqb k n) eqn:Ekn; cbn [dict_get].
  - apply str_eqb_eq in Ekn. subst k.
    apply str_eqb_neq in Hnm. now rewrite Hnm.
  - destruct (str_eqb k m); [reflexivity|exact IH].
Qed.

Lemma assoc_none_not_in (E : entries) (n : str) :
  assoc E n = None <-> ~ In n (map fst E).
Proof. apply dict_get_none. Qed.

Lemma assoc_del_same (E : entries) (n : str) :
  names_unique (map fst E) = true -> assoc (ents_del E n) n = None.
Proof.
  rewrite names_unique_NoDup. unfold assoc.
  induction E as [|[k c] E IH]; intros Hnd; [reflexivity|].
  inversion Hnd as [|? ? Hk Hr]; subst. cbn [ents_del].
  destruct (str_eqb k n) eqn:Ekn.
  - apply str_eqb_eq in Ekn. subst k. now apply dict_get_none.
  - cbn [dict_get]. rewrite Ekn. auto.
Qed.

Lemma assoc_alter_same (E : entries) (n : str) (g : node -> node) :
  assoc (ents_alter E n g) n = option_map g (assoc E n).
Proof.
  unfold assoc. induction E as [|[k c] E IH]; [reflexivity|].
  cbn [ents_alter dict_get].
  destruct (str_eqb k n) eqn:Ekn; cbn [dict_get]; rewrite Ekn; auto.
Qed.

Lemma assoc_alter_other (E : entries) (n m : str) (g : node -> node) :
  n <> m -> assoc (ents_alter E n g) m = assoc E m.
Proof.
  intros Hnm. unfold assoc. induction E as [|[k c] E IH]; [reflexivity|].
  cbn [ents_alter dict_get].
  destruct (str_eqb k n) eqn:Ekn; cbn [dict_get].
  - apply str_eqb_eq in Ekn. subst k.
    apply str_eqb_neq in Hnm. now rewrite Hnm.
  - destruct (str_eqb k m); [reflexivity|exact IH].
Qed.

Lemma names_alter (E : entries) (n : str) (g : node -> node) :
  map fst (ents_alter E n g) = map fst E.
Proof.
  induction E as [|[k c] E IH]; [reflexivity|]. cbn [ents_alter].
  destruct (str_eqb k n); cbn [map fst]; [reflexivity|now rewrite IH].
Qed.

Lemma in_ents_del (E : entries) (n : str) (e : str * node) :
  In e (ents_del E n) -> In e E.
Proof.
  induction E as [|[k c] E IH]; [tauto|]. cbn [ents_del].
  destruct (str_eqb k n); cbn [In]; tauto.
Qed.

Lemma names_del_unique (E : entries) (n : str) :
  names_unique (map fst E) = true ->
  names_unique (map fst (ents_del E n)) = true.
Proof.
  rewrite !names_unique_NoDup.
  induction E as [|[k c] E IH]; intros Hnd; [exact Hnd|].
  inversion Hnd as [|? ? Hk Hr]; subst. cbn [ents_del].
  destruct (str_eqb k n); [exact Hr|]. cbn [map fst]. constructor; auto.
  intros Hin. apply Hk. apply in_map_iff in Hin as [e [He Hin]].
  apply in_map_iff. exists e. split; [exact He|].
  eapply in_ents_del; eauto.
Qed.

Lemma in_ents_alter (E : entries) (n : str) (g : node -> node) (e : str * node) :
  In e (ents_alter E n g) ->
  In e E \/ exists c, assoc E n = Some c /\ e = (n, g c).
Proof.
  unfold assoc. induction E as [|[k c] E IH]; [tauto|].
  cbn [ents_alter dict_get]. destruct (str_eqb k n) eqn:Ekn; cbn [In].
  - apply str_eqb_eq in Ekn. subst k. intros [<-|H]; [|tauto].
    right. eauto.
  - intros [<-|H]; [tauto|]. destruct (IH H) as [H'|H']; tauto.
Qed.

Lemma in_ents_put (E : entries) (n : str) (x : node) (e : str * node) :
  In e (ents_put E n x) -> In e E \/ e = (n, x).
Proof.
  unfold ents_put. induction E as [|[k c] E IH]; cbn [dict_set In].
  { intros [<-|[]]. now right. }
  destruct (str_eqb k n) eqn:Ekn; cbn [In].
  - apply str_eqb_eq in Ekn. subst k. intros [<-|H]; auto.
  - intros [<-|H]; [auto|]. destruct (IH H); auto.
Qed.

(** ** Well-formed trees *)

Lemma wf_dir_iff (E : entries) :
  wf (Dir E) = true
  <-> names_unique (map fst E) = true /\ forall e, In e E -> wf (snd e) = true.
Proof. rewrite wf_dir, andb_true_iff, forallb_forall. tauto. Qed.

Lemma wf_child (E : entries) (n : str) (c : node) :
  wf (Dir E) = true -> assoc E n = Some c -> wf c = true.
Proof.
  intros Hwf Hc. apply wf_dir_iff in Hwf as [_ H].
  apply assoc_in in Hc. apply (H _ Hc).
Qed.

Lemma wf_lookup (p : path) :
  forall t x, wf t = true -> lookup t p = Some x -> wf x = true.
Proof.
  induction p as [|n p IH]; intros t x Hwf Hl; cbn [lookup] in Hl.
  - now injection Hl as <-.
  - destruct t as [f|E]; [discriminate|].
    destruct (assoc E n) as [c|] eqn:Hc; [|discriminate].
    eapply IH; [|exact Hl]. eapply wf_child; eauto.
Qed.

Lemma wf_alter (E : entries) (n : str) (g : node -> node) :
  wf (Dir E) = true ->
  (forall c, assoc E n = Some c -> wf (g c) = true) ->
  wf (Dir (ents_alter E n g)) = true.
Proof.
  intros Hwf Hg. apply wf_dir_iff in Hwf as [Hu Hc]. apply wf_dir_iff.
  rewrite names_alter. split; [exact Hu|].
  intros e He. apply in_ents_alter in He as [He|[c [Hn ->]]]; cbn [snd]; auto.
Qed.

Lemma wf_del (E : entries) (n : str) :
  wf (Dir E) = true -> wf (Dir (ents_del E n)) = true.
Proof.
  intros Hwf. apply wf_dir_iff in Hwf as [Hu Hc]. apply wf_dir_iff.
  split; [now apply names_del_unique|].
  intros e He. apply Hc. eapply in_ents_del; eauto.
Qed.

Lemma wf_put (E : entries) (n : str) (x : node) :
  wf (Dir E) = true -> wf x = true -> wf (Dir (ents_put E n x)) = true.
Proof.
  intros Hwf Hx. apply wf_dir_iff in Hwf as [Hu Hc]. apply wf_dir_iff. split.
  - apply (dict_set_ok E n x). exact Hu.
  - intros e He. apply in_ents_put in He as [He| ->]; cbn [snd]; auto.
Qed.

(** ** Removing and placing entries *)

Lemma path_eqb_cons (a b : str) (p q : path) :
  path_eqb (a :: p) (b :: q) = str_eqb a b && path_eqb p q.
Proof. reflexivity. Qed.

Lemma path_eqb_neq (p q : path) : path_eqb p q = false <-> p <> q.
Proof.
  split.
  - intros H E. apply path_eqb_eq in E. congruence.
  - intros H. destruct (path_eqb p q) eqn:E; [|reflexivity].
    apply path_eqb_eq in E. contradiction.
Qed.

Lemma leaf_below (x : node) (r : path) :
  leaf x = true -> r <> [] -> lookup x r = None.
Proof.
  intros Hx Hr. destruct r as [|n r]; [congruence|].
  destruct x as [f|[|e E]]; try discriminate; reflexivity.
Qed.

(** Removing a file or an empty directory changes what stands at its
    path, and nothing else. *)
Lemma view_remove (p : path) :
  forall (t x : node) (q : path),
    wf t = true -> p <> [] -> lookup t p = Some x -> leaf x = true ->
    view (lookup (remove_at t p) q)
    = if path_eqb q p then None else view (lookup t q).
Proof.
  induction p as [|n p IH]; intros t x q Hwf Hp Hl Hx; [congruence|].
  destruct t as [f|E]; [discriminate|]. cbn [lookup] in Hl.
  destruct (assoc E n) as [c|] eqn:Hc; [|discriminate].
  destruct q as [|m q].
  { destruct p; reflexivity. }
  rewrite path_eqb_cons.
  destruct p as [|n' p].
  - cbn [lookup] in Hl. injection Hl as ->. cbn [remove_at lookup].
    destruct (str_eqb m n) eqn:Emn.
    + apply str_eqb_eq in Emn. subst m.
      apply wf_dir_iff in Hwf as [Hu _].
      rewrite (assoc_del_same _ _ Hu), Hc. cbn [andb].
      destruct q as [|k q]; [reflexivity|].
      cbn [path_eqb]. now rewrite (leaf_below x (k :: q) Hx).
    + apply str_eqb_neq in Emn.
      rewrite assoc_del_other by congruence. reflexivity.
  - change (remove_at (Dir E) (n :: n' :: p))
      with (Dir (ents_alter E n (fun c => remove_at c (n' :: p)))).
    cbn [lookup].
    destruct (str_eqb m n) eqn:Emn.
    + apply str_eqb_eq in Emn. subst m.
      rewrite assoc_alter_same, Hc. cbn [option_map andb].
      apply (IH c x q); auto; [eapply wf_child; eauto|discriminate].
    + apply str_eqb_neq in Emn.
      rewrite assoc_alter_other by congruence. reflexivity.
Qed.

Lemma wf_remove (p : path) :
  forall t, wf t = true -> wf (remove_at t p) = true.
Proof.
  induction p as [|n p IH]; intros t Hwf.
  - destruct t; exact Hwf.
  - destruct t as [f|E]; [exact Hwf|].
    destruct p as [|n' p].
    + cbn [remove_at]. now apply wf_del.
    + change (remove_at (Dir E) (n :: n' :: p))
        with (Dir (ents_alter E n (fun c => remove_at c (n' :: p)))).
      apply wf_alter; [exact Hwf|]. intros c Hc. apply IH.
      eapply wf_child; eauto.
Qed.

(** Placing a regular file in an existing directory, where no directory
    stands, changes what stands at its path, and nothing else. *)
Lemma view_put (p : path) :
  forall (t : node) (f : file) (q : path),
    p <> [] ->
    view (lookup t (dirname p)) = Some None ->
    view (lookup t p) <> Some None ->
    view (lookup (put_at t p (File f)) q)
    = if path_eqb q p then Some (Some f) else view (lookup t q).
Proof.
  induction p as [|n p IH]; intros t f q Hp Hd Hnd; [congruence|].
  destruct t as [g|E].
  { destruct p; cbn in Hd; discriminate. }
  destruct q as [|m q].
  { destruct p; reflexivity. }
  rewrite path_eqb_cons.
  destruct p as [|n' p].
  - cbn [put_at lookup].
    destruct (str_eqb m n) eqn:Emn.
    + apply str_eqb_eq in Emn. subst m. rewrite assoc_put_same. cbn [andb].
      destruct q as [|k q]; [reflexivity|]. cbn [path_eqb lookup].
      cbn [lookup] in Hnd.
      destruct (assoc E n) as [[g|E']|]; cbn in *; congruence.
    + apply str_eqb_neq in Emn.
      rewrite assoc_put_other by congruence. reflexivity.
  - change (put_at (Dir E) (n :: n' :: p) (File f))
      with (Dir (ents_alter E n (fun c => put_at c (n' :: p) (File f)))).
    change (dirname (n :: n' :: p)) with (n :: dirname (n' :: p)) in Hd.
    cbn [lookup] in *.
    destruct (str_eqb m n) eqn:Emn.
    + apply str_eqb_eq in Emn. subst m. rewrite assoc_alter_same.
      destruct (assoc E n) as [c|]; [|discriminate]. cbn [option_map andb].
      apply IH; auto. discriminate.
    + apply str_eqb_neq in Emn.
      rewrite assoc_alter_other by congruence. reflexivity.
Qed.

Lemma wf_put_at (p : path) :
  forall t x, wf t = true -> wf x = true -> wf (put_at t p x) = true.
Proof.
  induction p as [|n p IH]; intros t x Hwf Hx.
  - destruct t; exact Hwf.
  - destruct t as [f|E]; [exact Hwf|].
    destruct p as [|n' p].
    + cbn [put_at]. now apply wf_put.
    + change (put_at (Dir E) (n :: n' :: p) x)
        with (Dir (ents_alter E n (fun c => put_at c (n' :: p) x))).
      apply wf_alter; [exact Hwf|]. intros c Hc. apply IH; auto.
      eapply wf_child; eauto.
Qed.

(** ** [makedirs] *)

Lemma makedirs_empty (p : path) : exists t', makedirs (Dir []) p = Some t'.
Proof.
  induction p as [|n p [t' IH]]; cbn [makedirs]; [eauto|].
  cbn [assoc dict_get]. rewrite IH. eauto.
Qed.

Lemma makedirs_dir (p : path) :
  forall t t', makedirs t p = Some t' -> exists E, t' = Dir E.
Proof.
  intros t t' H. destruct p as [|n p]; (destruct t as [f|E]; [discriminate|]);
    cbn [makedirs] in H.
  - injection H as <-. eauto.
  - destruct (assoc E n).
    + destruct (makedirs n0 p); [|discriminate]. injection H as <-. eauto.
    + destruct (makedirs (Dir []) p); [|discriminate]. injection H as <-. eauto.
Qed.

(** [makedirs] leaves every regular file where it is, and what stood
    somewhere still stands there. *)
Lemma makedirs_view (p : path) :
  forall (t t' : node) (q : path),
    makedirs t p = Some t' ->
    view (lookup t' q) = view (lookup t q)
    \/ (lookup t q = None /\ view (lookup t' q) = Some None).
Proof.
  induction p as [|n p IH]; intros t t' q H.
  - destruct t as [f|E]; [discriminate|]. injection H as <-. now left.
  - destruct t as [f|E]; [discriminate|]. cbn [makedirs] in H.
    destruct (assoc E n) as [c|] eqn:Hc.
    + destruct (makedirs c p) as [c'|] eqn:Hm; [|discriminate].
      injection H as <-. destruct q as [|m q]; [now left|]. cbn [lookup].
      destruct (str_eqb n m) eqn:Enm.
      * apply str_eqb_eq in Enm. subst m. rewrite assoc_put_same, Hc.
        apply (IH _ _ q Hm).
      * apply str_eqb_neq in Enm. rewrite assoc_put_other by exact Enm.
        now left.
    + destruct (makedirs (Dir []) p) as [c'|] eqn:Hm; [|discriminate].
      injection H as <-. destruct q as [|m q]; [now left|]. cbn [lookup].
      destruct (str_eqb n m) eqn:Enm.
      * apply str_eqb_eq in Enm. subst m. rewrite assoc_put_same, Hc.
        destruct (IH _ _ q Hm) as [Hv|[_ Hv]].
        -- destruct q as [|k q].
           ++ right. split; [reflexivity|]. rewrite Hv. reflexivity.
           ++ left. rewrite Hv. reflexivity.
        -- right. split; [reflexivity|exact Hv].
      * apply str_eqb_neq in Enm. rewrite assoc_put_other by exact Enm.
        now left.
Qed.

Lemma makedirs_lookup_file (p : path) (t t' : node) (q : path) :
  makedirs t p = Some t' -> lookup_file t' q = lookup_file t q.
Proof.
  intros H. unfold lookup_file.
  destruct (makedirs_view p t t' q H) as [Hv|[Hn Hv]].
  - destruct (lookup t' q) as [[f|E]|], (lookup t q) as [[g|E']|];
      cbn in Hv; congruence.
  - rewrite Hn. destruct (lookup t' q) as [[f|E]|]; cbn in Hv; congruence.
Qed.

Lemma makedirs_isdir (p : path) :
  forall t t', makedirs t p = Some t' -> view (lookup t' p) = Some None.
Proof.
  induction p as [|n p IH]; intros t t' H.
  - destruct t as [f|E]; [discriminate|]. injection H as <-. reflexivity.
  - destruct t as [f|E]; [discriminate|]. cbn [makedirs] in H.
    destruct (assoc E n) as [c|] eqn:Hc.
    + destruct (makedirs c p) as [c'|] eqn:Hm; [|discriminate].
      injection H as <-. cbn [lookup]. rewrite assoc_put_same. eauto.
    + destruct (makedirs (Dir []) p) as [c'|] eqn:Hm; [|discriminate].
      injection H as <-. cbn [lookup]. rewrite assoc_put_same. eauto.
Qed.

Lemma wf_makedirs (p : path) :
  forall t t', wf t = true -> makedirs t p = Some t' -> wf t' = true.
Proof.
  induction p as [|n p IH]; intros t t' Hwf H.
  - destruct t as [f|E]; [discriminate|]. now injection H as <-.
  - destruct t as [f|E]; [discriminate|]. cbn [makedirs] in H.
    destruct (assoc E n) as [c|] eqn:Hc.
    + destruct (makedirs c p) as [c'|] eqn:Hm; [|discriminate].
      injection H as <-. apply wf_put; [exact Hwf|].
      eapply IH; [|exact Hm]. eapply wf_child; eauto.
    + destruct (makedirs (Dir []) p) as [c'|] eqn:Hm; [|discriminate].
      injection H as <-. apply wf_put; [exact Hwf|].
      eapply IH; [|exact Hm]. reflexivity.
Qed.

(** ** Sub-trees *)

Lemma lookup_app (p q : path) :
  forall t,
    lookup t (p ++ q)
    = match lookup t p with
      | Some x => lookup x q
      | None => None
      end.
Proof.
  induction p as [|n p IH]; intros t; [reflexivity|].
  cbn [app lookup]. destruct t as [f|E]; [reflexivity|].
  destruct (assoc E n); [apply IH|reflexivity].
Qed.

Lemma graft_lookup (p : path) :
  forall t y x, lookup t p = Some y -> lookup (graft t p x) p = Some x.
Proof.
  induction p as [|n p IH]; intros t y x H; [reflexivity|].
  cbn [lookup] in H. destruct t as [f|E]; [discriminate|].
  destruct (assoc E n) as [c|] eqn:Hc; [|discriminate].
  cbn [graft lookup]. rewrite assoc_alter_same, Hc. cbn [option_map]. eauto.
Qed.

Lemma ents_alter_alter (E : entries) (n : str) (g h : node -> node) :
  ents_alter (ents_alter E n g) n h = ents_alter E n (fun c => h (g c)).
Proof.
  induction E as [|[k c] E IH]; [reflexivity|]. cbn [ents_alter].
  destruct (str_eqb k n) eqn:Ekn; cbn [ents_alter]; rewrite Ekn;
    [reflexivity|now rewrite IH].
Qed.

Lemma ents_alter_ext (E : entries) (n : str) (g h : node -> node) :
  (forall c, assoc E n = Some c -> g c = h c) ->
  ents_alter E n g = ents_alter E n h.
Proof.
  unfold assoc. induction E as [|[k c] E IH]; intros H; [reflexivity|].
  cbn [ents_alter]. cbn [dict_get] in H.
  destruct (str_eqb k n); [now rewrite H|]. now rewrite IH.
Qed.

Lemma ents_alter_id (E : entries) (n : str) (g : node -> node) :
  (forall c, assoc E n = Some c -> g c = c) -> ents_alter E n g = E.
Proof.
  unfold assoc. induction E as [|[k c] E IH]; intros H; [reflexivity|].
  cbn [ents_alter]. cbn [dict_get] in H.
  destruct (str_eqb k n); [now rewrite H|]. now rewrite IH.
Qed.

Lemma graft_graft (p : path) :
  forall t y x x',
    lookup t p = Some y -> graft (graft t p x) p x' = graft t p x'.
Proof.
  induction p as [|n p IH]; intros t y x x' H; [reflexivity|].
  cbn [lookup] in H. destruct t as [f|E]; [discriminate|].
  destruct (assoc E n) as [c|] eqn:Hc; [|discriminate].
  cbn [graft]. rewrite ents_alter_alter. f_equal.
  apply ents_alter_ext. intros c' Hc'. rewrite Hc in Hc'. injection Hc' as <-.
  eapply IH; eauto.
Qed.

Lemma graft_id (p : path) :
  forall t x, lookup t p = Some x -> graft t p x = t.
Proof.
  induction p as [|n p IH]; intros t x H.
  - now injection H as <-.
  - cbn [lookup] in H. destruct t as [f|E]; [discriminate|].
    destruct (assoc E n) as [c|] eqn:Hc; [|discriminate].
    cbn [graft]. f_equal. apply ents_alter_id.
    intros c' Hc'. rewrite Hc in Hc'. injection Hc' as <-. now apply IH.
Qed.

Lemma remove_at_app (p q : path) :
  forall t x,
    lookup t p = Some x -> q <> [] ->
    remove_at t (p ++ q) = graft t p (remove_at x q).
Proof.
  induction p as [|n p IH]; intros t x H Hq.
  - now injection H as <-.
  - cbn [lookup] in H. destruct t as [f|E]; [discriminate|].
    destruct (assoc E n) as [c|] eqn:Hc; [|discriminate].
    assert (Hne : p ++ q <> []) by (destruct p, q; cbn; congruence).
    pose proof (IH c x H Hq) as IHc. clear IH.
    cbn [app graft]. destruct (p ++ q) as [|m r]; [congruence|].
    change (remove_at (Dir E) (n :: m :: r))
      with (Dir (ents_alter E n (fun c => remove_at c (m :: r)))).
    f_equal. apply ents_alter_ext. intros c' Hc'. rewrite Hc in Hc'.
    injection Hc' as <-. exact IHc.
Qed.

(** ** The clean-up *)

Lemma fold_cleanup_none (root : path) (dirs : list str) :
  fold_left (cleanup_dir root) dirs None = None.
Proof. induction dirs as [|d dirs IH]; [reflexivity|exact IH]. Qed.

Lemma fold_items_none (items : list (path * list str)) :
  fold_left (fun st item =>
               let '(root, dirs) := item in fold_left (cleanup_dir root) dirs st)
            items None = None.
Proof.
  induction items as [|[r ds] items IH]; [reflexivity|].
  cbn [fold_left]. now rewrite fold_cleanup_none.
Qed.

(** A step of the clean-up below the directory [p] works in the sub-tree
    at [p]. *)
Lemma cleanup_dir_lift (p r : path) (t x : node) (d : str) :
  lookup t p = Some x ->
  cleanup_dir (p ++ r) (Some t) d
  = option_map (graft t p) (cleanup_dir r (Some x) d).
Proof.
  intros H. unfold cleanup_dir, listdir, rmdir.
  rewrite <- !app_assoc, !(lookup_app p (r ++ [d]) t), H.
  destruct (lookup x (r ++ [d])) as [[f|[|e E]]|]; try reflexivity.
  - cbn [map option_map]. f_equal. apply remove_at_app; [exact H|].
    destruct r; discriminate.
  - cbn [map option_map]. now rewrite (graft_id _ _ _ H).
Qed.

Lemma cleanup_dirs_lift (p r : path) (dirs : list str) :
  forall t x,
    lookup t p = Some x ->
    fold_left (cleanup_dir (p ++ r)) dirs (Some t)
    = option_map (graft t p) (fold_left (cleanup_dir r) dirs (Some x)).
Proof.
  induction dirs as [|d dirs IH]; intros t x H; cbn [fold_left].
  - cbn [option_map]. now rewrite (graft_id _ _ _ H).
  - rewrite (cleanup_dir_lift p r t x d H).
    destruct (cleanup_dir r (Some x) d) as [x'|]; cbn [option_map].
    + rewrite (IH _ x' (graft_lookup _ _ _ _ H)).
      destruct (fold_left (cleanup_dir r) dirs (Some x')); cbn [option_map];
        [|reflexivity].
      f_equal. eapply graft_graft; eauto.
    + now rewrite !fold_cleanup_none.
Qed.

Lemma cleanup_items_lift (p : path) (items : list (path * list str)) :
  forall t x,
    lookup t p = Some x ->
    fold_left (fun st item =>
                 let '(root, dirs) := item in fold_left (cleanup_dir root) dirs st)
              (map (fun it => (p ++ fst it, snd it)) items) (Some t)
    = option_map (graft t p)
        (fold_left (fun st item =>
                      let '(root, dirs) := item in
                      fold_left (cleanup_dir root) dirs st)
                   items (Some x)).
Proof.
  induction items as [|[r ds] items IH]; intros t x H; cbn [map fold_left fst snd].
  - cbn [option_map]. now rewrite (graft_id _ _ _ H).
  - rewrite (cleanup_dirs_lift p r ds t x H).
    destruct (fold_left (cleanup_dir r) ds (Some x)) as [x'|]; cbn [option_map].
    + rewrite (IH _ x' (graft_lookup _ _ _ _ H)).
      match goal with
      | |- option_map _ ?o = _ => destruct o; cbn [option_map]; [|reflexivity]
      end.
      f_equal. eapply graft_graft; eauto.
    + now rewrite !fold_items_none.
Qed.

Lemma walk_up_prefix (t : node) :
  forall root,
    walk_up root t = map (fun it => (root ++ fst it, snd it)) (walk_up [] t).
Proof.
  induction t as [f|E IH] using node_induction; intros root; [reflexivity|].
  rewrite !walk_up_dir, map_app. cbn [map fst snd]. rewrite app_nil_r.
  f_equal. induction E as [|[n c] E IHE]; [reflexivity|].
  inversion IH as [|? ? Hc Hrest]; subst. cbn [flat_map fst snd] in *.
  rewrite map_app. f_equal; [|now apply IHE].
  rewrite (Hc (root ++ [n])), (Hc ([] ++ [n])), map_map.
  apply map_ext. intros [r ds]. cbn [fst snd app]. now rewrite <- app_assoc.
Qed.

Lemma prune_dir (E : entries) :
  prune (Dir E)
  = Dir (flat_map (fun e => match prune (snd e) with
                            | Dir [] => []
                            | c' => [(fst e, c')]
                            end) E).
Proof.
  cbn [prune]. f_equal.
  induction E as [|[n c] E IH]; [reflexivity|].
  cbn [flat_map fst snd]. rewrite <- IH.
  destruct (prune c) as [f|[|e E']]; reflexivity.
Qed.

Lemma prune_is_dir (E : entries) : exists E', prune (Dir E) = Dir E'.
Proof. rewrite prune_dir. eauto. Qed.

Lemma assoc_app_fresh (P S : entries) (n : str) :
  ~ In n (map fst P) -> assoc (P ++ S) n = assoc S n.
Proof.
  unfold assoc. induction P as [|[k c] P IH]; intros H; [reflexivity|].
  cbn [app dict_get]. destruct (str_eqb k n) eqn:Ekn.
  - apply str_eqb_eq in Ekn. subst k. exfalso. apply H. now left.
  - apply IH. intros Hin. apply H. now right.
Qed.

Lemma ents_alter_app_fresh (P S : entries) (n : str) (g : node -> node) :
  ~ In n (map fst P) -> ents_alter (P ++ S) n g = P ++ ents_alter S n g.
Proof.
  induction P as [|[k c] P IH]; intros H; [reflexivity|].
  cbn [app ents_alter]. destruct (str_eqb k n) eqn:Ekn.
  - apply str_eqb_eq in Ekn. subst k. exfalso. apply H. now left.
  - rewrite IH; [reflexivity|]. intros Hin. apply H. now right.
Qed.

Lemma ents_del_app_fresh (P S : entries) (n : str) :
  ~ In n (map fst P) -> ents_del (P ++ S) n = P ++ ents_del S n.
Proof.
  induction P as [|[k c] P IH]; intros H; [reflexivity|].
  cbn [app ents_del]. destruct (str_eqb k n) eqn:Ekn.
  - apply str_eqb_eq in Ekn. subst k. exfalso. apply H. now left.
  - rewrite IH; [reflexivity|]. intros Hin. apply H. now right.
Qed.

Lemma NoDup_app_head {A} (P : list A) (n : A) (S : list A) :
  NoDup (P ++ n :: S) -> ~ In n P /\ NoDup ((P ++ [n]) ++ S) /\ NoDup (P ++ S).
Proof.
  intros H. split; [|split].
  - apply NoDup_remove_2 in H. intros Hin. apply H. apply in_or_app. now left.
  - now rewrite <- app_assoc.
  - now apply NoDup_remove_1 in H.
Qed.

(** The walk below the entries of a directory prunes each of them. *)
Lemma cleanup_children (S : entries) :
  forall P : entries,
    NoDup (map fst (P ++ S)) ->
    Forall (fun e =>
              wf (snd e) = true ->
              fold_left (fun st item =>
                           let '(root, dirs) := item in
                           fold_left (cleanup_dir root) dirs st)
                        (walk_up [] (snd e)) (Some (snd e))
              = Some (prune (snd e))) S ->
    (forall e, In e S -> wf (snd e) = true) ->
    fold_left (fun st item =>
                 let '(root, dirs) := item in fold_left (cleanup_dir root) dirs st)
              (flat_map (fun e => walk_up ([] ++ [fst e]) (snd e)) S)
              (Some (Dir (P ++ S)))
    = Some (Dir (P ++ map (fun e => (fst e, prune (snd e))) S)).
Proof.
  induction S as [|[n c] S IHS]; intros P Hnd IH Hwf; [reflexivity|].
  inversion IH as [|? ? Hc Hrest]; subst. cbn [fst snd] in Hc.
  rewrite map_app in Hnd. cbn [map fst] in Hnd.
  destruct (NoDup_app_head _ _ _ Hnd) as [Hfresh [Hnd' _]].
  cbn [flat_map fst snd app map]. rewrite fold_left_app.
  rewrite (walk_up_prefix c [n]).
  assert (Hl : lookup (Dir (P ++ (n, c) :: S)) [n] = Some c).
  { cbn [lookup]. rewrite (assoc_app_fresh _ _ _ Hfresh).
    unfold assoc. cbn [dict_get]. now rewrite str_eqb_refl. }
  rewrite (cleanup_items_lift [n] _ _ c Hl).
  rewrite (Hc (Hwf _ (or_introl eq_refl))). cbn [option_map graft].
  rewrite (ents_alter_app_fresh _ _ _ _ Hfresh). cbn [ents_alter].
  rewrite str_eqb_refl.
  specialize (IHS (P ++ [(n, prune c)])).
  rewrite <- !app_assoc in IHS. cbn [app] in IHS. apply IHS.
  - rewrite map_app. cbn [map fst]. exact Hnd.
  - exact Hrest.
  - intros e He. apply Hwf. now right.
Qed.

(** The last item of the walk removes the entries that are empty
    directories by then. *)
Lemma cleanup_top (S : entries) :
  forall Q : entries,
    NoDup (map fst (Q ++ S)) ->
    fold_left (cleanup_dir []) (dir_names S)
              (Some (Dir (Q ++ map (fun e => (fst e, prune (snd e))) S)))
    = Some (Dir (Q ++ flat_map (fun e => match prune (snd e) with
                                         | Dir [] => []
                                         | c' => [(fst e, c')]
                                         end) S)).
Proof.
  induction S as [|[n c] S IHS]; intros Q Hnd; [reflexivity|].
  rewrite map_app in Hnd. cbn [map fst] in Hnd.
  destruct (NoDup_app_head _ _ _ Hnd) as [Hfresh [Hnd1 Hnd2]].
  cbn [map flat_map fst snd].
  assert (Hstep : forall x,
             (Q ++ [(n, x)]) ++ map (fun e => (fst e, prune (snd e))) S
             = Q ++ (n, x) :: map (fun e => (fst e, prune (snd e))) S).
  { intros x. now rewrite <- app_assoc. }
  destruct c as [f|sub].
  - change (dir_names ((n, File f) :: S)) with (dir_names S).
    cbn [prune app]. rewrite <- Hstep, IHS.
    + now rewrite <- app_assoc.
    + rewrite !map_app. cbn [map fst]. exact Hnd1.
  - change (dir_names ((n, Dir sub) :: S)) with (n :: dir_names S).
    cbn [fold_left]. unfold cleanup_dir at 2. unfold listdir, rmdir.
    cbn [app lookup]. rewrite (assoc_app_fresh _ _ _ Hfresh).
    unfold assoc at 1 2. cbn [dict_get]. rewrite str_eqb_refl.
    destruct (prune_is_dir sub) as [X HX]. rewrite HX.
    destruct X as [|e X]; cbn [map].
    + cbn [remove_at]. rewrite (ents_del_app_fresh _ _ _ Hfresh).
      cbn [ents_del]. rewrite str_eqb_refl. cbn [app].
      apply IHS. now rewrite map_app.
    + rewrite <- Hstep, IHS.
      * now rewrite <- app_assoc.
      * rewrite !map_app. cbn [map fst]. exact Hnd1.
Qed.

(** Run on a tree from its top, the clean-up loops compute [prune]. *)
Lemma cleanup_prune (t : node) :
  wf t = true ->
  fold_left (fun st item =>
               let '(root, dirs) := item in fold_left (cleanup_dir root) dirs st)
            (walk_up [] t) (Some t)
  = Some (prune t).
Proof.
  induction t as [f|E IH] using node_induction; intros Hwf; [reflexivity|].
  apply wf_dir_iff in Hwf as [Hu Hc]. apply names_unique_NoDup in Hu.
  rewrite walk_up_dir, fold_left_app.
  pose proof (cleanup_children E [] Hu IH Hc) as Hch.
  pose proof (cleanup_top E [] Hu) as Htop.
  change ([] ++ E) with E in Hch. cbn [app] in Htop.
  rewrite Hch. cbn [fold_left app]. rewrite Htop. now rewrite prune_dir.
Qed.

Lemma cleanup_graft (fs : node) (target : path) (t : node) :
  wf fs = true -> lookup fs target = Some t ->
  cleanup fs target = Some (graft fs target (prune t)).
Proof.
  intros Hwf Hl. unfold cleanup, walk_up_from. rewrite Hl.
  rewrite walk_up_prefix, (cleanup_items_lift target _ fs t Hl).
  rewrite cleanup_prune; [reflexivity|]. eapply wf_lookup; eauto.
Qed.

(** The clean-up of a well-formed tree never raises. *)
Lemma cleanup_total (fs : node) (target : path) :
  wf fs = true -> exists fs', cleanup fs target = Some fs'.
Proof.
  intros Hwf. destruct (lookup fs target) as [t|] eqn:Hl.
  - rewrite (cleanup_graft _ _ _ Hwf Hl). eauto.
  - unfold cleanup, walk_up_from. rewrite Hl. cbn. eauto.
Qed.

(** ** What the clean-up leaves *)

Lemma prune_file_inv (c : node) (f : file) : prune c = File f -> c = File f.
Proof.
  destruct c as [g|E]; [now intros [= ->]|].
  destruct (prune_is_dir E) as [E' ->]. discriminate.
Qed.

(** Below a directory that the clean-up empties there is no regular
    file: everything below it is emptied too. *)
Lemma prune_empty_below (p : path) :
  forall c x, prune c = Dir [] -> lookup c p = Some x -> prune x = Dir [].
Proof.
  induction p as [|n p IH]; intros c x Hc Hl.
  - now injection Hl as <-.
  - cbn [lookup] in Hl. destruct c as [f|E]; [discriminate|].
    destruct (assoc E n) as [c1|] eqn:H1; [|discriminate].
    apply (IH c1 x); [|exact Hl].
    apply assoc_in in H1. rewrite prune_dir in Hc. injection Hc as Hc.
    assert (Hk : forall e, In e E ->
                           match prune (snd e) with
                           | Dir [] => []
                           | c' => [(fst e, c')]
                           end = []).
    { clear -Hc. induction E as [|e E IHE]; intros e' [].
      - subst e'. cbn [flat_map] in Hc. now apply app_eq_nil in Hc.
      - apply IHE; [|assumption]. cbn [flat_map] in Hc.
        now apply app_eq_nil in Hc. }
    specialize (Hk _ H1). cbn [fst snd] in Hk.
    destruct (prune c1) as [f|[|e X]]; [discriminate|reflexivity|discriminate].
Qed.

Lemma names_pruned (E : entries) (n : str) :
  In n (map fst (flat_map (fun e => match prune (snd e) with
                                    | Dir [] => []
                                    | c' => [(fst e, c')]
                                    end) E)) ->
  In n (map fst E).
Proof.
  induction E as [|[m c] E IH]; [tauto|].
  cbn [flat_map fst snd]. rewrite map_app, in_app_iff. cbn [map fst In].
  intros [H|H]; [|auto]. left.
  destruct (prune c) as [f|[|e X]]; cbn in H; tauto.
Qed.

Lemma assoc_pruned (E : entries) (n : str) :
  names_unique (map fst E) = true ->
  assoc (flat_map (fun e => match prune (snd e) with
                            | Dir [] => []
                            | c' => [(fst e, c')]
                            end) E) n
  = match assoc E n with
    | Some c => match prune c with
                | Dir [] => None
                | c' => Some c'
                end
    | None => None
    end.
Proof.
  rewrite names_unique_NoDup. unfold assoc.
  induction E as [|[m c] E IH]; intros Hnd; [reflexivity|].
  inversion Hnd as [|? ? Hm Hr]; subst.
  cbn [flat_map fst snd dict_get].
  destruct (str_eqb m n) eqn:Emn.
  - apply str_eqb_eq in Emn. subst m.
    destruct (prune c) as [f|[|e X]]; cbn [app dict_get];
      rewrite ?str_eqb_refl; try reflexivity.
    apply dict_get_none. intros Hin. apply Hm. now apply names_pruned.
  - rewrite <- (IH Hr).
    destruct (prune c) as [f|[|e X]]; cbn [app dict_get]; rewrite ?Emn;
      reflexivity.
Qed.

(** Below the top, the clean-up keeps exactly what it does not empty. *)
Lemma lookup_prune (p : path) :
  forall t,
    wf t = true -> p <> [] ->
    lookup (prune t) p
    = match lookup t p with
      | Some x => match prune x with
                  | Dir [] => None
                  | x' => Some x'
                  end
      | None => None
      end.
Proof.
  induction p as [|n p IH]; intros t Hwf Hp; [congruence|].
  destruct t as [f|E]; [reflexivity|].
  rewrite prune_dir. cbn [lookup].
  pose proof Hwf as Hwf'. apply wf_dir_iff in Hwf' as [Hu _].
  rewrite (assoc_pruned _ _ Hu).
  destruct (assoc E n) as [c|] eqn:Hc; [|reflexivity].
  assert (Hwc : wf c = true) by (eapply wf_child; eauto).
  destruct (prune c) as [f|[|e X]] eqn:Hpc.
  - apply prune_file_inv in Hpc. subst c.
    destruct p; [reflexivity|reflexivity].
  - destruct (lookup c p) as [x|] eqn:Hx; [|reflexivity].
    now rewrite (prune_empty_below _ _ _ Hpc Hx).
  - destruct p as [|m p].
    + cbn [lookup]. now rewrite Hpc.
    + rewrite <- Hpc. apply IH; [exact Hwc|discriminate].
Qed.

Lemma file_not_pruned (x : node) (q : path) (f : file) :
  lookup x q = Some (File f) -> prune x <> Dir [].
Proof.
  intros Hl Hp. pose proof (prune_empty_below _ _ _ Hp Hl). discriminate.
Qed.

Lemma kept_has_file (x : node) :
  wf x = true -> prune x <> Dir [] ->
  exists q f, lookup x q = Some (File f).
Proof.
  induction x as [f|E IH] using node_induction; intros Hwf Hp.
  - exists [], f. reflexivity.
  - rewrite prune_dir in Hp. apply wf_dir_iff in Hwf as [Hu Hc].
    rewrite Forall_forall in IH.
    assert (Hex : exists e, In e E /\ prune (snd e) <> Dir []).
    { clear -Hp. induction E as [|e E IHE]; [cbn in Hp; congruence|].
      cbn [flat_map] in Hp.
      destruct (prune (snd e)) as [f|[|e' X]] eqn:He.
      - exists e. split; [now left|]. rewrite He. discriminate.
      - destruct IHE as [e0 [Hin H0]]; [exact Hp|]. exists e0. split; auto.
        now right.
      - exists e. split; [now left|]. rewrite He. discriminate. }
    destruct Hex as [[n c] [Hin Hne]]. cbn [snd] in Hne.
    destruct (IH _ Hin (Hc _ Hin) Hne) as [q [f Hl]].
    exists (n :: q), f. cbn [lookup]. now rewrite (in_assoc _ _ _ Hu Hin).
Qed.

Lemma lookup_file_prune (t : node) (p : path) :
  wf t = true -> lookup_file (prune t) p = lookup_file t p.
Proof.
  intros Hwf. unfold lookup_file. destruct p as [|n p].
  - cbn [lookup]. destruct t as [f|E]; [reflexivity|].
    now destruct (prune_is_dir E) as [E' ->].
  - rewrite lookup_prune by (auto; discriminate).
    destruct (lookup t (n :: p)) as [[f|E]|]; [reflexivity| |reflexivity].
    destruct (prune_is_dir E) as [E' ->]. now destruct E'.
Qed.

(** The clean-up loops return, and the tree they leave is the tree with
    the target pruned deepest first.  Below the target no empty
    directory is left; a directory goes exactly when no regular file
    lies anywhere below it, so a directory that held only directories
    that went is gone too; the regular files stand where they stood. *)
Lemma cleanup_leaves_pruned (fs : node) (target : path) (t : node) :
  wf fs = true ->
  lookup fs target = Some t ->
  cleanup fs target = Some (graft fs target (prune t))
  /\ lookup (graft fs target (prune t)) target = Some (prune t)
  /\ (forall p, p <> [] -> lookup (prune t) p <> Some (Dir []))
  /\ (forall p E,
         p <> [] -> lookup t p = Some (Dir E) ->
         ((exists E', lookup (prune t) p = Some (Dir E'))
          <-> exists q f, lookup t (p ++ q) = Some (File f)))
  /\ (forall p, lookup_file (prune t) p = lookup_file t p).
Proof.
  intros Hwf Hl.
  assert (Hwt : wf t = true) by (eapply wf_lookup; eauto).
  split; [now apply cleanup_graft|].
  split; [eapply graft_lookup; eauto|].
  split; [|split].
  - intros p Hp H. rewrite (lookup_prune p t Hwt Hp) in H.
    destruct (lookup t p) as [x|]; [|discriminate].
    destruct (prune x) as [f|[|e X]]; discriminate.
  - intros p E Hp HE. rewrite (lookup_prune p t Hwt Hp), HE.
    assert (HwE : wf (Dir E) = true) by (eapply wf_lookup; eauto).
    split.
    + intros [E' H].
      destruct (kept_has_file (Dir E) HwE) as [q [f Hq]].
      { intros Hp'. rewrite Hp' in H. discriminate. }
      exists q, f. now rewrite lookup_app, HE.
    + intros [q [f Hq]]. rewrite lookup_app, HE in Hq.
      pose proof (file_not_pruned _ _ _ Hq) as Hne.
      destruct (prune_is_dir E) as [E' HE']. rewrite HE' in *.
      destruct E' as [|e X]; [congruence|]. eauto.
  - intros p. now apply lookup_file_prune.
Qed.

(** ** The index of the target *)

Lemma lookup_file_view (t : node) (q : path) :
  lookup_file t q
  = match view (lookup t q) with
    | Some (Some f) => Some f
    | _ => None
    end.
Proof. unfold lookup_file, view. now destruct (lookup t q) as [[f|E]|]. Qed.

Lemma lookup_file_some (t : node) (q : path) (f : file) :
  lookup_file t q = Some f <-> lookup t q = Some (File f).
Proof.
  unfold lookup_file. destruct (lookup t q) as [[g|E]|]; split; congruence.
Qed.

Lemma build_index_files (fs : node) (target : path) :
  build_index fs target
  = fold_left (fun idx e =>
                 match get_fast_md5 (snd e) with
                 | Some h => dict_set idx h (fst e)
                 | None => idx
                 end)
              (match lookup fs target with
               | Some t => walk_files target t
               | None => []
               end) [].
Proof.
  unfold build_index, walk_from. destruct (lookup fs target) as [t|]; [|reflexivity].
  unfold walk_files. rewrite fold_left_flat_map.
  apply fold_left_ext_in. intros a [[r d] fl] _. cbn [fst snd].
  rewrite fold_left_map. apply fold_left_ext_in. intros a' [n f] _. reflexivity.
Qed.

Lemma index_fold_sound (l : list (path * file)) :
  forall (acc : dict path) (h : str) (p : path),
    dict_get (fold_left (fun idx e =>
                           match get_fast_md5 (snd e) with
                           | Some h => dict_set idx h (fst e)
                           | None => idx
                           end) l acc) h = Some p ->
    dict_get acc h = Some p
    \/ exists f, In (p, f) l /\ get_fast_md5 f = Some h.
Proof.
  induction l as [|[q g] l IH]; intros acc h p H; cbn [fold_left] in H.
  - now left.
  - apply IH in H as [H|[f [Hin Hf]]].
    + cbn [fst snd] in H. destruct (get_fast_md5 g) as [h'|] eqn:Hg; [|now left].
      destruct (str_eqb h' h) eqn:E.
      * apply str_eqb_eq in E. subst h'. rewrite dict_get_set_same in H.
        injection H as <-. right. exists g. split; [now left|exact Hg].
      * apply str_eqb_neq in E. rewrite dict_get_set_other in H by exact E.
        now left.
    + right. exists f. split; [now right|exact Hf].
Qed.

Lemma index_fold_mem (l : list (path * file)) :
  forall (acc : dict path) (p : path) (f : file) (h : str),
    (In (p, f) l /\ get_fast_md5 f = Some h) \/ dict_mem acc h = true ->
    dict_mem (fold_left (fun idx e =>
                           match get_fast_md5 (snd e) with
                           | Some h => dict_set idx h (fst e)
                           | None => idx
                           end) l acc) h = true.
Proof.
  induction l as [|[q g] l IH]; intros acc p f h H; cbn [fold_left].
  - destruct H as [[[] _]|H]. exact H.
  - apply (IH _ p f). cbn [fst snd]. destruct H as [[[Heq|Hin] Hf]|H].
    + injection Heq as -> ->. right. rewrite Hf.
      now rewrite dict_mem_set, str_eqb_refl.
    + left. auto.
    + right. destruct (get_fast_md5 g); [|exact H].
      rewrite dict_mem_set, H. apply orb_true_r.
Qed.

(** The files of the walk from [target] are the regular files below
    [target]. *)
Lemma walked_is_below (fs : node) (target q : path) (f : file) :
  wf fs = true ->
  In (q, f) (match lookup fs target with
             | Some t => walk_files target t
             | None => []
             end) ->
  under target q /\ lookup_file fs q = Some f.
Proof.
  intros Hwf Hin. destruct (lookup fs target) as [t|] eqn:Ht; [|contradiction].
  destruct (walk_files_lookup t target q f (wf_lookup _ _ _ Hwf Ht) Hin)
    as [r [-> [Hr Hl]]].
  split; [exists r; auto|].
  apply lookup_file_some. now rewrite lookup_app, Ht.
Qed.

Lemma below_is_walked (fs : node) (target q : path) (f : file) :
  under target q -> lookup_file fs q = Some f ->
  In (q, f) (match lookup fs target with
             | Some t => walk_files target t
             | None => []
             end).
Proof.
  intros [r [Hr ->]] Hl. apply lookup_file_some in Hl.
  rewrite lookup_app in Hl. destruct (lookup fs target) as [t|]; [|discriminate].
  now apply lookup_in_walk_files.
Qed.

(** An entry of the index names a file below the target that has the
    fingerprint. *)
Lemma index_sound (fs : node) (target : path) (h : str) (p : path) :
  wf fs = true ->
  dict_get (build_index fs target) h = Some p ->
  under target p
  /\ exists f, lookup_file fs p = Some f /\ get_fast_md5 f = Some h.
Proof.
  intros Hwf H. rewrite build_index_files in H.
  apply index_fold_sound in H as [H|[f [Hin Hf]]]; [discriminate|].
  destruct (walked_is_below _ _ _ _ Hwf Hin) as [Hu Hl]. eauto.
Qed.

(** Every fingerprint found below the target is a key of the index. *)
Lemma index_complete (fs : node) (target q : path) (f : file) (h : str) :
  under target q -> lookup_file fs q = Some f -> get_fast_md5 f = Some h ->
  dict_mem (build_index fs target) h = true.
Proof.
  intros Hu Hl Hf. rewrite build_index_files.
  apply (index_fold_mem _ _ q f). left. split; [|exact Hf].
  now apply below_is_walked.
Qed.

Lemma NoDup_app_disjoint {A} (l1 l2 : list A) (a : A) :
  NoDup (l1 ++ l2) -> In a l1 -> In a l2 -> False.
Proof.
  induction l1 as [|x l1 IH]; intros Hnd H1 H2; [contradiction|].
  cbn [app] in Hnd. inversion Hnd as [|? ? Hx Hr]; subst.
  destruct H1 as [->|H1].
  - apply Hx. apply in_or_app. now right.
  - now apply IH.
Qed.

Lemma NoDup_flat_map_inj {A B} (g : A -> list B) (l : list A) (a b : A) (h : B) :
  NoDup (flat_map g l) -> In a l -> In b l -> g a = [h] -> g b = [h] ->
  a = b.
Proof.
  intros Hnd Ha Hb Hga Hgb.
  induction l as [|x l IH]; [contradiction|].
  cbn [flat_map] in Hnd.
  assert (Hin : forall y, In y l -> g y = [h] -> In h (flat_map g l)).
  { intros y Hy Hgy. apply in_flat_map. exists y. split; [exact Hy|].
    rewrite Hgy. now left. }
  destruct Ha as [->|Ha], Hb as [->|Hb].
  - reflexivity.
  - exfalso. apply (NoDup_app_disjoint _ _ h Hnd).
    + rewrite Hga. now left.
    + eapply Hin; eauto.
  - exfalso. apply (NoDup_app_disjoint _ _ h Hnd).
    + rewrite Hgb. now left.
    + eapply Hin; eauto.
  - apply IH; auto. eapply NoDup_app_remove_l; eauto.
Qed.

(** The test on the list of fingerprints gives the property of the
    paths. *)
Lemma distinct_fingerprints_below (fs : node) (target : path) :
  wf fs = true -> distinct_fingerprints fs target = true ->
  distinct_below fs target.
Proof.
  intros Hwf Hd q1 q2 f1 f2 h Hu1 Hu2 Hl1 Hl2 Hf1 Hf2.
  unfold distinct_fingerprints, fingerprints in Hd.
  apply names_unique_NoDup in Hd.
  pose proof (below_is_walked _ _ _ _ Hu1 Hl1) as Hin1.
  pose proof (below_is_walked _ _ _ _ Hu2 Hl2) as Hin2.
  assert (H : (q1, f1) = (q2, f2)).
  { apply (NoDup_flat_map_inj _ _ (q1, f1) (q2, f2) h Hd Hin1 Hin2);
      cbn [snd]; [now rewrite Hf1|now rewrite Hf2]. }
  congruence.
Qed.

(** With distinct fingerprints the index names the file that has the
    fingerprint. *)
Lemma index_get (fs : node) (target q : path) (f : file) (h : str) :
  wf fs = true -> distinct_below fs target ->
  under target q -> lookup_file fs q = Some f -> get_fast_md5 f = Some h ->
  dict_get (build_index fs target) h = Some q.
Proof.
  intros Hwf Hd Hu Hl Hf.
  pose proof (index_complete _ _ _ _ _ Hu Hl Hf) as Hm. unfold dict_mem in Hm.
  destruct (dict_get (build_index fs target) h) as [p|] eqn:Hg; [|discriminate].
  destruct (index_sound _ _ _ _ Hwf Hg) as [Hup [g [Hlp Hgp]]].
  f_equal. eapply Hd; eauto.
Qed.

(** ** One move *)

Lemma view_dir (t : node) (q : path) :
  view (lookup t q) = Some None <-> exists E, lookup t q = Some (Dir E).
Proof.
  destruct (lookup t q) as [[f|E]|]; cbn; split;
    try discriminate; try (intros [E' H]; discriminate); eauto.
Qed.

(** A move whose destination is free takes the file from its old path to
    the new one and leaves every other file where it is. *)
Lemma one_move (fs fs1 fs2 : node) (old new : path) (f : file) :
  wf fs = true ->
  makedirs fs (dirname new) = Some fs1 ->
  lookup fs1 new = None ->
  lookup_file fs old = Some f ->
  shutil_move fs1 old new = Some fs2 ->
  wf fs2 = true
  /\ forall q,
      lookup_file fs2 q
      = if path_eqb q new then Some f
        else if path_eqb q old then None
             else lookup_file fs q.
Proof.
  intros Hwf Hmk Hfree Hold Hmv.
  pose proof (wf_makedirs _ _ _ Hwf Hmk) as Hwf1.
  assert (Hold1 : lookup fs1 old = Some (File f)).
  { apply lookup_file_some. now rewrite (makedirs_lookup_file _ _ _ old Hmk). }
  unfold shutil_move in Hmv. rewrite Hfree in Hmv.
  unfold os_rename in Hmv. rewrite Hold1 in Hmv.
  destruct new as [|n0 new0] eqn:Hnew; [discriminate|]. rewrite <- Hnew in *.
  destruct (lookup fs1 (dirname new)) as [[g|E]|] eqn:Hdir; try discriminate.
  injection Hmv as <-.
  assert (Hne : new <> []) by (rewrite Hnew; discriminate).
  assert (Hold_ne : old <> []).
  { intros ->. cbn in Hold1. injection Hold1 as ->.
    destruct (makedirs_dir _ _ _ Hmk) as [E' HE']. discriminate. }
  assert (Hrm : forall q,
             view (lookup (remove_at fs1 old) q)
             = if path_eqb q old then None else view (lookup fs1 q)).
  { intros q. apply (view_remove old fs1 (File f) q); auto. }
  assert (Hput : forall q,
             view (lookup (put_at (remove_at fs1 old) new (File f)) q)
             = if path_eqb q new then Some (Some f)
               else view (lookup (remove_at fs1 old) q)).
  { intros q. apply view_put; [exact Hne| |].
    - rewrite Hrm, Hdir.
      destruct (path_eqb (dirname new) old) eqn:Edo; [|reflexivity].
      apply path_eqb_eq in Edo. rewrite Edo in Hdir. congruence.
    - rewrite Hrm, Hfree. destruct (path_eqb new old); discriminate. }
  split.
  - apply wf_put_at; [|reflexivity]. now apply wf_remove.
  - intros q. rewrite lookup_file_view, Hput, Hrm.
    destruct (path_eqb q new); [reflexivity|].
    destruct (path_eqb q old); [reflexivity|].
    rewrite <- lookup_file_view. exact (makedirs_lookup_file _ _ _ q Hmk).
Qed.

(** ** The clean-up keeps the files *)

Lemma cleanup_dir_keeps (root : path) (fs fs' : node) (d : str) :
  wf fs = true ->
  cleanup_dir root (Some fs) d = Some fs' ->
  wf fs' = true /\ forall q, lookup_file fs' q = lookup_file fs q.
Proof.
  intros Hwf H. unfold cleanup_dir, listdir, rmdir in H.
  destruct (lookup fs (root ++ [d])) as [[f|[|e E]]|] eqn:Hl;
    cbn [map] in H; try discriminate.
  - injection H as <-. split; [now apply wf_remove|].
    intros q. rewrite !lookup_file_view.
    rewrite (view_remove (root ++ [d]) fs (Dir []) q Hwf); auto.
    + destruct (path_eqb q (root ++ [d])) eqn:E; [|reflexivity].
      apply path_eqb_eq in E. subst q. now rewrite Hl.
    + destruct root; discriminate.
  - injection H as <-. auto.
Qed.

Lemma cleanup_dirs_keeps (root : path) (dirs : list str) :
  forall fs fs',
    wf fs = true ->
    fold_left (cleanup_dir root) dirs (Some fs) = Some fs' ->
    wf fs' = true /\ forall q, lookup_file fs' q = lookup_file fs q.
Proof.
  induction dirs as [|d dirs IH]; intros fs fs' Hwf H; cbn [fold_left] in H.
  - injection H as <-. auto.
  - destruct (cleanup_dir root (Some fs) d) as [fs1|] eqn:H1.
    + destruct (cleanup_dir_keeps _ _ _ _ Hwf H1) as [Hwf1 Hk1].
      destruct (IH _ _ Hwf1 H) as [Hwf' Hk]. split; [exact Hwf'|].
      intros q. now rewrite Hk, Hk1.
    + rewrite fold_cleanup_none in H. discriminate.
Qed.

Lemma cleanup_keeps (fs fs' : node) (target : path) :
  wf fs = true -> cleanup fs target = Some fs' ->
  wf fs' = true /\ forall q, lookup_file fs' q = lookup_file fs q.
Proof.
  unfold cleanup. generalize (walk_up_from fs target). intros items.
  revert fs. induction items as [|[r ds] items IH]; intros fs Hwf H;
    cbn [fold_left] in H.
  - injection H as <-. auto.
  - destruct (fold_left (cleanup_dir r) ds (Some fs)) as [fs1|] eqn:H1.
    + destruct (cleanup_dirs_keeps _ _ _ _ Hwf H1) as [Hwf1 Hk1].
      destruct (IH _ Hwf1 H) as [Hwf' Hk]. split; [exact Hwf'|].
      intros q. now rewrite Hk, Hk1.
    + rewrite fold_items_none in H. discriminate.
Qed.

(** ** The loop of the moves *)

Lemma dict_ok_cons {V} (h : str) (v : V) (items : dict V) :
  dict_ok ((h, v) :: items) = true ->
  ~ In h (keys items) /\ dict_ok items = true.
Proof.
  unfold dict_ok. rewrite !names_unique_NoDup. cbn [keys map fst].
  intros H. inversion H; subst. auto.
Qed.

Lemma in_keys {V} (h : str) (v : V) (items : dict V) :
  In (h, v) items -> In h (keys items).
Proof. intros H. change h with (fst (h, v)). now apply in_map. Qed.

Lemma under_not_top (fs : node) (target q : path) (x : node) (r : path) :
  under target q -> lookup fs q = Some x -> lookup fs (target ++ r) = None ->
  r <> [].
Proof.
  intros [r' [Hr' ->]] Hq Hn ->. rewrite app_nil_r in Hn.
  rewrite lookup_app, Hn in Hq. discriminate.
Qed.

Section MoveLoop.

Variable target : path.
Variable idx : dict path.
Hypothesis idx_under : forall h p, dict_get idx h = Some p -> under target p.

(** What a run that returns and overwrites nothing leaves: every entry
    of the mapping that was matched has its file at its destination,
    a file that no entry names as its source stays, and nothing
    appears below the target that was not there. *)
Lemma move_loop_post (items : dict str) :
  forall (fs fs' : node) (evs : list event) (n : Z),
    wf fs = true ->
    dict_ok items = true ->
    (forall h rel old,
        In (h, rel) items -> dict_get idx h = Some old ->
        exists f, lookup_file fs old = Some f /\ get_fast_md5 f = Some h) ->
    distinct_below fs target ->
    unobstructed target idx items fs = true ->
    move_loop false target idx items fs = (Returned, fs', evs, n) ->
    wf fs' = true
    /\ distinct_below fs' target
    /\ (forall h rel old,
           In (h, rel) items -> dict_get idx h = Some old ->
           exists f,
             lookup_file fs' (target ++ resolve rel) = Some f
             /\ get_fast_md5 f = Some h)
    /\ (forall q f,
           lookup_file fs q = Some f ->
           (forall h rel, In (h, rel) items -> dict_get idx h <> Some q) ->
           lookup_file fs' q = Some f)
    /\ (forall q f,
           under target q -> lookup_file fs' q = Some f ->
           exists q0, under target q0 /\ lookup_file fs q0 = Some f).
Proof.
  induction items as [|[h rel] items IH];
    intros fs fs' evs n Hwf Hok Hsrc Hdist Hfree Hrun.
  { cbn in Hrun. injection Hrun as <- <- <-.
    repeat split; auto.
    - intros h rel old [].
    - intros q f Hu Hl. eauto. }
  apply dict_ok_cons in Hok as [Hfresh Hok'].
  assert (Hsrc' : forall h' rel' old',
             In (h', rel') items -> dict_get idx h' = Some old' ->
             exists f, lookup_file fs old' = Some f /\ get_fast_md5 f = Some h').
  { intros h' rel' old' Hin. apply (Hsrc h' rel' old'). now right. }
  (* the sources of the later entries differ from the source of this one *)
  assert (Hother : forall old f h' rel',
             dict_get idx h = Some old -> lookup_file fs old = Some f ->
             get_fast_md5 f = Some h ->
             In (h', rel') items -> dict_get idx h' <> Some old).
  { intros old f h' rel' Hold Hf Hh Hin Hg.
    destruct (Hsrc' _ _ _ Hin Hg) as [f' [Hf' Hh']].
    assert (h' = h) by congruence. subst h'.
    apply Hfresh. eapply in_keys; eauto. }
  cbn [move_loop unobstructed] in Hrun, Hfree.
  destruct (dict_get idx h) as [old|] eqn:Hidx.
  2:{ destruct (IH _ _ _ _ Hwf Hok' Hsrc' Hdist Hfree Hrun)
        as (Hwf' & Hd' & Hdst & Hstay & Horig).
      repeat split; auto.
      - intros h' rel' old' [[= -> ->]|Hin] Hg; [congruence|eauto].
      - intros q f Hl Hq. apply Hstay; [exact Hl|].
        intros h' rel' Hin. apply (Hq h' rel'). now right. }
  destruct (Hsrc h rel old (or_introl eq_refl) Hidx) as [f [Hf Hh]].
  destruct (path_eqb old (target ++ resolve rel)) eqn:Heq.
  { apply path_eqb_eq in Heq.
    destruct (IH _ _ _ _ Hwf Hok' Hsrc' Hdist Hfree Hrun)
      as (Hwf' & Hd' & Hdst & Hstay & Horig).
    repeat split; auto.
    - intros h' rel' old' [[= -> ->]|Hin] Hg; [|eauto].
      exists f. split; [|exact Hh]. rewrite <- Heq.
      apply Hstay; [exact Hf|]. intros h2 rel2 Hin2.
      eapply Hother; eauto.
    - intros q g Hl Hq. apply Hstay; [exact Hl|].
      intros h' rel' Hin. apply (Hq h' rel'). now right. }
  set (new := target ++ resolve rel) in *.
  destruct (makedirs fs (dirname new)) as [fs1|] eqn:Hmk; [|discriminate].
  destruct (lookup fs1 new) as [x|] eqn:Hnew; [discriminate|].
  destruct (shutil_move fs1 old new) as [fs2|] eqn:Hmv; [|discriminate].
  destruct (move_loop false target idx items fs2) as [[[st t'] evs'] n'] eqn:Hrest.
  injection Hrun as -> -> <- <-.
  destruct (one_move _ _ _ _ _ _ Hwf Hmk Hnew Hf Hmv) as [Hwf2 Hlk].
  assert (Hnew_free : lookup_file fs new = None).
  { rewrite <- (makedirs_lookup_file _ _ _ new Hmk). unfold lookup_file.
    now rewrite Hnew. }
  assert (Hold_u : under target old) by (eapply idx_under; eauto).
  assert (Hnew_u : under target new).
  { exists (resolve rel). split; [|reflexivity].
    assert (Hold1 : lookup fs1 old = Some (File f)).
    { apply lookup_file_some.
      now rewrite (makedirs_lookup_file _ _ _ old Hmk). }
    eapply under_not_top; eauto. }
  assert (Hsrc2 : forall h' rel' old',
             In (h', rel') items -> dict_get idx h' = Some old' ->
             exists f', lookup_file fs2 old' = Some f'
                        /\ get_fast_md5 f' = Some h').
  { intros h' rel' old' Hin Hg.
    destruct (Hsrc' _ _ _ Hin Hg) as [f' [Hf' Hh']].
    exists f'. split; [|exact Hh']. rewrite Hlk.
    destruct (path_eqb old' new) eqn:E1.
    { apply path_eqb_eq in E1. subst old'. congruence. }
    destruct (path_eqb old' old) eqn:E2; [|exact Hf'].
    apply path_eqb_eq in E2. subst old'.
    exfalso. exact (Hother old f h' rel' eq_refl Hf Hh Hin Hg). }
  assert (Hback : forall q g,
             lookup_file fs2 q = Some g ->
             exists q0, lookup_file fs q0 = Some g
                        /\ (q0 = q \/ (q = new /\ q0 = old))).
  { intros q g Hq. rewrite Hlk in Hq.
    destruct (path_eqb q new) eqn:E1.
    - apply path_eqb_eq in E1. injection Hq as <-. exists old. auto.
    - destruct (path_eqb q old); [discriminate|]. exists q. auto. }
  assert (Hdist2 : distinct_below fs2 target).
  { intros q1 q2 g1 g2 h0 Hu1 Hu2 Hl1 Hl2 Hg1 Hg2.
    pose proof Hl1 as Hl1'. pose proof Hl2 as Hl2'.
    apply Hback in Hl1 as [p1 [Hp1 Hc1]].
    apply Hback in Hl2 as [p2 [Hp2 Hc2]].
    assert (Hup1 : under target p1) by (destruct Hc1 as [->|[_ ->]]; auto).
    assert (Hup2 : under target p2) by (destruct Hc2 as [->|[_ ->]]; auto).
    pose proof (Hdist p1 p2 g1 g2 h0 Hup1 Hup2 Hp1 Hp2 Hg1 Hg2) as Hpp.
    assert (Hold_gone : forall g, lookup_file fs2 old = Some g -> False).
    { intros g Hg. rewrite Hlk, Heq, path_eqb_refl in Hg. discriminate. }
    destruct Hc1 as [->|[-> ->]], Hc2 as [->|[-> ->]]; auto.
    - subst q1. exfalso. eauto.
    - subst q2. exfalso. eauto. }
  destruct (IH _ _ _ _ Hwf2 Hok' Hsrc2 Hdist2 Hfree Hrest)
    as (Hwf' & Hd' & Hdst & Hstay & Horig).
  repeat split; auto.
  - intros h' rel' old' [[= -> ->]|Hin] Hg; [|eauto].
    exists f. split; [|exact Hh]. apply Hstay.
    + rewrite Hlk. fold new. now rewrite path_eqb_refl.
    + intros h2 rel2 Hin2 Hg2.
      destruct (Hsrc' _ _ _ Hin2 Hg2) as [f' [Hf' _]]. fold new in Hf'.
      congruence.
  - intros q g Hl Hq. apply Hstay.
    + rewrite Hlk.
      destruct (path_eqb q new) eqn:E1.
      { apply path_eqb_eq in E1. subst q. congruence. }
      destruct (path_eqb q old) eqn:E2; [|exact Hl].
      apply path_eqb_eq in E2. subst q. exfalso.
      apply (Hq h rel); [now left|exact Hidx].
    + intros h' rel' Hin. apply (Hq h' rel'). now right.
  - intros q g Hu Hl.
    destruct (Horig q g Hu Hl) as [q0 [Hu0 Hl0]].
    apply Hback in Hl0 as [p0 [Hp0 Hc0]].
    exists p0. split; [|exact Hp0].
    destruct Hc0 as [->|[_ ->]]; auto.
Qed.

(** A run in which every matched file already stands at its destination
    moves nothing. *)
Lemma move_loop_noop (items : dict str) (fs : node) :
  (forall h rel p,
      In (h, rel) items -> dict_get idx h = Some p ->
      p = target ++ resolve rel) ->
  move_loop false target idx items fs = (Returned, fs, [], 0).
Proof.
  induction items as [|[h rel] items IH]; intros H; [reflexivity|].
  cbn [move_loop].
  assert (IH' : move_loop false target idx items fs = (Returned, fs, [], 0)).
  { apply IH. intros h' rel' p Hin. apply H. now right. }
  destruct (dict_get idx h) as [p|] eqn:Hg; [|exact IH'].
  rewrite (H h rel p (or_introl eq_refl) Hg), path_eqb_refl. exact IH'.
Qed.

End MoveLoop.

(** ** Running [sync_target] twice *)

Lemma under_below (top q : path) : under top q <-> below top q = true.
Proof.
  revert q. induction top as [|a top IH]; intros q.
  - destruct q as [|b q]; cbn; split.
    + intros [r [Hr H]]. cbn in H. congruence.
    + discriminate.
    + reflexivity.
    + intros _. exists (b :: q). split; [discriminate|reflexivity].
  - destruct q as [|b q]; cbn [below].
    + split; [|discriminate]. intros [r [_ H]]. discriminate.
    + rewrite andb_true_iff, str_eqb_eq, <- IH. split.
      * intros [r [Hr H]]. injection H as -> ->. split; [reflexivity|].
        exists r. auto.
      * intros [-> [r [Hr ->]]]. exists r. auto.
Qed.

(** What [json.load] returns is a dictionary: a key stands once. *)
Lemma parse_members_ok (fuel : nat) :
  forall s acc d rest,
    dict_ok acc = true ->
    Json.parse_members fuel s acc = Some (d, rest) ->
    dict_ok d = true.
Proof.
  induction fuel as [|fuel IH]; intros s acc d rest Hacc H;
    cbn [Json.parse_members] in H; [discriminate|].
  repeat match type of H with
         | match ?x with _ => _ end = Some _ =>
             destruct x eqn:?; try discriminate
         end.
  - injection H as <- <-. now apply dict_set_ok.
  - eapply IH; [|exact H]. now apply dict_set_ok.
Qed.

Lemma parse_object_ok (s : str) (d : dict str) (rest : str) :
  Json.parse_object s = Some (d, rest) -> dict_ok d = true.
Proof.
  unfold Json.parse_object. destruct (Json.skip_ws s) as [|c s1]; [discriminate|].
  destruct (c =? 125); [now intros [= <- <-]|].
  destruct (c =? 34); [|discriminate].
  intros H. eapply parse_members_ok; [|exact H]. reflexivity.
Qed.

Lemma load_mapping_ok (b : bytes) (m : dict str) :
  load_mapping b = Some m -> dict_ok m = true.
Proof.
  unfold load_mapping, Json.loads. intros H.
  repeat match type of H with
         | match ?x with _ => _ end = Some _ =>
             destruct x eqn:?; try discriminate
         end.
  all: injection H as <-; eapply parse_object_ok; eassumption.
Qed.

Lemma prune_idem (t : node) : prune (prune t) = prune t.
Proof.
  induction t as [f|E IH] using node_induction; [reflexivity|].
  rewrite prune_dir. rewrite prune_dir. f_equal.
  induction E as [|[n c] E IHE]; [reflexivity|].
  inversion IH as [|? ? Hc HE]; subst. cbn [snd] in Hc.
  cbn [flat_map fst snd]. rewrite flat_map_app, (IHE HE). f_equal.
  destruct (prune c) as [f|[|e X]] eqn:Hp; cbn [flat_map fst snd app];
    rewrite ?Hc; reflexivity.
Qed.

(** A tree the clean-up has left is left as it is by the clean-up. *)
Lemma cleanup_again (fs fs' : node) (target : path) :
  wf fs = true -> cleanup fs target = Some fs' -> cleanup fs' target = Some fs'.
Proof.
  intros Hwf H. destruct (cleanup_keeps _ _ _ Hwf H) as [Hwf' _].
  destruct (lookup fs target) as [t|] eqn:Hl.
  - rewrite (cleanup_graft _ _ _ Hwf Hl) in H. injection H as H.
    pose proof (graft_lookup target fs t (prune t) Hl) as Hl'.
    rewrite H in Hl'.
    rewrite (cleanup_graft _ _ _ Hwf' Hl'), prune_idem. f_equal.
    now apply graft_id.
  - unfold cleanup, walk_up_from in H. rewrite Hl in H. cbn in H.
    injection H as <-. unfold cleanup, walk_up_from. now rewrite Hl.
Qed.

Lemma dest_under (fs : node) (target r p : path) (f g : file) :
  lookup_file fs (target ++ r) = Some f ->
  under target p -> lookup_file fs p = Some g ->
  under target (target ++ r).
Proof.
  intros Hf [r' [Hr' ->]] Hg. exists r. split; [|reflexivity].
  intros ->. rewrite app_nil_r in Hf.
  apply lookup_file_some in Hf. apply lookup_file_some in Hg.
  rewrite lookup_app, Hf in Hg. destruct r'; [congruence|discriminate].
Qed.

Lemma reconcile_returned (fs : node) (target_dir : str) (mapping : dict str) :
  o_status (reconcile fs target_dir mapping false) = Returned ->
  exists fs1 evs n,
    move_loop false (resolve target_dir)
              (build_index fs (resolve target_dir)) mapping fs
    = (Returned, fs1, evs, n)
    /\ cleanup fs1 (resolve target_dir)
       = Some (o_fs (reconcile fs target_dir mapping false)).
Proof.
  unfold reconcile.
  destruct (move_loop false _ _ mapping fs) as [[[st fs1] evs] n].
  destruct st; [|discriminate].
  destruct (cleanup fs1 (resolve target_dir)) as [fs2|] eqn:Hc; [|discriminate].
  intros _. exists fs1, evs, n. split; [reflexivity|exact Hc].
Qed.

Lemma reconcile_noop (fs : node) (target_dir : str) (mapping : dict str) :
  move_loop false (resolve target_dir)
            (build_index fs (resolve target_dir)) mapping fs
  = (Returned, fs, [], 0) ->
  cleanup fs (resolve target_dir) = Some fs ->
  reconcile fs target_dir mapping false
  = mkOutcome Returned fs
      [EvIndexing target_dir; EvMatching; EvCleaning; EvSyncDone 0].
Proof. intros H1 H2. unfold reconcile. rewrite H1, H2. reflexivity. Qed.

(** After a run that returned and overwrote nothing, every file the
    index finds for an entry of the mapping stands where the entry sends
    it, and a second run changes nothing. *)
Lemma reconcile_settles (fs : node) (target_dir : str) (mapping : dict str) :
  wf fs = true ->
  dict_ok mapping = true ->
  distinct_fingerprints fs (resolve target_dir) = true ->
  unobstructed (resolve target_dir) (build_index fs (resolve target_dir))
               mapping fs = true ->
  o_status (reconcile fs target_dir mapping false) = Returned ->
  forall fs', fs' = o_fs (reconcile fs target_dir mapping false) ->
  (forall q f,
      ~ under (resolve target_dir) q ->
      lookup_file fs q = Some f -> lookup_file fs' q = Some f)
  /\ (forall h rel p,
         In (h, rel) mapping ->
         dict_get (build_index fs' (resolve target_dir)) h = Some p ->
         p = resolve target_dir ++ resolve rel)
  /\ reconcile fs' target_dir mapping false
     = mkOutcome Returned fs'
         [EvIndexing target_dir; EvMatching; EvCleaning; EvSyncDone 0].
Proof.
  intros Hwf Hok Hdf Hfree Hret fs' Hfs'.
  destruct (reconcile_returned _ _ _ Hret) as (fs1 & evs & n & Hrun & Hcl).
  rewrite <- Hfs' in Hcl. clear Hfs' Hret.
  set (target := resolve target_dir) in *.
  set (idx := build_index fs target) in *.
  assert (Hidx_u : forall h p, dict_get idx h = Some p -> under target p).
  { intros h p H. now destruct (index_sound _ _ _ _ Hwf H). }
  assert (Hsrc : forall h rel old,
             In (h, rel) mapping -> dict_get idx h = Some old ->
             exists f, lookup_file fs old = Some f /\ get_fast_md5 f = Some h).
  { intros h rel old _ H. now destruct (index_sound _ _ _ _ Hwf H). }
  pose proof (distinct_fingerprints_below _ _ Hwf Hdf) as Hdist.
  destruct (move_loop_post target idx Hidx_u mapping fs fs1 evs n
              Hwf Hok Hsrc Hdist Hfree Hrun)
    as (Hwf1 & Hd1 & Hdst & Hstay & Horig).
  destruct (cleanup_keeps _ _ _ Hwf1 Hcl) as [Hwf' Hk].
  assert (Hsettled : forall h rel p,
             In (h, rel) mapping ->
             dict_get (build_index fs' target) h = Some p ->
             p = target ++ resolve rel).
  { intros h rel p Hin Hg.
    destruct (index_sound _ _ _ _ Hwf' Hg) as [Hu [g [Hl Hh]]].
    rewrite Hk in Hl. destruct (Horig _ _ Hu Hl) as [q0 [Hu0 Hl0]].
    pose proof (index_complete _ _ _ _ _ Hu0 Hl0 Hh) as Hm.
    fold idx in Hm. unfold dict_mem in Hm.
    destruct (dict_get idx h) as [old|] eqn:Ho; [|discriminate].
    destruct (Hdst h rel old Hin Ho) as [f [Hf Hfh]].
    symmetry.
    exact (Hd1 _ _ f g h (dest_under fs1 target (resolve rel) p f g Hf Hu Hl)
               Hu Hf Hl Hfh Hh). }
  split; [|split].
  - intros q f Hq Hl. rewrite Hk. apply Hstay; [exact Hl|].
    intros h rel Hin Hg. apply Hq. eapply Hidx_u; eauto.
  - exact Hsettled.
  - apply reconcile_noop.
    + now apply move_loop_noop.
    + exact (cleanup_again fs1 fs' target Hwf1 Hcl).
Qed.

(** A mapping file that does not lie below the target is not touched by
    a run of the kind above. *)
Lemma sync_keeps_mapping_file (fs : node) (target_dir mapping_json : str)
      (mf : file) (mapping : dict str) :
  wf fs = true ->
  lookup fs (resolve mapping_json) = Some (File mf) ->
  f_readable mf = true ->
  load_mapping (f_data mf) = Some mapping ->
  below (resolve target_dir) (resolve mapping_json) = false ->
  distinct_fingerprints fs (resolve target_dir) = true ->
  unobstructed (resolve target_dir) (build_index fs (resolve target_dir))
               mapping fs = true ->
  o_status (sync_target fs target_dir mapping_json false) = Returned ->
  lookup (o_fs (sync_target fs target_dir mapping_json false))
         (resolve mapping_json)
  = Some (File mf).
Proof.
  intros Hwf Hm Hr Hload Hout Hdf Hfree Hret.
  unfold sync_target in *. rewrite Hm, Hr, Hload in *.
  destruct (reconcile_settles fs target_dir mapping Hwf
              (load_mapping_ok _ _ Hload) Hdf Hfree Hret _ eq_refl)
    as (Hframe & _ & _).
  apply lookup_file_some. apply Hframe.
  - intros Hu. apply under_below in Hu. congruence.
  - now apply lookup_file_some.
Qed.

(** C4, as the program has it, for a target directory, a mapping file
    and mapping values given as relative paths in normal form (the
    values are what [os.path.relpath] wrote): when the files below the
    target have pairwise distinct fingerprints and the first run
    returned with every one of its moves finding its destination free,
    a second run with the same mapping finds every matched fingerprint
    at its mapped destination, makes no move, reports 0 files and
    leaves the tree as it is. *)
Theorem sync_idempotent (fs : node) (target_dir mapping_json : str)
        (mf : file) (mapping : dict str) :
  wf fs = true ->
  normal target_dir = true ->
  normal mapping_json = true ->
  normal_mapping mapping = true ->
  lookup fs (resolve mapping_json) = Some (File mf) ->
  f_readable mf = true ->
  load_mapping (f_data mf) = Some mapping ->
  distinct_fingerprints fs (resolve target_dir) = true ->
  unobstructed (resolve target_dir) (build_index fs (resolve target_dir))
               mapping fs = true ->
  o_status (sync_target fs target_dir mapping_json false) = Returned ->
  forall fs',
    fs' = o_fs (sync_target fs target_dir mapping_json false) ->
    lookup fs' (resolve mapping_json) = Some (File mf) ->
    sync_target fs' target_dir mapping_json false
    = mkOutcome Returned fs'
        [EvIndexing target_dir; EvMatching; EvCleaning; EvSyncDone 0]
    /\ moves (o_log (sync_target fs' target_dir mapping_json false)) = []
    /\ (forall h rel p,
           In (h, rel) mapping ->
           dict_get (build_index fs' (resolve target_dir)) h = Some p ->
           p = resolve target_dir ++ resolve rel).
Proof.
  intros Hwf _ _ _ Hm Hr Hload Hdf Hfree Hret fs' Hfs' Hm'.
  unfold sync_target in Hret, Hfs'. rewrite Hm, Hr, Hload in Hret, Hfs'.
  destruct (reconcile_settles fs target_dir mapping Hwf
              (load_mapping_ok _ _ Hload) Hdf Hfree Hret fs' Hfs')
    as (_ & Hsettled & Hsecond).
  assert (Hrun : sync_target fs' target_dir mapping_json false
                 = mkOutcome Returned fs'
                     [EvIndexing target_dir; EvMatching; EvCleaning;
                      EvSyncDone 0]).
  { unfold sync_target. now rewrite Hm', Hr, Hload. }
  split; [exact Hrun|]. split; [now rewrite Hrun|exact Hsettled].
Qed.

Lemma sync_idempotent_witness :
  let m := [(lit "5d41402abc4b2a76b9719d911017c592", lit "a/x.txt");
            (lit "7d793037a0760186574b0282f2f435e7", lit "b/y.txt")] in
  let mf := mkFile true (fst (save_mapping m)) in
  let fs :=
    Dir [(lit "backup",
          Dir [(lit "misc",
                Dir [(lit "x.txt", File (mkFile true (lit "hello")));
                     (lit "y.txt", File (mkFile true (lit "world")))])]);
         (lit "file_map.json", File mf)] in
  let fs' :=
    Dir [(lit "backup",
          Dir [(lit "a", Dir [(lit "x.txt", File (mkFile true (lit "hello")))]);
               (lit "b", Dir [(lit "y.txt", File (mkFile true (lit "world")))])]);
         (lit "file_map.json", File mf)] in
  sync_target fs' (lit "backup") (lit "file_map.json") false
  = mkOutcome Returned fs'
      [EvIndexing (lit "backup"); EvMatching; EvCleaning; EvSyncDone 0].
Proof.
  intros m mf fs fs'.
  refine (proj1 (sync_idempotent fs (lit "backup") (lit "file_map.json") mf m
                   _ _ _ _ _ _ _ _ _ _ fs' _ _));
    vm_compute; reflexivity.
Defined.

(** C4 as stated fails.  In the first tree a move replaces a file that a
    later entry of the mapping takes as its source: the first run moves
    [p.txt] onto [q.txt] and then [q.txt] to [z.txt], and the second run
    moves [z.txt] back to [q.txt].  In the second tree two files have one
    fingerprint: the first run moves one of them, and the second run
    moves the other onto it. *)
Lemma second_run_moves :
  let m1 := [(lit "7fc56270e7a70fa81a5935b72eacbe29", lit "q.txt");
             (lit "9d5ed678fe57bcca610140957afab571", lit "z.txt")] in
  let fs1 :=
    Dir [(lit "backup",
          Dir [(lit "p.txt", File (mkFile true (lit "A")));
               (lit "q.txt", File (mkFile true (lit "B")))]);
         (lit "file_map.json", File (mkFile true (fst (save_mapping m1))))] in
  let run1 := sync_target fs1 (lit "backup") (lit "file_map.json") false in
  let m2 := [(lit "5d41402abc4b2a76b9719d911017c592", lit "a/x.txt")] in
  let fs2 :=
    Dir [(lit "backup",
          Dir [(lit "a", Dir [(lit "k.txt", File (mkFile true (lit "keep")))]);
               (lit "z", Dir [(lit "p.txt", File (mkFile true (lit "hello")));
                              (lit "q.txt", File (mkFile true (lit "hello")))])]);
         (lit "file_map.json", File (mkFile true (fst (save_mapping m2))))] in
  let run2 := sync_target fs2 (lit "backup") (lit "file_map.json") false in
  (o_status run1 = Returned
   /\ moves (o_log run1)
      = [(lit "p.txt", lit "q.txt"); (lit "q.txt", lit "z.txt")]
   /\ moves (o_log (sync_target (o_fs run1) (lit "backup")
                                (lit "file_map.json") false))
      = [(lit "z.txt", lit "q.txt")])
  /\ (o_status run2 = Returned
      /\ moves (o_log run2) = [(lit "q.txt", lit "a/x.txt")]
      /\ moves (o_log (sync_target (o_fs run2) (lit "backup")
                                   (lit "file_map.json") false))
         = [(lit "p.txt", lit "a/x.txt")]).
Proof. vm_compute. repeat split; reflexivity. Qed.

(** ** The clean-up of a synchronisation *)

Lemma os_rename_wf (t t' : node) (src dst : path) :
  wf t = true -> os_rename t src dst = Some t' -> wf t' = true.
Proof.
  intros Hwf H. unfold os_rename in H.
  destruct (lookup t src) as [[f|E]|]; try discriminate.
  assert (H' : t' = put_at (remove_at t src) dst (File f)).
  { destruct dst as [|n d]; [discriminate|].
    destruct (lookup t (dirname (n :: d))) as [[g|E]|]; try discriminate.
    now apply Some_inj in H. }
  rewrite H'. apply wf_put_at; [now apply wf_remove|reflexivity].
Qed.

Lemma shutil_move_wf (t t' : node) (src dst : path) :
  wf t = true -> shutil_move t src dst = Some t' -> wf t' = true.
Proof.
  intros Hwf H. unfold shutil_move in H.
  destruct (lookup t dst) as [[f|E]|].
  - eapply os_rename_wf; eauto.
  - destruct (lookup t (dst ++ [basename src])); [discriminate|].
    eapply os_rename_wf; eauto.
  - eapply os_rename_wf; eauto.
Qed.

Lemma move_loop_wf (target : path) (idx : dict path) (items : dict str) :
  forall fs,
    wf fs = true ->
    wf (snd (fst (fst (move_loop false target idx items fs)))) = true.
Proof.
  induction items as [|[h rel] items IH]; intros fs Hwf; [exact Hwf|].
  cbn [move_loop].
  destruct (dict_get idx h) as [old|]; [|now apply IH].
  destruct (path_eqb old (target ++ resolve rel)); [now apply IH|].
  destruct (makedirs fs (dirname (target ++ resolve rel))) as [fs1|] eqn:Hmk;
    [|exact Hwf].
  pose proof (wf_makedirs _ _ _ Hwf Hmk) as Hwf1.
  destruct (shutil_move fs1 old (target ++ resolve rel)) as [fs2|] eqn:Hmv;
    [|exact Hwf1].
  pose proof (shutil_move_wf _ _ _ _ Hwf1 Hmv) as Hwf2.
  specialize (IH fs2 Hwf2).
  destruct (move_loop false target idx items fs2) as [[[st t'] evs'] n'].
  exact IH.
Qed.

(** C5: in a run of [sync_target] that changes the tree, once the loop
    of the moves has returned, the clean-up works on the tree the moves
    have left and its result is the tree [sync_target] returns: the
    tree with the target pruned deepest first.  Below the target no
    empty directory is left; a directory goes exactly when no regular
    file lies anywhere below it, so a directory that held only
    directories that went is gone in the same pass; the regular files
    stand where the moves put them.  The paths are relative paths in
    normal form. *)
Theorem cleanup_prunes (fs : node) (target_dir mapping_json : str)
        (mf : file) (mapping : dict str)
        (fs1 : node) (evs : list event) (n : Z) (t : node) :
  wf fs = true ->
  normal target_dir = true ->
  normal mapping_json = true ->
  normal_mapping mapping = true ->
  lookup fs (resolve mapping_json) = Some (File mf) ->
  f_readable mf = true ->
  load_mapping (f_data mf) = Some mapping ->
  move_loop false (resolve target_dir)
            (build_index fs (resolve target_dir)) mapping fs
  = (Returned, fs1, evs, n) ->
  lookup fs1 (resolve target_dir) = Some t ->
  sync_target fs target_dir mapping_json false
  = mkOutcome Returned (graft fs1 (resolve target_dir) (prune t))
      ([EvIndexing target_dir; EvMatching]
         ++ evs ++ [EvCleaning; EvSyncDone n])
  /\ cleanup fs1 (resolve target_dir)
     = Some (graft fs1 (resolve target_dir) (prune t))
  /\ lookup (graft fs1 (resolve target_dir) (prune t)) (resolve target_dir)
     = Some (prune t)
  /\ (forall p, p <> [] -> lookup (prune t) p <> Some (Dir []))
  /\ (forall p E,
         p <> [] -> lookup t p = Some (Dir E) ->
         ((exists E', lookup (prune t) p = Some (Dir E'))
          <-> exists q f, lookup t (p ++ q) = Some (File f)))
  /\ (forall p, lookup_file (prune t) p = lookup_file t p).
Proof.
  intros Hwf _ _ _ Hm Hr Hload Hrun Ht.
  assert (Hwf1 : wf fs1 = true).
  { pose proof (move_loop_wf (resolve target_dir)
                  (build_index fs (resolve target_dir)) mapping fs Hwf) as H.
    now rewrite Hrun in H. }
  destruct (cleanup_leaves_pruned fs1 (resolve target_dir) t Hwf1 Ht)
    as (Hcl & Hat & Hnone & Hcascade & Hfiles).
  split; [|auto].
  unfold sync_target. rewrite Hm, Hr, Hload.
  unfold reconcile. rewrite Hrun, Hcl. reflexivity.
Qed.

Lemma cleanup_prunes_witness :
  let m := [(lit "5d41402abc4b2a76b9719d911017c592", lit "a/x.txt")] in
  let mf := mkFile true (fst (save_mapping m)) in
  let x := File (mkFile true (lit "hello")) in
  let fs :=
    Dir [(lit "backup",
          Dir [(lit "misc", Dir [(lit "old", Dir [(lit "x.txt", x)])]);
               (lit "keep", Dir [(lit "k.txt", File (mkFile true (lit "keep")))])]);
         (lit "file_map.json", File mf)] in
  sync_target fs (lit "backup") (lit "file_map.json") false
  = mkOutcome Returned
      (Dir [(lit "backup",
             Dir [(lit "keep", Dir [(lit "k.txt", File (mkFile true (lit "keep")))]);
                  (lit "a", Dir [(lit "x.txt", x)])]);
            (lit "file_map.json", File mf)])
      [EvIndexing (lit "backup"); EvMatching;
       EvMove false (lit "x.txt") (lit "a/x.txt");
       EvCleaning; EvSyncDone 1].
Proof.
  intros m mf x fs.
  refine (proj1 (cleanup_prunes fs (lit "backup") (lit "file_map.json") mf m
                   (Dir [(lit "backup",
                          Dir [(lit "misc", Dir [(lit "old", Dir [])]);
                               (lit "keep",
                                Dir [(lit "k.txt", File (mkFile true (lit "keep")))]);
                               (lit "a", Dir [(lit "x.txt", x)])]);
                         (lit "file_map.json", File mf)])
                   [EvMove false (lit "x.txt") (lit "a/x.txt")] 1
                   (Dir [(lit "misc", Dir [(lit "old", Dir [])]);
                         (lit "keep",
                          Dir [(lit "k.txt", File (mkFile true (lit "keep")))]);
                         (lit "a", Dir [(lit "x.txt", x)])])
                   _ _ _ _ _ _ _ _ _)); vm_compute; reflexivity.
Defined.

(* ================================================================= *)
(** * Part III: further properties *)
(* ================================================================= *)

(** ** The form of a fingerprint *)

Lemma le_bytes_range (n : nat) :
  forall x, Forall (fun b => 0 <= b < 256) (MD5.le_bytes n x).
Proof.
  induction n as [|n IH]; intros x; cbn [MD5.le_bytes]; constructor.
  - apply Z.mod_pos_bound. lia.
  - apply IH.
Qed.

Lemma le_bytes_length (n : nat) (x : Z) : List.length (MD5.le_bytes n x) = n.
Proof.
  revert x. induction n as [|n IH]; intros x; cbn [MD5.le_bytes List.length];
    [reflexivity|]. now rewrite IH.
Qed.

Lemma hex_digit_is_hex (d : Z) : 0 <= d < 16 -> is_hex (MD5.hex_digit d) = true.
Proof.
  intros Hd. unfold MD5.hex_digit, is_hex.
  destruct (d <? 10) eqn:E; [apply Z.ltb_lt in E|apply Z.ltb_ge in E].
  - apply orb_true_iff. left. apply andb_true_iff. split; apply Z.leb_le; lia.
  - apply orb_true_iff. right. apply andb_true_iff. split; apply Z.leb_le; lia.
Qed.

Lemma hex_is_hex (l : bytes) :
  Forall (fun b => 0 <= b < 256) l -> forallb is_hex (MD5.hex l) = true.
Proof.
  unfold MD5.hex. induction 1 as [|b l Hb Hl IH]; [reflexivity|].
  cbn [flat_map app forallb]. rewrite IH, !hex_digit_is_hex; [reflexivity| |].
  - apply Z.mod_pos_bound. lia.
  - split; [apply Z.div_pos; lia|apply Z.div_lt_upper_bound; lia].
Qed.

Lemma hex_length (l : bytes) :
  List.length (MD5.hex l) = (2 * List.length l)%nat.
Proof.
  unfold MD5.hex. induction l as [|b l IH]; [reflexivity|].
  cbn [flat_map app List.length]. rewrite IH. lia.
Qed.

Lemma hexdigest_format (m : bytes) :
  List.length (MD5.hexdigest m) = 32%nat
  /\ forallb is_hex (MD5.hexdigest m) = true.
Proof.
  unfold MD5.hexdigest, MD5.digest. split.
  - rewrite hex_length, !length_app, !le_bytes_length. reflexivity.
  - apply hex_is_hex. repeat (apply Forall_app; split); apply le_bytes_range.
Qed.

Lemma get_fast_md5_hex (f : file) (h : str) :
  get_fast_md5 f = Some h ->
  List.length h = 32%nat /\ forallb is_hex h = true.
Proof.
  unfold get_fast_md5, sampled_md5. destruct (f_readable f); [|discriminate].
  destruct (hash_body _ _ _) as [u s]. intros [= <-]. apply hexdigest_format.
Qed.

(** X1: [get_fast_md5] returns [None] exactly for a file that cannot be
    read; every fingerprint it returns is a string of 32 lower-case
    hexadecimal digits. *)
Theorem fingerprint_format (f : file) :
  match get_fast_md5 f with
  | Some h =>
      f_readable f = true
      /\ List.length h = 32%nat /\ forallb is_hex h = true
  | None => f_readable f = false
  end.
Proof.
  destruct (get_fast_md5 f) as [h|] eqn:Hh.
  - split; [|now apply (get_fast_md5_hex f)].
    destruct (f_readable f) eqn:Hr; [reflexivity|].
    rewrite (get_fast_md5_unreadable f Hr) in Hh. discriminate.
  - destruct (f_readable f) eqn:Hr; [|reflexivity].
    unfold get_fast_md5 in Hh. rewrite (sampled_md5_readable _ _ Hr) in Hh.
    discriminate.
Qed.

(** ** What the sampling does not see *)

Lemma slice_app_l (l1 l2 : bytes) (pos n : Z) :
  0 <= pos -> 0 <= n -> pos + n <= Z.of_nat (List.length l1) ->
  slice (l1 ++ l2) pos n = slice l1 pos n.
Proof.
  intros Hp Hn Hb. unfold slice.
  rewrite skipn_app, firstn_app, length_skipn.
  replace (Z.to_nat n - (List.length l1 - Z.to_nat pos))%nat with 0%nat by lia.
  cbn [firstn]. apply app_nil_r.
Qed.

Lemma slice_app_r (l1 l2 : bytes) (pos n : Z) :
  Z.of_nat (List.length l1) <= pos ->
  slice (l1 ++ l2) pos n = slice l2 (pos - Z.of_nat (List.length l1)) n.
Proof.
  intros Hp. unfold slice. rewrite skipn_app.
  rewrite (skipn_all2 l1) by lia. cbn [app]. do 2 f_equal. lia.
Qed.

Lemma slice_repeat (x : byte) (N pos n : Z) :
  0 <= pos -> 0 <= n -> pos + n <= N ->
  slice (repeat x (Z.to_nat N)) pos n = repeat x (Z.to_nat n).
Proof.
  intros Hp Hn Hb. unfold slice.
  replace (Z.to_nat N) with (Z.to_nat pos + (Z.to_nat n + Z.to_nat (N - pos - n)))%nat
    by lia.
  rewrite !repeat_app.
  rewrite skipn_app, skipn_all2 by (rewrite repeat_length; lia).
  rewrite repeat_length, Nat.sub_diag. cbn [app skipn].
  rewrite firstn_app, repeat_length, Nat.sub_diag. cbn [firstn].
  rewrite app_nil_r. apply firstn_all2. rewrite repeat_length. lia.
Qed.

(** X2: of a file above [3 MiB], [get_fast_md5] sees the size and the
    three windows only.  Two readable files of one size above [3 MiB]
    that agree on the first [MiB], on the [MiB] at offset [size / 2] and
    on the last [MiB] have the same fingerprint, whatever stands between
    the windows. *)
Theorem sampling_blind_spot (f g : file) :
  f_readable f = true -> f_readable g = true ->
  getsize f = getsize g ->
  3 * sample_size < getsize f ->
  slice (f_data f) 0 sample_size = slice (f_data g) 0 sample_size ->
  slice (f_data f) (getsize f / 2) sample_size
  = slice (f_data g) (getsize f / 2) sample_size ->
  slice (f_data f) (getsize f - sample_size) sample_size
  = slice (f_data g) (getsize f - sample_size) sample_size ->
  get_fast_md5 f = get_fast_md5 g.
Proof.
  intros Hf Hg Hsz Hbig H1 H2 H3. unfold get_fast_md5.
  rewrite (sampled_md5_readable _ _ Hf), (sampled_md5_readable _ _ Hg).
  assert (Hgt : (getsize f <=? sample_size * 3) = false)
    by (apply Z.leb_gt; lia).
  rewrite (hash_body_large _ _ _ Hgt).
  rewrite <- Hsz, (hash_body_large _ _ _ Hgt).
  now rewrite H1, H2, H3.
Qed.

(** Two files of [4 M] bytes that differ in the second quarter only:
    their windows of [M] bytes at [0], at the middle and at the end are
    the same. *)
Lemma quarters (M : Z) :
  0 < M ->
  let f := mkFile true (repeat 0 (Z.to_nat (4 * M))) in
  let g := mkFile true (repeat 0 (Z.to_nat M) ++ repeat 7 (Z.to_nat M)
                          ++ repeat 0 (Z.to_nat (2 * M))) in
  getsize f = getsize g
  /\ 3 * M < getsize f
  /\ slice (f_data f) 0 M = slice (f_data g) 0 M
  /\ slice (f_data f) (getsize f / 2) M = slice (f_data g) (getsize f / 2) M
  /\ slice (f_data f) (getsize f - M) M = slice (f_data g) (getsize f - M) M.
Proof.
  intros HM f g.
  assert (L1 : forall x : byte,
             Z.of_nat (List.length (repeat x (Z.to_nat M))) = M).
  { intros x. rewrite repeat_length. lia. }
  assert (Lf : getsize f = 4 * M).
  { unfold getsize, f. cbn [f_data]. rewrite repeat_length. lia. }
  assert (Lg : getsize g = 4 * M).
  { unfold getsize, g. cbn [f_data]. rewrite !length_app, !repeat_length. lia. }
  assert (Hhalf : 4 * M / 2 = 2 * M).
  { replace (4 * M) with (2 * M * 2) by lia. apply Z.div_mul. lia. }
  rewrite Lf, Lg, Hhalf. unfold f, g. cbn [f_data].
  split; [reflexivity|]. split; [lia|]. split; [|split].
  - rewrite slice_app_l by (rewrite ?L1; lia).
    rewrite !slice_repeat by lia. reflexivity.
  - rewrite slice_app_r by (rewrite L1; lia). rewrite L1.
    rewrite slice_app_r by (rewrite L1; lia). rewrite L1.
    rewrite !slice_repeat by lia. reflexivity.
  - rewrite slice_app_r by (rewrite L1; lia). rewrite L1.
    rewrite slice_app_r by (rewrite L1; lia). rewrite L1.
    rewrite !slice_repeat by lia. reflexivity.
Qed.

Lemma sampling_blind_spot_witness :
  get_fast_md5 (mkFile true (repeat 0 (Z.to_nat (4 * sample_size))))
  = get_fast_md5
      (mkFile true (repeat 0 (Z.to_nat sample_size)
                      ++ repeat 7 (Z.to_nat sample_size)
                      ++ repeat 0 (Z.to_nat (2 * sample_size)))).
Proof.
  destruct (quarters sample_size eq_refl) as (Hs & Hb & H1 & H2 & H3).
  exact (sampling_blind_spot
           (mkFile true (repeat 0 (Z.to_nat (4 * sample_size))))
           (mkFile true (repeat 0 (Z.to_nat sample_size)
                           ++ repeat 7 (Z.to_nat sample_size)
                           ++ repeat 0 (Z.to_nat (2 * sample_size))))
           eq_refl eq_refl Hs Hb H1 H2 H3).
Defined.

(** ** One fingerprint, several files *)

(** A loop that assigns to a dictionary leaves, for a key, the value of
    the last assignment to it. *)
Lemma fold_set_last {A V} (key : A -> option str) (val : A -> V)
      (l1 l2 : list A) (a : A) (h : str) (acc : dict V) :
  key a = Some h ->
  (forall b, In b l2 -> key b <> Some h) ->
  dict_get
    (fold_left (fun d e => match key e with
                           | Some k => dict_set d k (val e)
                           | None => d
                           end) (l1 ++ a :: l2) acc) h
  = Some (val a).
Proof.
  intros Ha Hl2. rewrite fold_left_app. cbn [fold_left]. rewrite Ha.
  generalize (fold_left (fun d e => match key e with
                                    | Some k => dict_set d k (val e)
                                    | None => d
                                    end) l1 acc).
  intros d.
  assert (H0 : dict_get (dict_set d h (val a)) h = Some (val a))
    by apply dict_get_set_same.
  revert H0. generalize (dict_set d h (val a)). clear d.
  induction l2 as [|b l2 IH]; intros d Hd; [exact Hd|].
  cbn [fold_left]. apply IH.
  - intros c Hc. apply Hl2. now right.
  - destruct (key b) as [k|] eqn:Hk; [|exact Hd].
    rewrite dict_get_set_other; [exact Hd|].
    intros ->. apply (Hl2 b); [now left|exact Hk].
Qed.

Lemma scan_fold_mapping (pe : Z) (l : list (path * file)) :
  forall st,
    sc_mapping
      (fold_left (fun st e =>
                    scan_file pe (dirname (fst e)) st (basename (fst e), snd e))
                 l st)
    = fold_left (fun d e =>
                   match (if excluded (basename (fst e)) then None
                          else get_fast_md5 (snd e)) with
                   | Some k =>
                       dict_set d k (join_names (dirname (fst e)
                                                   ++ [basename (fst e)]))
                   | None => d
                   end) l (sc_mapping st).
Proof.
  induction l as [|[p f] l IH]; intros st; [reflexivity|].
  cbn [fold_left fst snd]. rewrite IH. f_equal.
  unfold scan_file. destruct (excluded (basename p)); [reflexivity|].
  destruct (get_fast_md5 f); reflexivity.
Qed.

Lemma walk_files_nonempty (root : path) (t : node) (p : path) (f : file) :
  In (p, f) (walk_files root t) -> p <> [].
Proof.
  unfold walk_files. rewrite in_flat_map. intros [item [_ H]].
  apply in_map_iff in H as [e [He _]]. injection He as <- _.
  intros H. now apply app_eq_nil in H as [_ H].
Qed.

(** X3: when several files of the source have one fingerprint, the
    mapping keeps one entry for it, and its path is that of the file
    [os.walk] comes across last: [mapping[f_hash] = rel_path] replaces
    what an earlier file put there. *)
Theorem scan_last_wins (t : node) (l1 l2 : list (path * file))
        (p : path) (f : file) (h : str) :
  walk_files [] t = l1 ++ (p, f) :: l2 ->
  excluded (basename p) = false ->
  get_fast_md5 f = Some h ->
  (forall q g,
      In (q, g) l2 -> excluded (basename q) = false ->
      get_fast_md5 g <> Some h) ->
  dict_get (scan_mapping t) h = Some (join_names p).
Proof.
  intros Hw Hx Hh Hl2.
  assert (Hne : p <> []).
  { apply (walk_files_nonempty [] t p f). rewrite Hw.
    apply in_or_app. right. now left. }
  unfold scan_mapping. rewrite scan_loop_files, scan_fold_mapping, Hw.
  cbn [sc_mapping].
  rewrite (fold_set_last
             (fun e => if excluded (basename (fst e)) then None
                       else get_fast_md5 (snd e))
             (fun e => join_names (dirname (fst e) ++ [basename (fst e)]))
             l1 l2 (p, f) h []).
  - cbn [fst]. now rewrite (path_snoc p Hne).
  - cbn [fst snd]. now rewrite Hx.
  - intros [q g] Hin. cbn [fst snd].
    destruct (excluded (basename q)) eqn:Hq; [discriminate|].
    now apply (Hl2 q g).
Qed.

Lemma scan_last_wins_witness :
  dict_get
    (scan_mapping
       (Dir [(lit "a", Dir [(lit "x.txt", File (mkFile true (lit "hello")))]);
             (lit "b", Dir [(lit "copy.txt", File (mkFile true (lit "hello")))]);
             (lit "c", Dir [(lit "z.txt", File (mkFile true (lit "world")))])]))
    (lit "5d41402abc4b2a76b9719d911017c592")
  = Some (lit "b/copy.txt").
Proof.
  refine (scan_last_wins
            (Dir [(lit "a", Dir [(lit "x.txt", File (mkFile true (lit "hello")))]);
                  (lit "b", Dir [(lit "copy.txt", File (mkFile true (lit "hello")))]);
                  (lit "c", Dir [(lit "z.txt", File (mkFile true (lit "world")))])])
            [([lit "a"; lit "x.txt"], mkFile true (lit "hello"))]
            [([lit "c"; lit "z.txt"], mkFile true (lit "world"))]
            [lit "b"; lit "copy.txt"] (mkFile true (lit "hello"))
            (lit "5d41402abc4b2a76b9719d911017c592") _ _ _ _).
  - vm_compute. reflexivity.
  - vm_compute. reflexivity.
  - vm_compute. reflexivity.
  - intros q g [H|[]] _. injection H as <- <-. vm_compute. discriminate.
Defined.

(** X10: the index of the target does the same: of the files below the
    target that have one fingerprint it keeps the path of the one
    [os.walk] comes across last, and that file is the one a matching
    entry of the mapping moves. *)
Theorem index_last_wins (fs : node) (target : path) (t : node)
        (l1 l2 : list (path * file)) (q : path) (f : file) (h : str) :
  lookup fs target = Some t ->
  walk_files target t = l1 ++ (q, f) :: l2 ->
  get_fast_md5 f = Some h ->
  (forall q' g, In (q', g) l2 -> get_fast_md5 g <> Some h) ->
  dict_get (build_index fs target) h = Some q.
Proof.
  intros Hl Hw Hh Hl2. rewrite build_index_files, Hl, Hw.
  rewrite (fold_set_last (fun e => get_fast_md5 (snd e)) fst
                         l1 l2 (q, f) h []).
  - reflexivity.
  - exact Hh.
  - intros [q' g] Hin. now apply (Hl2 q' g).
Qed.

Lemma index_last_wins_witness :
  dict_get
    (build_index
       (Dir [(lit "backup",
              Dir [(lit "p.txt", File (mkFile true (lit "hello")));
                   (lit "q.txt", File (mkFile true (lit "hello")));
                   (lit "r.txt", File (mkFile true (lit "world")))])])
       [lit "backup"])
    (lit "5d41402abc4b2a76b9719d911017c592")
  = Some [lit "backup"; lit "q.txt"].
Proof.
  refine (index_last_wins
            (Dir [(lit "backup",
                   Dir [(lit "p.txt", File (mkFile true (lit "hello")));
                        (lit "q.txt", File (mkFile true (lit "hello")));
                        (lit "r.txt", File (mkFile true (lit "world")))])])
            [lit "backup"]
            (Dir [(lit "p.txt", File (mkFile true (lit "hello")));
                  (lit "q.txt", File (mkFile true (lit "hello")));
                  (lit "r.txt", File (mkFile true (lit "world")))])
            [([lit "backup"; lit "p.txt"], mkFile true (lit "hello"))]
            [([lit "backup"; lit "r.txt"], mkFile true (lit "world"))]
            [lit "backup"; lit "q.txt"] (mkFile true (lit "hello"))
            (lit "5d41402abc4b2a76b9719d911017c592") _ _ _ _).
  - reflexivity.
  - vm_compute. reflexivity.
  - vm_compute. reflexivity.
  - intros q' g [H|[]]. injection H as <- <-. vm_compute. discriminate.
Defined.

(** ** The messages and the count of a scan *)

Lemma scan_fold_count (pe : Z) (l : list (path * file)) :
  forall (st : scan_state) (k : nat),
    sc_count st = Z.of_nat k ->
    sc_count (fold_left (fun st e =>
                           scan_file pe (dirname (fst e)) st
                                     (basename (fst e), snd e)) l st)
    = Z.of_nat
        (k + List.length
               (filter (fun e => negb (excluded (basename (fst e)))
                                 && has_fingerprint (snd e)) l))
    /\ sc_log (fold_left (fun st e =>
                            scan_file pe (dirname (fst e)) st
                                      (basename (fst e), snd e)) l st)
       = sc_log st
           ++ map EvProgress
                (if pe =? 0 then []
                 else filter (fun c => c mod pe =? 0)
                        (map Z.of_nat
                           (seq (S k)
                              (List.length
                                 (filter (fun e =>
                                            negb (excluded (basename (fst e)))
                                            && has_fingerprint (snd e)) l))))).
Proof.
  induction l as [|[p f] l IH]; intros st k Hk.
  - cbn [filter List.length fold_left seq map]. rewrite Nat.add_0_r.
    split; [exact Hk|].
    destruct (pe =? 0); cbn [filter map]; now rewrite app_nil_r.
  - cbn [fold_left filter fst snd].
    destruct (excluded (basename p)) eqn:Hx.
    + rewrite (scan_file_excluded _ _ _ _ _ Hx). cbn [negb andb].
      apply (IH st k Hk).
    + destruct (get_fast_md5 f) as [h|] eqn:Hh;
        [assert (Hhf : has_fingerprint f = true)
           by (unfold has_fingerprint; now rewrite Hh)
        |assert (Hhf : has_fingerprint f = false)
           by (unfold has_fingerprint; now rewrite Hh)];
        rewrite Hhf; cbn [negb andb].
      * assert (Hstep : scan_file pe (dirname p) st (basename p, f)
                        = mkScan (dict_set (sc_mapping st) h
                                    (join_names (dirname p ++ [basename p])))
                                 (Z.of_nat (S k))
                                 (if negb (pe =? 0)
                                     && (Z.of_nat (S k) mod pe =? 0)
                                  then sc_log st ++ [EvProgress (Z.of_nat (S k))]
                                  else sc_log st)).
        { unfold scan_file. rewrite Hx, Hh, Hk.
          replace (Z.of_nat k + 1) with (Z.of_nat (S k)) by lia. reflexivity. }
        rewrite Hstep. clear Hstep.
        match goal with
        | |- context [fold_left _ l ?s] =>
            destruct (IH s (S k) eq_refl) as [Hc Hl]; rewrite Hc, Hl
        end.
        clear Hc Hl. cbn [sc_log List.length seq map].
        split; [f_equal; lia|].
        destruct (pe =? 0); cbn [negb andb filter map]; [reflexivity|].
        destruct (Z.of_nat (S k) mod pe =? 0); cbn [map];
          [rewrite <- app_assoc|]; reflexivity.
      * assert (Hstep : scan_file pe (dirname p) st (basename p, f) = st).
        { unfold scan_file. now rewrite Hx, Hh. }
        rewrite Hstep. apply (IH st k Hk).
Qed.

Lemma dict_set_length {V} (d : dict V) (k : str) (v : V) :
  (List.length (dict_set d k v) <= S (List.length d))%nat.
Proof.
  induction d as [|[k' v'] d IH]; cbn; [lia|].
  destruct (str_eqb k' k); cbn; lia.
Qed.

Lemma scan_fold_size (pe : Z) (l : list (path * file)) :
  forall st,
    (List.length
       (sc_mapping
          (fold_left (fun st e =>
                        scan_file pe (dirname (fst e)) st
                                  (basename (fst e), snd e)) l st))
     <= List.length (sc_mapping st)
        + List.length
            (filter (fun e => negb (excluded (basename (fst e)))
                              && has_fingerprint (snd e)) l))%nat.
Proof.
  induction l as [|[p f] l IH]; intros st; [cbn; lia|].
  cbn [fold_left filter fst snd]. etransitivity; [apply IH|].
  unfold scan_file, has_fingerprint.
  destruct (excluded (basename p)); cbn [negb andb]; [lia|].
  destruct (get_fast_md5 f); cbn [sc_mapping List.length]; [|lia].
  pose proof (dict_set_length (sc_mapping st) s
                (join_names (dirname p ++ [basename p]))). lia.
Qed.

(** X4: for a source directory and a mapping file given as relative
    paths in normal form, a scan that returns has logged its first message, one progress
    message for every multiple of [progress_every] among the counts
    (none when [progress_every] is [0]), and the two closing messages;
    the count it reports is the number of files that were not skipped
    and could be fingerprinted, which files with one fingerprint make
    larger than the number of entries of the mapping. *)
Theorem scan_log (fs : node) (source_dir output_json : str)
        (progress_every : Z) (t : node) :
  normal source_dir = true ->
  normal output_json = true ->
  lookup fs (resolve source_dir) = Some t ->
  o_status (scan_source fs source_dir output_json progress_every) = Returned ->
  o_log (scan_source fs source_dir output_json progress_every)
  = EvScanning source_dir
      :: map EvProgress (progress_counts progress_every
                                         (List.length (counted t)))
      ++ [EvScanDone (Z.of_nat (List.length (counted t)));
          EvSaved output_json]
  /\ (List.length (scan_mapping t) <= List.length (counted t))%nat.
Proof.
  intros _ _ Ht Hret. split.
  - unfold scan_source in *. rewrite Ht in *. rewrite scan_loop_files in *.
    destruct (scan_fold_count progress_every (walk_files [] t)
                (mkScan [] 0 [EvScanning source_dir]) 0 eq_refl) as [Hc Hl].
    cbn [sc_log Nat.add] in Hc, Hl.
    destruct (can_create fs (resolve output_json)); [|discriminate].
    destruct (save_mapping _) as [content ok]. destruct ok; [|discriminate].
    cbn [o_log]. rewrite Hl, Hc. unfold progress_counts, counted.
    reflexivity.
  - unfold scan_mapping. rewrite scan_loop_files.
    apply (scan_fold_size 10 (walk_files [] t) (mkScan [] 0 [])).
Qed.

Lemma scan_log_witness :
  let t := Dir [(lit "a", Dir [(lit "x.txt", File (mkFile true (lit "hello")));
                               (lit ".hidden", File (mkFile true (lit "h")))]);
                (lit "b", Dir [(lit "copy.txt", File (mkFile true (lit "hello")));
                               (lit "y.txt", File (mkFile true (lit "world")))])] in
  let fs := Dir [(lit "src", t)] in
  o_log (scan_source fs (lit "src") (lit "file_map.json") 2)
  = [EvScanning (lit "src"); EvProgress 2; EvScanDone 3;
     EvSaved (lit "file_map.json")]
  /\ (List.length (scan_mapping t) <= 3)%nat.
Proof.
  intros t fs.
  exact (scan_log fs (lit "src") (lit "file_map.json") 2 t
                  ltac:(vm_compute; reflexivity) ltac:(vm_compute; reflexivity)
                  eq_refl ltac:(vm_compute; reflexivity)).
Defined.

(** ** From the scan to the synchronisation *)

Lemma is_hex_scalar (c : char) : is_hex c = true -> scalar c = true.
Proof.
  unfold is_hex, scalar, Utf8.is_surrogate. intros H.
  apply orb_true_iff in H as [H|H]; apply andb_true_iff in H as [H1 H2];
    apply Z.leb_le in H1, H2;
    repeat (apply andb_true_iff; split);
    try (apply Z.leb_le; lia); try (apply Z.ltb_lt; lia);
    apply negb_true_iff; apply andb_false_iff; left; apply Z.leb_gt; lia.
Qed.

Lemma hex_text_ok (h : str) : forallb is_hex h = true -> text_ok h = true.
Proof.
  unfold text_ok. rewrite !forallb_forall. intros H c Hc.
  apply is_hex_scalar. now apply H.
Qed.

Lemma names_ok_dir (E : entries) :
  names_ok (Dir E) = forallb (fun e => text_ok (fst e) && names_ok (snd e)) E.
Proof.
  cbn [names_ok]. induction E as [|[n c] E IH]; [reflexivity|].
  cbn [forallb fst snd]. now rewrite IH.
Qed.

Lemma names_ok_lookup (p : path) :
  forall t x,
    names_ok t = true -> lookup t p = Some x -> forallb text_ok p = true.
Proof.
  induction p as [|n p IH]; intros t x Hok Hl; [reflexivity|].
  cbn [lookup] in Hl. destruct t as [f|E]; [discriminate|].
  destruct (assoc E n) as [c|] eqn:Hc; [|discriminate].
  rewrite names_ok_dir, forallb_forall in Hok.
  specialize (Hok _ (assoc_in _ _ _ Hc)). cbn [fst snd] in Hok.
  apply andb_true_iff in Hok as [Hn Hc'].
  cbn [forallb]. rewrite Hn. cbn [andb]. eapply IH; eauto.
Qed.

Lemma join_names_ok (p : path) :
  forallb text_ok p = true -> text_ok (join_names p) = true.
Proof.
  induction p as [|n p IH]; [reflexivity|].
  cbn [forallb]. intros H. apply andb_true_iff in H as [Hn Hp].
  destruct p as [|m p]; [exact Hn|].
  change (join_names (n :: m :: p)) with (n ++ sep :: join_names (m :: p)).
  unfold text_ok in *. rewrite forallb_app, Hn. cbn [forallb andb].
  rewrite (IH Hp). reflexivity.
Qed.

Lemma scan_mapping_ok (t : node) :
  wf t = true -> names_ok t = true -> mapping_ok (scan_mapping t) = true.
Proof.
  intros Hwf Hok. unfold mapping_ok. apply forallb_forall. intros [h rel] Hin.
  cbn [fst snd].
  pose proof (dict_in_get _ _ _ (scan_mapping_dict_ok t) Hin) as Hg.
  destruct (scan_mapping_origin t h rel Hwf Hg) as (p & f & Hl & _ & _ & Hh & ->).
  apply andb_true_iff. split.
  - apply hex_text_ok. now apply (get_fast_md5_hex f).
  - apply join_names_ok. eapply names_ok_lookup; eauto.
Qed.

(** The mapping of a tree whose names are text is saved whole, and
    loading what was saved gives it back. *)
Lemma scan_mapping_saves (t : node) :
  wf t = true -> names_ok t = true ->
  exists content,
    save_mapping (scan_mapping t) = (content, true)
    /\ load_mapping content = Some (scan_mapping t).
Proof.
  intros Hwf Hok. unfold save_mapping.
  destruct (write_chunks_ok (Json.iterencode (scan_mapping t)) []
              (iterencode_ok _ (scan_mapping_ok t Hwf Hok)))
    as [b [Hb Hw]].
  exists b. split; [exact Hw|].
  unfold load_mapping, Utf8.read_text.
  rewrite (decode_encode _ _ Hb). fold (Json.dumps (scan_mapping t)).
  rewrite (universal_newlines_id _ (dumps_no_cr _)).
  apply loads_dumps. apply scan_mapping_dict_ok.
Qed.

Lemma can_create_inv (fs : node) (p : path) :
  can_create fs p = true ->
  p <> []
  /\ view (lookup fs (dirname p)) = Some None
  /\ view (lookup fs p) <> Some None.
Proof.
  unfold can_create. destruct p as [|n p]; [discriminate|].
  destruct (lookup fs (dirname (n :: p))) as [[g|E]|]; try discriminate.
  destruct (lookup fs (n :: p)) as [[g|E']|]; try discriminate;
    intros _; repeat split; try discriminate.
Qed.

(** X5: for paths given as relative paths in normal form, on a tree
    whose names are text that UTF-8 can carry, and with an output path
    whose directory exists, [scan_source] returns; it changes nothing
    but the output file; and [sync_target], given that file, works with
    exactly the mapping the scan built. *)
Theorem scan_writes_what_sync_reads (fs : node) (source_dir output_json : str)
        (progress_every : Z) (t : node) :
  wf fs = true ->
  normal source_dir = true ->
  normal output_json = true ->
  lookup fs (resolve source_dir) = Some t ->
  names_ok t = true ->
  can_create fs (resolve output_json) = true ->
  let fs' := o_fs (scan_source fs source_dir output_json progress_every) in
  o_status (scan_source fs source_dir output_json progress_every) = Returned
  /\ (forall q,
         q <> resolve output_json ->
         view (lookup fs' q) = view (lookup fs q))
  /\ (forall target_dir dry_run,
         normal target_dir = true ->
         sync_target fs' target_dir output_json dry_run
         = reconcile fs' target_dir (scan_mapping t) dry_run).
Proof.
  intros Hwf _ _ Ht Hok Hcan fs'.
  assert (Hwt : wf t = true) by (eapply wf_lookup; eauto).
  destruct (scan_mapping_saves t Hwt Hok) as [content [Hsave Hload]].
  destruct (can_create_inv _ _ Hcan) as (Hne & Hdir & Hnd).
  assert (Hfs : scan_source fs source_dir output_json progress_every
                = mkOutcome Returned
                    (put_at fs (resolve output_json) (File (mkFile true content)))
                    (sc_log (scan_loop progress_every (Some t)
                               (mkScan [] 0 [EvScanning source_dir]))
                       ++ [EvScanDone
                             (sc_count (scan_loop progress_every (Some t)
                                          (mkScan [] 0 [EvScanning source_dir])));
                           EvSaved output_json])).
  { unfold scan_source. rewrite Ht, Hcan, scan_loop_mapping, Hsave.
    reflexivity. }
  unfold fs'. rewrite Hfs. cbn [o_status o_fs].
  pose proof (view_put (resolve output_json) fs (mkFile true content)) as Hput.
  split; [reflexivity|]. split.
  - intros q Hq. rewrite (Hput q Hne Hdir Hnd).
    destruct (path_eqb q (resolve output_json)) eqn:E; [|reflexivity].
    apply path_eqb_eq in E. contradiction.
  - intros target_dir dry_run _. unfold sync_target.
    pose proof (Hput (resolve output_json) Hne Hdir Hnd) as Hat.
    rewrite path_eqb_refl in Hat.
    destruct (lookup (put_at fs (resolve output_json)
                             (File (mkFile true content)))
                     (resolve output_json)) as [[g|E]|]; try discriminate.
    injection Hat as ->. cbn [f_readable f_data]. now rewrite Hload.
Qed.

Lemma scan_writes_what_sync_reads_witness :
  let t := Dir [(lit "a", Dir [(lit "x.txt", File (mkFile true (lit "hello")))])] in
  let fs := Dir [(lit "src", t); (lit "backup", Dir [])] in
  o_status (scan_source fs (lit "src") (lit "file_map.json") 10) = Returned.
Proof.
  intros t fs.
  refine (proj1 (scan_writes_what_sync_reads fs (lit "src") (lit "file_map.json")
                   10 t _ _ _ _ _ _)); vm_compute; reflexivity.
Defined.

(** ** The messages of a synchronisation *)

Lemma move_loop_count (dry_run : bool) (target : path) (idx : dict path)
      (items : dict str) :
  forall fs,
    snd (move_loop dry_run target idx items fs)
    = Z.of_nat (List.length
                  (moves (snd (fst (move_loop dry_run target idx items fs)))))
    /\ Forall (fun e => exists a b c, e = EvMove a b c)
              (snd (fst (move_loop dry_run target idx items fs))).
Proof.
  induction items as [|[h rel] items IH]; intros fs; cbn [move_loop].
  - split; [reflexivity|constructor].
  - destruct (dict_get idx h) as [old|]; [|apply IH].
    destruct (path_eqb old (target ++ resolve rel)); [apply IH|].
    assert (Hcons : forall fs0,
               let r := move_loop dry_run target idx items fs0 in
               let e := EvMove dry_run (basename old) rel in
               1 + snd r
               = Z.of_nat (List.length (moves (e :: snd (fst r))))
               /\ Forall (fun e => exists a b c, e = EvMove a b c)
                         (e :: snd (fst r))).
    { intros fs0. cbn zeta. destruct (IH fs0) as [Hn Hev].
      split; [|constructor; eauto].
      rewrite Hn. unfold moves. cbn [flat_map app List.length]. lia. }
    destruct dry_run.
    + specialize (Hcons fs). cbn zeta in Hcons.
      destruct (move_loop true target idx items fs) as [[[st t'] evs] n].
      exact Hcons.
    + destruct (makedirs fs (dirname (target ++ resolve rel))) as [fs1|];
        [|split; [reflexivity|constructor]].
      destruct (shutil_move fs1 old (target ++ resolve rel)) as [fs2|];
        [|split; [reflexivity|constructor]].
      specialize (Hcons fs2). cbn zeta in Hcons.
      destruct (move_loop false target idx items fs2) as [[[st t'] evs] n].
      exact Hcons.
Qed.

Lemma not_in_moves (evs : list event) (n : Z) :
  Forall (fun e => exists a b c, e = EvMove a b c) evs ->
  ~ In (EvSyncDone n) evs.
Proof.
  intros H Hin. rewrite Forall_forall in H.
  destruct (H _ Hin) as (a & b & c & E). discriminate.
Qed.

Lemma moves_of_moves (evs : list event) :
  Forall (fun e => exists a b c, e = EvMove a b c) evs ->
  List.length (moves evs) = List.length evs.
Proof.
  induction 1 as [|e evs (a & b & c & ->) H IH]; [reflexivity|].
  unfold moves in *. cbn [flat_map app List.length]. now rewrite IH.
Qed.

Lemma reconcile_count (fs : node) (target_dir : str) (mapping : dict str)
      (dry_run : bool) (n : Z) :
  In (EvSyncDone n) (o_log (reconcile fs target_dir mapping dry_run)) ->
  n = move_messages (o_log (reconcile fs target_dir mapping dry_run)).
Proof.
  unfold reconcile, move_messages.
  destruct (move_loop_count dry_run (resolve target_dir)
              (build_index fs (resolve target_dir)) mapping fs) as [Hn Hev].
  destruct (move_loop dry_run _ _ mapping fs) as [[[st fs1] evs] m].
  cbn [fst snd] in Hn, Hev.
  pose proof (not_in_moves evs n Hev) as Hno.
  assert (Hhead : forall l,
             In (EvSyncDone n)
                (([EvIndexing target_dir; EvMatching]
                    ++ (if dry_run then [EvPreviewNotice] else []))
                   ++ evs ++ l) ->
             In (EvSyncDone n) l).
  { intros l H. apply in_app_or in H as [H|H].
    - destruct dry_run; cbn in H;
        repeat (destruct H as [H|H]; [discriminate|]); contradiction.
    - apply in_app_or in H as [H|H]; [contradiction|exact H]. }
  assert (Hm : forall l,
             moves l = [] ->
             moves (([EvIndexing target_dir; EvMatching]
                       ++ (if dry_run then [EvPreviewNotice] else []))
                      ++ evs ++ l) = moves evs).
  { intros l Hl. rewrite !moves_app, Hl, app_nil_r.
    destruct dry_run; reflexivity. }
  destruct st.
  - destruct dry_run.
    + cbn [o_log]. intros H. apply Hhead in H as [H|[]].
      injection H as <-. now rewrite Hm.
    + destruct (cleanup fs1 (resolve target_dir)); cbn [o_log]; intros H.
      * apply Hhead in H as [H|[H|[]]]; [discriminate|].
        injection H as <-. now rewrite Hm.
      * apply Hhead in H as [H|[]]. discriminate.
  - cbn [o_log]. intros H. exfalso.
    rewrite <- (app_nil_r evs) in H. now apply Hhead in H.
Qed.

(** X8: the number [sync_target] reports in its closing message is the
    number of move messages it has logged, in the preview mode and in
    the mode that moves. *)
Theorem sync_count_is_moves (fs : node) (target_dir mapping_json : str)
        (dry_run : bool) (n : Z) :
  In (EvSyncDone n) (o_log (sync_target fs target_dir mapping_json dry_run)) ->
  n = move_messages (o_log (sync_target fs target_dir mapping_json dry_run)).
Proof.
  unfold sync_target.
  destruct (lookup fs (resolve mapping_json)) as [[mf|E]|].
  - destruct (if f_readable mf then load_mapping (f_data mf) else None)
      as [mapping|].
    + apply reconcile_count.
    + intros [].
  - intros [].
  - intros [H|[]]. discriminate.
Qed.

Lemma sync_count_is_moves_witness :
  let m := [(lit "5d41402abc4b2a76b9719d911017c592", lit "a/x.txt");
            (lit "7d793037a0760186574b0282f2f435e7", lit "b/y.txt")] in
  let fs :=
    Dir [(lit "backup",
          Dir [(lit "misc",
                Dir [(lit "x.txt", File (mkFile true (lit "hello")));
                     (lit "y.txt", File (mkFile true (lit "world")))])]);
         (lit "file_map.json", File (mkFile true (fst (save_mapping m))))] in
  2 = move_messages
        (o_log (sync_target fs (lit "backup") (lit "file_map.json") false)).
Proof.
  intros m fs.
  apply (sync_count_is_moves fs (lit "backup") (lit "file_map.json") false 2).
  vm_compute. tauto.
Defined.

(** ** A target that is no directory *)



(** ** Where the files go *)

Section Placing.

Variable target : path.
Variable idx : dict path.
Hypothesis idx_under : forall h p, dict_get idx h = Some p -> under target p.

(** One turn of the loop that moves a file to a free destination. *)
Lemma move_step (h rel : str) (items : dict str) (fs fs1 fs2 : node)
      (old : path) (f : file) :
  wf fs = true ->
  dict_ok ((h, rel) :: items) = true ->
  (forall h' rel' old',
      In (h', rel') ((h, rel) :: items) -> dict_get idx h' = Some old' ->
      exists f', lookup_file fs old' = Some f' /\ get_fast_md5 f' = Some h') ->
  distinct_below fs target ->
  dict_get idx h = Some old ->
  lookup_file fs old = Some f ->
  path_eqb old (target ++ resolve rel) = false ->
  makedirs fs (dirname (target ++ resolve rel)) = Some fs1 ->
  lookup fs1 (target ++ resolve rel) = None ->
  shutil_move fs1 old (target ++ resolve rel) = Some fs2 ->
  wf fs2 = true
  /\ resolve rel <> []
  /\ lookup_file fs (target ++ resolve rel) = None
  /\ lookup_file fs2 (target ++ resolve rel) = Some f
  /\ (forall q g,
         lookup_file fs q = Some g -> q <> old -> lookup_file fs2 q = Some g)
  /\ (forall h' rel' old',
         In (h', rel') items -> dict_get idx h' = Some old' ->
         old' <> old
         /\ exists f', lookup_file fs2 old' = Some f'
                       /\ get_fast_md5 f' = Some h')
  /\ distinct_below fs2 target.
Proof.
  intros Hwf Hok Hsrc Hdist Hidx Hf Heq Hmk Hnew Hmv.
  set (new := target ++ resolve rel) in *.
  apply dict_ok_cons in Hok as [Hfresh Hok'].
  destruct (Hsrc h rel old (or_introl eq_refl) Hidx) as [f0 [Hf0 Hh]].
  assert (f0 = f) by congruence. subst f0. clear Hf0.
  destruct (one_move _ _ _ _ _ _ Hwf Hmk Hnew Hf Hmv) as [Hwf2 Hlk].
  assert (Hnew_free : lookup_file fs new = None).
  { rewrite <- (makedirs_lookup_file _ _ _ new Hmk). unfold lookup_file.
    now rewrite Hnew. }
  assert (Hold_u : under target old) by (eapply idx_under; eauto).
  assert (Hrel : resolve rel <> []).
  { assert (Hold1 : lookup fs1 old = Some (File f)).
    { apply lookup_file_some.
      now rewrite (makedirs_lookup_file _ _ _ old Hmk). }
    exact (under_not_top fs1 target old (File f) (resolve rel)
                         Hold_u Hold1 Hnew). }
  assert (Hnew_u : under target new) by (exists (resolve rel); auto).
  assert (Hother : forall h' rel' old',
             In (h', rel') items -> dict_get idx h' = Some old' ->
             old' <> old).
  { intros h' rel' old' Hin Hg ->.
    destruct (Hsrc h' rel' old (or_intror Hin) Hg) as [f' [Hf' Hh']].
    assert (h' = h) by congruence. subst h'.
    apply Hfresh. eapply in_keys; eauto. }
  assert (Hkeep : forall q g,
             lookup_file fs q = Some g -> q <> old ->
             lookup_file fs2 q = Some g).
  { intros q g Hq Hne. rewrite Hlk.
    destruct (path_eqb q new) eqn:E1.
    { apply path_eqb_eq in E1. subst q. congruence. }
    destruct (path_eqb q old) eqn:E2; [|exact Hq].
    apply path_eqb_eq in E2. contradiction. }
  assert (Hback : forall q g,
             lookup_file fs2 q = Some g ->
             exists q0, lookup_file fs q0 = Some g
                        /\ (q0 = q \/ (q = new /\ q0 = old))).
  { intros q g Hq. rewrite Hlk in Hq.
    destruct (path_eqb q new) eqn:E1.
    - apply path_eqb_eq in E1. injection Hq as <-. exists old. auto.
    - destruct (path_eqb q old); [discriminate|]. exists q. auto. }
  split; [exact Hwf2|]. split; [exact Hrel|]. split; [exact Hnew_free|].
  split; [rewrite Hlk; now rewrite path_eqb_refl|].
  split; [exact Hkeep|]. split.
  - intros h' rel' old' Hin Hg.
    pose proof (Hother _ _ _ Hin Hg) as Hne. split; [exact Hne|].
    destruct (Hsrc h' rel' old' (or_intror Hin) Hg) as [f' [Hf' Hh']].
    exists f'. split; [|exact Hh']. now apply Hkeep.
  - intros q1 q2 g1 g2 h0 Hu1 Hu2 Hl1 Hl2 Hg1 Hg2.
    pose proof Hl1 as Hl1'. pose proof Hl2 as Hl2'.
    apply Hback in Hl1 as [p1 [Hp1 Hc1]].
    apply Hback in Hl2 as [p2 [Hp2 Hc2]].
    assert (Hup1 : under target p1) by (destruct Hc1 as [->|[_ ->]]; auto).
    assert (Hup2 : under target p2) by (destruct Hc2 as [->|[_ ->]]; auto).
    pose proof (Hdist p1 p2 g1 g2 h0 Hup1 Hup2 Hp1 Hp2 Hg1 Hg2) as Hpp.
    assert (Hold_gone : forall g, lookup_file fs2 old = Some g -> False).
    { intros g Hg. rewrite Hlk, Heq, path_eqb_refl in Hg. discriminate. }
    destruct Hc1 as [->|[-> ->]], Hc2 as [->|[-> ->]]; auto.
    + subst q1. exfalso. eauto.
    + subst q2. exfalso. eauto.
Qed.

(** A run that returns and overwrites nothing puts the file of every
    matched entry at the destination of the entry. *)
Lemma move_loop_places (items : dict str) :
  forall (fs fs' : node) (evs : list event) (n : Z),
    wf fs = true ->
    dict_ok items = true ->
    (forall h rel old,
        In (h, rel) items -> dict_get idx h = Some old ->
        exists f, lookup_file fs old = Some f /\ get_fast_md5 f = Some h) ->
    distinct_below fs target ->
    unobstructed target idx items fs = true ->
    move_loop false target idx items fs = (Returned, fs', evs, n) ->
    forall h rel old f,
      In (h, rel) items -> dict_get idx h = Some old ->
      lookup_file fs old = Some f ->
      resolve rel <> []
      /\ lookup_file fs' (target ++ resolve rel) = Some f.
Proof.
  induction items as [|[h0 rel0] items IH];
    intros fs fs' evs n Hwf Hok Hsrc Hdist Hfree Hrun h rel old f Hin Hg Hf;
    [destruct Hin|].
  pose proof Hok as Hok0.
  apply dict_ok_cons in Hok as [Hfresh Hok'].
  assert (Hsrc' : forall h' rel' old',
             In (h', rel') items -> dict_get idx h' = Some old' ->
             exists f', lookup_file fs old' = Some f'
                        /\ get_fast_md5 f' = Some h').
  { intros h' rel' old' Hin'. apply (Hsrc h' rel' old'). now right. }
  cbn [move_loop unobstructed] in Hrun, Hfree.
  destruct (dict_get idx h0) as [old0|] eqn:Hidx.
  2:{ destruct Hin as [Hhd|Hin].
      - injection Hhd as -> ->. congruence.
      - exact (IH _ _ _ _ Hwf Hok' Hsrc' Hdist Hfree Hrun _ _ _ _ Hin Hg Hf). }
  destruct (Hsrc h0 rel0 old0 (or_introl eq_refl) Hidx) as [f0 [Hf0 Hh0]].
  destruct (path_eqb old0 (target ++ resolve rel0)) eqn:Heq.
  { destruct Hin as [Hhd|Hin];
      [|exact (IH _ _ _ _ Hwf Hok' Hsrc' Hdist Hfree Hrun _ _ _ _ Hin Hg Hf)].
    injection Hhd as -> ->.
    assert (old = old0) by congruence. subst old0.
    assert (f0 = f) by congruence. subst f0.
    apply path_eqb_eq in Heq.
    destruct (idx_under _ _ Hidx) as [r [Hr Hold]].
    assert (Hrr : resolve rel = r).
    { apply (app_inv_head target). congruence. }
    split; [congruence|]. rewrite <- Heq.
    destruct (move_loop_post target idx idx_under items fs fs' evs n
                Hwf Hok' Hsrc' Hdist Hfree Hrun)
      as (_ & _ & _ & Hstay & _).
    apply Hstay; [exact Hf|]. intros h' rel' Hin' Hg'.
    destruct (Hsrc' _ _ _ Hin' Hg') as [f' [Hf' Hh']].
    assert (h' = h) by congruence. subst h'.
    apply Hfresh. eapply in_keys; eauto. }
  destruct (makedirs fs (dirname (target ++ resolve rel0))) as [fs1|] eqn:Hmk;
    [|discriminate].
  destruct (lookup fs1 (target ++ resolve rel0)) as [x|] eqn:Hnew;
    [discriminate|].
  destruct (shutil_move fs1 old0 (target ++ resolve rel0)) as [fs2|] eqn:Hmv;
    [|discriminate].
  destruct (move_loop false target idx items fs2) as [[[st t'] evs'] n']
    eqn:Hrest.
  injection Hrun as -> -> <- <-.
  destruct (move_step h0 rel0 items fs fs1 fs2 old0 f0
              Hwf Hok0 Hsrc Hdist Hidx Hf0 Heq Hmk Hnew Hmv)
    as (Hwf2 & Hrel & Hnew_free & Hat & Hkeep & Hsrc2 & Hdist2).
  assert (Hsrc2' : forall h' rel' old',
             In (h', rel') items -> dict_get idx h' = Some old' ->
             exists f', lookup_file fs2 old' = Some f'
                        /\ get_fast_md5 f' = Some h').
  { intros h' rel' old' Hin' Hg'. now destruct (Hsrc2 _ _ _ Hin' Hg'). }
  destruct Hin as [Hhd|Hin].
  - injection Hhd as -> ->.
    assert (old = old0) by congruence. subst old0.
    assert (f0 = f) by congruence. subst f0.
    split; [exact Hrel|].
    destruct (move_loop_post target idx idx_under items fs2 fs' evs' n'
                Hwf2 Hok' Hsrc2' Hdist2 Hfree Hrest)
      as (_ & _ & _ & Hstay & _).
    apply Hstay; [exact Hat|]. intros h' rel' Hin' Hg'.
    destruct (Hsrc' _ _ _ Hin' Hg') as [f' [Hf' _]]. congruence.
  - apply (IH fs2 fs' evs' n' Hwf2 Hok' Hsrc2' Hdist2 Hfree Hrest
              h rel old f Hin Hg).
    apply Hkeep; [exact Hf|]. now destruct (Hsrc2 _ _ _ Hin Hg).
Qed.

End Placing.

Lemma dict_mem_in {V} (d : dict V) (k : str) (v : V) :
  dict_ok d = true -> In (k, v) d -> dict_mem d k = true.
Proof.
  intros Hok Hin. unfold dict_mem. now rewrite (dict_in_get d k v Hok Hin).
Qed.

(** What a run that returns and overwrites nothing does with the files
    below the target. *)
Lemma reconcile_places (fs : node) (target_dir : str) (mapping : dict str) :
  wf fs = true ->
  dict_ok mapping = true ->
  distinct_fingerprints fs (resolve target_dir) = true ->
  unobstructed (resolve target_dir) (build_index fs (resolve target_dir))
               mapping fs = true ->
  o_status (reconcile fs target_dir mapping false) = Returned ->
  forall fs', fs' = o_fs (reconcile fs target_dir mapping false) ->
  (forall h rel old f,
      In (h, rel) mapping ->
      under (resolve target_dir) old -> lookup_file fs old = Some f ->
      get_fast_md5 f = Some h ->
      resolve rel <> []
      /\ lookup_file fs' (resolve target_dir ++ resolve rel) = Some f)
  /\ (forall q f,
         lookup_file fs q = Some f ->
         (forall h, get_fast_md5 f = Some h -> dict_mem mapping h = false) ->
         lookup_file fs' q = Some f)
  /\ (forall q f,
         under (resolve target_dir) q -> lookup_file fs' q = Some f ->
         exists q0, under (resolve target_dir) q0 /\ lookup_file fs q0 = Some f).
Proof.
  intros Hwf Hok Hdf Hfree Hret fs' Hfs'.
  destruct (reconcile_returned _ _ _ Hret) as (fs1 & evs & n & Hrun & Hcl).
  rewrite <- Hfs' in Hcl. clear Hfs' Hret.
  set (target := resolve target_dir) in *.
  set (idx := build_index fs target) in *.
  assert (Hidx_u : forall h p, dict_get idx h = Some p -> under target p).
  { intros h p H. now destruct (index_sound _ _ _ _ Hwf H). }
  assert (Hsrc : forall h rel old,
             In (h, rel) mapping -> dict_get idx h = Some old ->
             exists f, lookup_file fs old = Some f /\ get_fast_md5 f = Some h).
  { intros h rel old _ H. now destruct (index_sound _ _ _ _ Hwf H). }
  pose proof (distinct_fingerprints_below _ _ Hwf Hdf) as Hdist.
  destruct (move_loop_post target idx Hidx_u mapping fs fs1 evs n
              Hwf Hok Hsrc Hdist Hfree Hrun)
    as (Hwf1 & _ & _ & Hstay & Horig).
  destruct (cleanup_keeps _ _ _ Hwf1 Hcl) as [_ Hk].
  split; [|split].
  - intros h rel old f Hin Hu Hf Hh. rewrite Hk.
    apply (move_loop_places target idx Hidx_u mapping fs fs1 evs n
             Hwf Hok Hsrc Hdist Hfree Hrun h rel old f Hin); [|exact Hf].
    exact (index_get fs target old f h Hwf Hdist Hu Hf Hh).
  - intros q f Hf Hno. rewrite Hk. apply Hstay; [exact Hf|].
    intros h rel Hin Hg.
    destruct (index_sound _ _ _ _ Hwf Hg) as [_ [g [Hgq Hgh]]].
    assert (g = f) by congruence. subst g.
    specialize (Hno h Hgh).
    rewrite (dict_mem_in mapping h rel Hok Hin) in Hno. discriminate.
  - intros q f Hu Hf. rewrite Hk in Hf. exact (Horig q f Hu Hf).
Qed.

(** X6: for a target directory, a mapping file and mapping values
    given as relative paths in normal form: a synchronisation that returns, on a target whose files have
    pairwise distinct fingerprints and with every move finding its
    destination free, loses no file and invents none.  A file whose
    fingerprint is a key of the mapping stands afterwards at the path
    the mapping gives, with the content it had; a file whose
    fingerprint is no key stands where it stood; and every file found
    below the target afterwards was below it before. *)
Theorem sync_places_files (fs : node) (target_dir mapping_json : str)
        (mf : file) (mapping : dict str) :
  wf fs = true ->
  normal target_dir = true ->
  normal mapping_json = true ->
  normal_mapping mapping = true ->
  lookup fs (resolve mapping_json) = Some (File mf) ->
  f_readable mf = true ->
  load_mapping (f_data mf) = Some mapping ->
  distinct_fingerprints fs (resolve target_dir) = true ->
  unobstructed (resolve target_dir) (build_index fs (resolve target_dir))
               mapping fs = true ->
  o_status (sync_target fs target_dir mapping_json false) = Returned ->
  forall fs',
    fs' = o_fs (sync_target fs target_dir mapping_json false) ->
    (forall h rel old f,
        In (h, rel) mapping ->
        under (resolve target_dir) old -> lookup_file fs old = Some f ->
        get_fast_md5 f = Some h ->
        lookup_file fs' (resolve target_dir ++ resolve rel) = Some f)
    /\ (forall q f,
           lookup_file fs q = Some f ->
           (forall h, get_fast_md5 f = Some h -> dict_mem mapping h = false) ->
           lookup_file fs' q = Some f)
    /\ (forall q f,
           under (resolve target_dir) q -> lookup_file fs q = Some f ->
           exists q', under (resolve target_dir) q'
                      /\ lookup_file fs' q' = Some f)
    /\ (forall q f,
           under (resolve target_dir) q -> lookup_file fs' q = Some f ->
           exists q0, under (resolve target_dir) q0
                      /\ lookup_file fs q0 = Some f).
Proof.
  intros Hwf _ _ _ Hm Hr Hload Hdf Hfree Hret fs' Hfs'.
  unfold sync_target in Hret, Hfs'. rewrite Hm, Hr, Hload in Hret, Hfs'.
  pose proof (load_mapping_ok _ _ Hload) as Hok.
  destruct (reconcile_places fs target_dir mapping Hwf Hok Hdf Hfree Hret
              fs' Hfs') as (Hput & Hstay & Horig).
  split; [|split; [exact Hstay|split; [|exact Horig]]].
  - intros h rel old f Hin Hu Hf Hh.
    now destruct (Hput h rel old f Hin Hu Hf Hh).
  - intros q f Hu Hf.
    destruct (get_fast_md5 f) as [h|] eqn:Hh.
    + destruct (dict_get mapping h) as [rel|] eqn:Hg.
      * destruct (Hput h rel q f (dict_get_in _ _ _ Hg) Hu Hf Hh)
          as [Hrel Hat].
        exists (resolve target_dir ++ resolve rel). split; [|exact Hat].
        exists (resolve rel). auto.
      * exists q. split; [exact Hu|]. apply Hstay; [exact Hf|].
        intros h' Hh'. assert (h' = h) by congruence. subst h'.
        unfold dict_mem. now rewrite Hg.
    + exists q. split; [exact Hu|]. apply Hstay; [exact Hf|].
      intros h' Hh'. congruence.
Qed.

Lemma sync_places_files_witness :
  let m := [(lit "5d41402abc4b2a76b9719d911017c592", lit "a/x.txt")] in
  let mf := mkFile true (fst (save_mapping m)) in
  let fs :=
    Dir [(lit "backup",
          Dir [(lit "misc",
                Dir [(lit "x.txt", File (mkFile true (lit "hello")));
                     (lit "keep.txt", File (mkFile true (lit "world")))])]);
         (lit "file_map.json", File mf)] in
  let fs' := o_fs (sync_target fs (lit "backup") (lit "file_map.json") false) in
  lookup_file fs' [lit "backup"; lit "a"; lit "x.txt"]
  = Some (mkFile true (lit "hello"))
  /\ lookup_file fs' [lit "backup"; lit "misc"; lit "keep.txt"]
     = Some (mkFile true (lit "world")).
Proof.
  intros m mf fs fs'.
  destruct (sync_places_files fs (lit "backup") (lit "file_map.json") mf m
              ltac:(vm_compute; reflexivity) ltac:(vm_compute; reflexivity)
              ltac:(vm_compute; reflexivity) ltac:(vm_compute; reflexivity)
              ltac:(vm_compute; reflexivity) ltac:(vm_compute; reflexivity)
              ltac:(vm_compute; reflexivity) ltac:(vm_compute; reflexivity)
              ltac:(vm_compute; reflexivity) ltac:(vm_compute; reflexivity)
              fs' eq_refl)
    as (Hput & Hstay & _).
  split.
  - apply (Hput (lit "5d41402abc4b2a76b9719d911017c592") (lit "a/x.txt")
                [lit "backup"; lit "misc"; lit "x.txt"]).
    + now left.
    + exists [lit "misc"; lit "x.txt"]. split; [discriminate|reflexivity].
    + vm_compute. reflexivity.
    + vm_compute. reflexivity.
  - apply Hstay.
    + vm_compute. reflexivity.
    + intros h Hh. vm_compute in Hh. injection Hh as <-. vm_compute. reflexivity.
Defined.

(** ** From the source tree to the target tree *)

Lemma split_sep_nosep (n : str) :
  forallb (fun c => negb (c =? sep)) n = true -> split_sep n = [n].
Proof.
  induction n as [|c n IH]; [reflexivity|].
  cbn [forallb split_sep]. intros H. apply andb_true_iff in H as [Hc Hn].
  apply negb_true_iff in Hc. rewrite Hc, (IH Hn). reflexivity.
Qed.

Lemma split_sep_name (n rest : str) :
  forallb (fun c => negb (c =? sep)) n = true ->
  split_sep (n ++ sep :: rest) = n :: split_sep rest.
Proof.
  induction n as [|c n IH]; intros H.
  - cbn [app split_sep]. now rewrite Z.eqb_refl.
  - cbn [forallb] in H. apply andb_true_iff in H as [Hc Hn].
    apply negb_true_iff in Hc. cbn [app split_sep]. rewrite Hc, (IH Hn).
    reflexivity.
Qed.

Lemma split_sep_join (p : path) :
  p <> [] -> forallb valid_name p = true -> split_sep (join_names p) = p.
Proof.
  induction p as [|n p IH]; intros Hne H; [congruence|].
  cbn [forallb] in H. apply andb_true_iff in H as [Hn Hp].
  unfold valid_name in Hn. apply andb_true_iff in Hn as [_ Hn].
  destruct p as [|m p].
  - cbn [join_names]. now apply split_sep_nosep.
  - change (join_names (n :: m :: p)) with (n ++ sep :: join_names (m :: p)).
    rewrite (split_sep_name _ _ Hn), IH; [reflexivity|discriminate|exact Hp].
Qed.

(** The path [os.path.relpath] gives for a file leads back to the file:
    joined names resolve to the names. *)
Lemma resolve_join_names (p : path) :
  p <> [] -> forallb valid_name p = true -> resolve (join_names p) = p.
Proof.
  intros Hne H. unfold resolve. rewrite (split_sep_join p Hne H).
  clear Hne. induction p as [|n p IH]; [reflexivity|].
  cbn [forallb] in H. apply andb_true_iff in H as [Hn Hp].
  unfold valid_name in Hn. apply andb_true_iff in Hn as [Hn _].
  cbn [filter]. rewrite Hn. now rewrite (IH Hp).
Qed.

(** X7: the scan and the synchronisation together, for a target
    directory given as a relative path in normal form and a source
    whose mapping holds such paths.  Take a file of the
    source tree that the scan does not skip and whose fingerprint no
    other file of the source has, and a target tree in which some file
    has that fingerprint.  After a synchronisation with the mapping of
    the scan that returns, on a target whose fingerprints are pairwise
    distinct and with every move finding its destination free, that
    file of the target stands below the target at the path the file has
    in the source. *)
Theorem scan_sync_mirror (src fs : node) (target_dir : str)
        (p old : path) (f g : file) (h : str) :
  wf src = true ->
  wf fs = true ->
  normal target_dir = true ->
  normal_mapping (scan_mapping src) = true ->
  p <> [] -> forallb valid_name p = true ->
  lookup src p = Some (File f) ->
  excluded (basename p) = false ->
  get_fast_md5 f = Some h ->
  (forall p' f',
      lookup src p' = Some (File f') -> get_fast_md5 f' = Some h -> p' = p) ->
  under (resolve target_dir) old ->
  lookup_file fs old = Some g ->
  get_fast_md5 g = Some h ->
  distinct_fingerprints fs (resolve target_dir) = true ->
  unobstructed (resolve target_dir) (build_index fs (resolve target_dir))
               (scan_mapping src) fs = true ->
  o_status (reconcile fs target_dir (scan_mapping src) false) = Returned ->
  lookup_file (o_fs (reconcile fs target_dir (scan_mapping src) false))
              (resolve target_dir ++ p)
  = Some g.
Proof.
  intros Hws Hwf _ _ Hne Hval Hl Hx Hh Huniq Hu Hg Hgh Hdf Hfree Hret.
  assert (Hentry : dict_get (scan_mapping src) h = Some (join_names p)).
  { pose proof (scan_mapping_mem src p f h Hne Hl Hx Hh) as Hmem.
    unfold dict_mem in Hmem.
    destruct (dict_get (scan_mapping src) h) as [rel|] eqn:E; [|discriminate].
    destruct (scan_mapping_origin src h rel Hws E)
      as (p' & f' & Hp' & _ & _ & Hf' & ->).
    now rewrite (Huniq p' f' Hp' Hf'). }
  destruct (reconcile_places fs target_dir (scan_mapping src) Hwf
              (scan_mapping_dict_ok src) Hdf Hfree Hret _ eq_refl)
    as (Hput & _ & _).
  destruct (Hput h (join_names p) old g (dict_get_in _ _ _ Hentry) Hu Hg Hgh)
    as [_ Hat].
  now rewrite (resolve_join_names p Hne Hval) in Hat.
Qed.

Lemma scan_sync_mirror_witness :
  let src :=
    Dir [(lit "a", Dir [(lit "x.txt", File (mkFile true (lit "hello")))]);
         (lit "b", Dir [(lit "y.txt", File (mkFile true (lit "world")))])] in
  let fs :=
    Dir [(lit "backup",
          Dir [(lit "misc",
                Dir [(lit "x.txt", File (mkFile true (lit "hello")));
                     (lit "y.txt", File (mkFile true (lit "world")))])])] in
  lookup_file (o_fs (reconcile fs (lit "backup") (scan_mapping src) false))
              [lit "backup"; lit "a"; lit "x.txt"]
  = Some (mkFile true (lit "hello")).
Proof.
  intros src fs.
  refine (scan_sync_mirror src fs (lit "backup")
            [lit "a"; lit "x.txt"] [lit "backup"; lit "misc"; lit "x.txt"]
            (mkFile true (lit "hello")) (mkFile true (lit "hello"))
            (lit "5d41402abc4b2a76b9719d911017c592")
            _ _ _ _ _ _ _ _ _ _ _ _ _ _ _ _).
  - vm_compute. reflexivity.
  - vm_compute. reflexivity.
  - vm_compute. reflexivity.
  - vm_compute. reflexivity.
  - discriminate.
  - vm_compute. reflexivity.
  - vm_compute. reflexivity.
  - vm_compute. reflexivity.
  - vm_compute. reflexivity.
  - intros p' f' Hl Hh. destruct p' as [|a p']; [discriminate|].
    pose proof (lookup_in_walk_files (a :: p') _ [] f' ltac:(discriminate) Hl)
      as Hin.
    vm_compute in Hin. destruct Hin as [Hin|[Hin|[]]].
    + injection Hin as <- <- <-. reflexivity.
    + injection Hin as <- <- <-. vm_compute in Hh. discriminate.
  - exists [lit "misc"; lit "x.txt"]. split; [discriminate|reflexivity].
  - vm_compute. reflexivity.
  - vm_compute. reflexivity.
  - vm_compute. reflexivity.
  - vm_compute. reflexivity.
  - vm_compute. reflexivity.
Defined.

(** ** The window *)

Lemma reconcile_no_missing_map (fs : node) (target_dir : str)
      (mapping : dict str) (dry_run : bool) (m : str) :
  ~ In (EvMissingMap m) (o_log (reconcile fs target_dir mapping dry_run)).
Proof.
  unfold reconcile.
  destruct (move_loop_count dry_run (resolve target_dir)
              (build_index fs (resolve target_dir)) mapping fs) as [_ Hev].
  destruct (move_loop dry_run _ _ mapping fs) as [[[st fs1] evs] n].
  cbn [fst snd] in Hev. rewrite Forall_forall in Hev.
  assert (Hno : forall l,
             ~ In (EvMissingMap m) l ->
             ~ In (EvMissingMap m)
                  (([EvIndexing target_dir; EvMatching]
                      ++ (if dry_run then [EvPreviewNotice] else []))
                     ++ evs ++ l)).
  { intros l Hl H. apply in_app_or in H as [H|H].
    - destruct dry_run; cbn in H;
        repeat (destruct H as [H|H]; [discriminate|]); contradiction.
    - apply in_app_or in H as [H|H]; [|contradiction].
      destruct (Hev _ H) as (a & b & c & E). discriminate. }
  assert (Hnil : ~ In (EvMissingMap m) []) by (intros []).
  destruct st.
  - destruct dry_run.
    + cbn [o_log]. apply Hno. intros [H|[]]. discriminate.
    + destruct (cleanup fs1 (resolve target_dir)); cbn [o_log]; apply Hno.
      * intros [H|[H|[]]]; discriminate.
      * intros [H|[]]. discriminate.
  - cbn [o_log]. rewrite <- (app_nil_r evs). now apply Hno.
Qed.

Lemma validated_mode (w : window) (fs : node)
      (mode src_dir dst_dir map_path : str) :
  validate_inputs w fs = inr (mode, src_dir, dst_dir, map_path) ->
  mode = w_mode w.
Proof.
  unfold validate_inputs.
  repeat match goal with
         | |- (if ?b then _ else _) = _ -> _ => destruct b; try discriminate
         end; now intros [= <- _ _ _].
Qed.

(** X11: what [_validate_inputs] lets through.  The paths it returns
    are the texts of the fields without the white space at their ends,
    and the mapping path is not empty.  In the scan mode the source is
    a directory.  In the other mode the target is a directory and the
    mapping path names a regular file, so a synchronisation started
    from the window never reports a missing mapping file, in either
    mode of [sync_target]. *)
Theorem validated_inputs (w : window) (fs : node)
        (mode src_dir dst_dir map_path : str) :
  validate_inputs w fs = inr (mode, src_dir, dst_dir, map_path) ->
  mode = w_mode w
  /\ src_dir = strip (w_src w) /\ dst_dir = strip (w_dst w)
  /\ map_path = strip (w_map w) /\ map_path <> []
  /\ (if str_eqb mode (lit "scan") then isdir fs src_dir = true
      else isdir fs dst_dir = true
           /\ isfile fs map_path = true
           /\ forall dry_run,
               ~ In (EvMissingMap map_path)
                    (o_log (sync_target fs dst_dir map_path dry_run))).
Proof.
  unfold validate_inputs.
  destruct (is_empty (strip (w_map w))) eqn:Hmap; [discriminate|].
  assert (Hne : strip (w_map w) <> []).
  { intros E. rewrite E in Hmap. discriminate. }
  destruct (str_eqb (w_mode w) (lit "scan")) eqn:Hmode.
  - destruct (is_empty (strip (w_src w))); [discriminate|].
    destruct (isdir fs (strip (w_src w))) eqn:Hd; [|discriminate].
    cbn [negb]. intros [= <- <- <- <-]. rewrite Hmode. auto 10.
  - destruct (is_empty (strip (w_dst w))); [discriminate|].
    destruct (isdir fs (strip (w_dst w))) eqn:Hd; [|discriminate].
    destruct (isfile fs (strip (w_map w))) eqn:Hf; [|discriminate].
    cbn [negb]. intros [= <- <- <- <-]. rewrite Hmode.
    repeat split; auto.
    intros dry_run. unfold sync_target.
    unfold isfile in Hf. destruct (strip (w_map w)) as [|c s]; [discriminate|].
    destruct (lookup fs (resolve (c :: s))) as [[mf|E]|]; try discriminate.
    destruct (if f_readable mf then load_mapping (f_data mf) else None)
      as [mapping|].
    + apply reconcile_no_missing_map.
    + intros [].
Qed.

Lemma validated_inputs_witness :
  let fs := Dir [(lit "backup", Dir []);
                 (lit "file_map.json", File (mkFile true (lit "{}")))] in
  let w := mkWindow (lit "sync") [] (lit " backup ") (lit "file_map.json ")
                    false true true false false true true true true true
                    CapStart in
  isdir fs (lit "backup") = true
  /\ isfile fs (lit "file_map.json") = true
  /\ forall dry_run,
      ~ In (EvMissingMap (lit "file_map.json"))
           (o_log (sync_target fs (lit "backup") (lit "file_map.json") dry_run)).
Proof.
  intros fs w.
  exact (proj2 (proj2 (proj2 (proj2 (proj2
           (validated_inputs w fs (lit "sync") [] (lit "backup")
              (lit "file_map.json") eq_refl)))))).
Defined.

(** X12: [_set_running(False)] gives back what [_on_mode_changed] has
    set.  In a window whose mode is one of the two items of the combo
    box, a run disables every widget while it lasts, and when it ends
    the window is exactly as it was before the run. *)
Theorem running_round_trip (m : str) (w : window) :
  m = lit "scan" \/ m = lit "sync" ->
  en_run w = true -> en_mode w = true ->
  en_map_edit w = true -> en_map_btn w = true ->
  run_caption w = CapStart ->
  let w0 := select_mode m w in
  let w1 := set_running true w0 in
  set_running false w1 = w0
  /\ en_run w1 = false /\ en_mode w1 = false
  /\ en_src_edit w1 = false /\ en_src_btn w1 = false
  /\ en_dst_edit w1 = false /\ en_dst_btn w1 = false
  /\ en_map_edit w1 = false /\ en_map_btn w1 = false
  /\ en_dry_run w1 = false
  /\ run_caption w1 = CapRunning.
Proof.
  intros Hm Hrun Hmode Hme Hmb Hcap w0 w1.
  split; [|repeat split].
  unfold w1, w0, set_running, select_mode, on_mode_changed.
  cbn [w_mode w_src w_dst w_map w_dry_run en_run en_mode en_src_edit
       en_src_btn en_dst_edit en_dst_btn en_map_edit en_map_btn en_dry_run
       run_caption negb andb].
  rewrite Hrun, Hmode, Hme, Hmb, Hcap.
  destruct Hm as [-> | ->]; reflexivity.
Qed.

Lemma running_round_trip_witness :
  set_running false (set_running true (select_mode (lit "sync") new_window))
  = select_mode (lit "sync") new_window.
Proof.
  exact (proj1 (running_round_trip (lit "sync") new_window
                  (or_intror eq_refl) eq_refl eq_refl eq_refl eq_refl eq_refl)).
Defined.

(** X13: a synchronisation started from the window with the preview box
    checked leaves the tree as it is, whether the inputs are refused,
    the mapping cannot be loaded, or the preview runs to its end. *)
Theorem window_preview_keeps_tree (w : window) (fs : node) (shown : list line) :
  str_eqb (w_mode w) (lit "scan") = false ->
  w_dry_run w = true ->
  s_fs (start w fs shown) = fs.
Proof.
  intros Hmode Hdry. unfold start.
  destruct (validate_inputs w fs) as [warn|[[[mode src_dir] dst_dir] map_path]]
    eqn:Hv; [reflexivity|].
  destruct (validated_mode w fs mode src_dir dst_dir map_path Hv).
  unfold worker_run. rewrite Hmode, Hdry.
  assert (Hfs : o_fs (sync_target fs dst_dir map_path true) = fs).
  { unfold sync_target.
    destruct (lookup fs (resolve map_path)) as [[mf|E]|]; try reflexivity.
    destruct (if f_readable mf then load_mapping (f_data mf) else None)
      as [mapping|]; [|reflexivity].
    now destruct (reconcile_dry fs dst_dir mapping) as [_ [H _]]. }
  destruct (o_status (sync_target fs dst_dir map_path true));
    cbn [s_fs]; exact Hfs.
Qed.

Lemma window_preview_keeps_tree_witness :
  let m := [(lit "5d41402abc4b2a76b9719d911017c592", lit "a/x.txt")] in
  let fs :=
    Dir [(lit "backup", Dir [(lit "x.txt", File (mkFile true (lit "hello")))]);
         (lit "file_map.json", File (mkFile true (fst (save_mapping m))))] in
  let w := mkWindow (lit "sync") [] (lit "backup") (lit "file_map.json")
                    true true true false false true true true true true
                    CapStart in
  s_fs (start w fs []) = fs.
Proof.
  intros m fs w.
  exact (window_preview_keeps_tree w fs [] eq_refl eq_refl).
Defined.

(** ** A source that is no directory *)




(** ** Cleaning twice *)

(** X15: the clean-up is idempotent: on the tree a clean-up has left, a
    second clean-up of the same target returns and removes nothing. *)
Theorem cleanup_idempotent (fs fs' : node) (target : path) :
  wf fs = true ->
  cleanup fs target = Some fs' ->
  wf fs' = true /\ cleanup fs' target = Some fs'.
Proof.
  intros Hwf H. split.
  - now destruct (cleanup_keeps _ _ _ Hwf H).
  - exact (cleanup_again fs fs' target Hwf H).
Qed.

Lemma cleanup_idempotent_witness :
  cleanup
    (Dir [(lit "backup",
           Dir [(lit "a", Dir [(lit "x.txt", File (mkFile true (lit "hello")))])])])
    [lit "backup"]
  = Some
      (Dir [(lit "backup",
             Dir [(lit "a", Dir [(lit "x.txt", File (mkFile true (lit "hello")))])])]).
Proof.
  refine (proj2 (cleanup_idempotent
                   (Dir [(lit "backup",
                          Dir [(lit "misc", Dir [(lit "old", Dir [])]);
                               (lit "a", Dir [(lit "x.txt", File (mkFile true (lit "hello")))])])])
                   _ [lit "backup"] _ _)).
  - reflexivity.
  - vm_compute. reflexivity.
Defined.

(** ** The exit code of a scan *)



(** ** The mapping field *)

Lemma lstrip_nospace (c : char) (s : str) :
  isspace c = false -> lstrip (c :: s) = c :: s.
Proof. intros H. cbn [lstrip]. now rewrite H. Qed.

(** X17: after the combo box is set to the scan mode the mapping field
    is not blank: a field that held nothing but white space gets the
    default [file_map.json], any other text is kept; so the check of
    [_validate_inputs] for a missing mapping path passes. *)
Theorem scan_mode_fills_map (w : window) (fs : node) :
  is_empty (strip (w_map (select_mode (lit "scan") w))) = false
  /\ (is_empty (strip (w_map w)) = true ->
      w_map (select_mode (lit "scan") w) = lit "file_map.json")
  /\ (is_empty (strip (w_map w)) = false ->
      w_map (select_mode (lit "scan") w) = w_map w)
  /\ validate_inputs (select_mode (lit "scan") w) fs <> inl NoMapPath.
Proof.
  assert (Hmap : w_map (select_mode (lit "scan") w)
                 = if is_empty (strip (w_map w)) then lit "file_map.json"
                   else w_map w) by reflexivity.
  assert (H1 : is_empty (strip (w_map (select_mode (lit "scan") w))) = false).
  { rewrite Hmap. destruct (is_empty (strip (w_map w))) eqn:E;
      [reflexivity|exact E]. }
  split; [exact H1|]. split; [|split].
  - intros E. now rewrite Hmap, E.
  - intros E. now rewrite Hmap, E.
  - unfold validate_inputs. rewrite H1.
    change (w_mode (select_mode (lit "scan") w)) with (lit "scan").
    change (str_eqb (lit "scan") (lit "scan")) with true. cbn iota.
    intros H.
    repeat match type of H with
           | (if ?b then _ else _) = _ => destruct b
           end; discriminate.
Qed.
